(** * nn_tilde message backend: a shallow embedding and its verified properties

    The development embeds two translation units of the repository:

    - [src/backend/backend_msg.cpp]: the class [Backend_MSG], which owns a
      TorchScript module and exposes [perform], [load], [reload], the method
      and attribute discovery functions and the attribute get/set protocol;
    - [src/frontend/maxmsp/nn.msg_tilde/nn.msg_tilde.cpp]: the function
      [power_ceil], the buffer size resolution in the constructor of
      [nn_msg_tilde], and its audio callback.

    C++ [int] and [unsigned] are 32-bit integers, modelled as [Z] with the
    wrap-around written out.  Exceptions and undefined behaviour (an
    out-of-range [std::vector::operator[]]) are explicit results.  Single
    precision numbers are the IEEE-754 values of [SpecFloat]. *)

From Stdlib Require Import ZArith Lia List String Ascii Bool.
From Stdlib Require Import DecimalString.
From Stdlib Require Import Floats.SpecFloat.
Import ListNotations.

Local Open Scope string_scope.
Local Open Scope Z_scope.

(* ================================================================== *)
(** * Part I: definitions *)
(* ================================================================== *)

(** ** Machine integers *)

Module Cxx.

(** [unsigned]: values modulo [2^32]. *)
Definition wrap_unsigned (z : Z) : Z := z mod 2 ^ 32.

(** [int]: two's complement on 32 bits; conversions and shifts are taken
    modulo [2^32] (the translation units include [<semaphore>], so the
    language level is C++20, where both are defined that way). *)
Definition wrap_int (z : Z) : Z := (z + 2 ^ 31) mod 2 ^ 32 - 2 ^ 31.

Definition INT_MIN : Z := - 2 ^ 31.
Definition INT_MAX : Z := 2 ^ 31 - 1.
Definition UINT_MAX : Z := 2 ^ 32 - 1.

Definition in_int (z : Z) : Prop := INT_MIN <= z <= INT_MAX.
Definition in_unsigned (z : Z) : Prop := 0 <= z <= UINT_MAX.

Definition in_intb (z : Z) : bool := (INT_MIN <=? z) && (z <=? INT_MAX).

(** [std::to_string] on an integer. *)
Definition to_string (z : Z) : string := NilZero.string_of_int (Z.to_int z).

(** ** Exceptions, undefined behaviour and the state monad *)

(** What the code throws: library errors derived from [std::exception]
    ([c10::Error], [std::invalid_argument], ...), [std::string] objects
    built by ["..." + name + "..."], and one string literal. *)
Inductive exn : Type :=
| std_exception (what : string)
| thrown_string (message : string)
| thrown_literal (message : string).

(** The result of running a piece of code: a value, an exception in flight,
    or undefined behaviour. *)
Inductive result (A : Type) : Type :=
| Val (a : A)
| Exc (e : exn)
| UB.
Arguments Val {A} a.
Arguments Exc {A} e.
Arguments UB {A}.

Definition is_exc {A} (r : result A) : Prop :=
  match r with Exc _ => True | _ => False end.

Definition rbind {A B} (r : result A) (k : A -> result B) : result B :=
  match r with
  | Val a => k a
  | Exc e => Exc e
  | UB => UB
  end.

(** Code that reads and writes the members of an object of type [S].
    Writes made before an exception is thrown stay in place. *)
Definition M (S A : Type) : Type := S -> result A * S.

Definition ret {S A} (a : A) : M S A := fun s => (Val a, s).
Definition throw {S A} (e : exn) : M S A := fun s => (Exc e, s).
Definition lift {S A} (r : result A) : M S A := fun s => (r, s).

Definition bind {S A B} (m : M S A) (k : A -> M S B) : M S B :=
  fun s =>
    match m s with
    | (Val a, s') => k a s'
    | (Exc e, s') => (Exc e, s')
    | (UB, s') => (UB, s')
    end.

Definition gets {S A} (f : S -> A) : M S A := fun s => (Val (f s), s).
Definition modify {S} (f : S -> S) : M S unit := fun s => (Val tt, f s).

(** [try { body } catch (...) { handler }] *)
Definition try_catch_all {S A} (body handler : M S A) : M S A :=
  fun s =>
    match body s with
    | (Exc _, s') => handler s'
    | other => other
    end.

(** [try { body } catch (const std::exception &e) { handler }] *)
Definition try_catch_std {S A} (body handler : M S A) : M S A :=
  fun s =>
    match body s with
    | (Exc (std_exception _), s') => handler s'
    | other => other
    end.

(** [try { body } catch (const std::exception &e) { handler e.what() }] *)
Definition try_catch_what {S A} (body : M S A) (handler : string -> M S A)
  : M S A :=
  fun s =>
    match body s with
    | (Exc (std_exception what), s') => handler what s'
    | other => other
    end.

(** [try { body } catch (std::string message) { handler message }] *)
Definition try_catch_string {S A} (body : M S A) (handler : string -> M S A)
  : M S A :=
  fun s =>
    match body s with
    | (Exc (thrown_string msg), s') => handler msg s'
    | other => other
    end.

(** [m] leaves the part [proj] of the state as it found it. *)
Definition keeps {S X A} (proj : S -> X) (m : M S A) : Prop :=
  forall s, proj (snd (m s)) = proj s.

(** [m] has no undefined behaviour. *)
Definition defined {S A} (m : M S A) : Prop :=
  forall s, fst (m s) <> UB.

(** [for (int i = start; i < start + count; i++) body], threading the local
    variables [a] through the iterations. *)
Fixpoint for_range {A} (start : Z) (count : nat)
         (body : Z -> A -> result A) (a : A) : result A :=
  match count with
  | O => Val a
  | S count' =>
      match body start a with
      | Val a' => for_range (start + 1) count' body a'
      | other => other
      end
  end.

(** [v[i]] on a [std::vector]: no bounds check. *)
Definition vec_at {A} (v : list A) (i : Z) : result A :=
  if i <? 0 then UB
  else match nth_error v (Z.to_nat i) with
       | Some a => Val a
       | None => UB
       end.

End Cxx.

Declare Scope cxx_scope.
Delimit Scope cxx_scope with cxx.
Notation "x <- m ;; k" := (Cxx.bind m (fun x => k))
  (at level 61, m at next level, right associativity) : cxx_scope.
Notation "m ;;; k" := (Cxx.bind m (fun _ => k))
  (at level 61, right associativity) : cxx_scope.

(** ** [power_ceil] and the buffer size *)

Module Sizing.
Import Cxx.

(** The loop [while (x >>= 1) power <<= 1;]: [x] is [unsigned], [power] is
    [int].  Each turn drops one bit of [x], so [fuel = 32] turns are enough
    (lemma [power_ceil_loop_fuel]). *)
Fixpoint power_ceil_loop (fuel : nat) (x power : Z) : option Z :=
  match fuel with
  | O => None
  | S fuel' =>
      let x' := Z.shiftr x 1 in
      if x' =? 0 then Some power
      else power_ceil_loop fuel' x' (wrap_int (Z.shiftl power 1))
  end.

(** [unsigned power_ceil(unsigned x)] *)
Definition power_ceil (x : Z) : option Z :=
  if x <=? 1 then Some 1
  else
    let power := 2 in
    let x := wrap_unsigned (x - 1) in
    option_map wrap_unsigned (power_ceil_loop 32 x power).

(** [r] is the least power of two that is at least [x]. *)
Definition least_power_of_two_geq (x r : Z) : Prop :=
  (exists k, 0 <= k /\ r = 2 ^ k)
  /\ x <= r
  /\ (forall k, 0 <= k -> x <= 2 ^ k -> r <= 2 ^ k).

End Sizing.

(** ** Single precision numbers *)

Module Float32.
Import Cxx.

(** [float] and [double] are IEEE-754 binary32 and binary64 values. *)
Definition float : Type := spec_float.
Definition double : Type := spec_float.

Definition float_zero : float := S754_zero false.

(** Implicit conversion [double -> float]: round to nearest, ties to even,
    in binary32 (precision 24, maximal exponent 128). *)
Definition double_to_float (d : double) : float :=
  match d with
  | S754_finite s m e => binary_normalize 24 128 (cond_Zopp s (Z.pos m)) e s
  | other => other
  end.

(** Implicit conversion [float -> double]: exact. *)
Definition float_to_double (f : float) : double := f.

(** Rounding the quotient [num / den] ([den > 0]) to the nearest integer,
    ties to even. *)
Definition round_half_even_div (num den : Z) : Z :=
  let q := num / den in
  let r := num mod den in
  match 2 * r ?= den with
  | Lt => q
  | Gt => q + 1
  | Eq => if Z.even q then q else q + 1
  end.

Definition pad_zeros (width : nat) (s : string) : string :=
  String.concat EmptyString (repeat "0" (width - String.length s)) ++ s.

Definition sign_string (s : bool) : string := if s then "-" else EmptyString.

(** [std::to_string(float)]: the value printed as by ["%f"], that is with
    six digits after the decimal point, the exact binary value being
    rounded to the nearest such decimal. *)
Definition to_string_float (f : float) : string :=
  match f with
  | S754_zero s => sign_string s ++ "0.000000"
  | S754_infinity s => sign_string s ++ "inf"
  | S754_nan => "nan"
  | S754_finite s m e =>
      let n :=
        if 0 <=? e then Z.pos m * 2 ^ e * 10 ^ 6
        else round_half_even_div (Z.pos m * 10 ^ 6) (2 ^ (- e)) in
      sign_string s ++ to_string (n / 10 ^ 6) ++ "."
        ++ pad_zeros 6 (to_string (n mod 10 ^ 6))
  end.

End Float32.

(** ** The TorchScript values the backend handles *)

Module Torch.
Import Cxx Float32.

Inductive Device : Type := CPU | CUDA | MPS.

(** A tensor: its sizes and its elements in row-major order (a well-formed
    tensor has as many elements as the product of its sizes).  Two element
    types occur: [float] for the signal and 64-bit integers for the
    [<name>_params] tables. *)
Inductive Tensor : Type :=
| FloatTensor (sizes : list nat) (data : list float)
| LongTensor (sizes : list nat) (data : list Z).

Inductive Scalar : Type :=
| ScalarDouble (d : double)
| ScalarLong (i : Z).

Definition sizes_of (t : Tensor) : list nat :=
  match t with
  | FloatTensor sizes _ => sizes
  | LongTensor sizes _ => sizes
  end.

Definition numel_of (sizes : list nat) : nat := fold_right Nat.mul 1%nat sizes.

(** [t.size(0)] *)
Definition tensor_size0 (t : Tensor) : result Z :=
  match sizes_of t with
  | [] => Exc (std_exception "dimension specified as 0 but tensor has no dimensions")
  | n :: _ => Val (Z.of_nat n)
  end.

Definition slice {A} (data : list A) (i stride : nat) : list A :=
  firstn stride (skipn (i * stride) data).

(** [t[i]]: the sub-tensor at index [i] of the first dimension. *)
Definition tensor_select (t : Tensor) (i : Z) : result Tensor :=
  match sizes_of t with
  | [] => Exc (std_exception "index of a 0-dim tensor")
  | n :: rest =>
      if (i <? - Z.of_nat n) || (Z.of_nat n <=? i)
      then Exc (std_exception "index out of range")
      else
        let k := Z.to_nat (if i <? 0 then i + Z.of_nat n else i) in
        match t with
        | FloatTensor _ data => Val (FloatTensor rest (slice data k (numel_of rest)))
        | LongTensor _ data => Val (LongTensor rest (slice data k (numel_of rest)))
        end
  end.

(** [t.item()] *)
Definition tensor_item (t : Tensor) : result Scalar :=
  match t with
  | FloatTensor _ [x] => Val (ScalarDouble (float_to_double x))
  | LongTensor _ [x] => Val (ScalarLong x)
  | _ => Exc (std_exception "a Tensor with several elements cannot be converted to Scalar")
  end.

(** [s.to<int>()] and [s.toInt()]: a checked conversion, which throws when
    the value does not fit in [int]; a fractional value is truncated. *)
Definition scalar_to_int (s : Scalar) : result Z :=
  let overflow := Exc (std_exception "value cannot be converted without overflow") in
  match s with
  | ScalarLong i => if in_intb i then Val i else overflow
  | ScalarDouble (S754_zero _) => Val 0
  | ScalarDouble (S754_finite sgn m e) =>
      let bound := if sgn then 2 ^ 31 else INT_MAX in
      let too_big :=
        if 0 <=? e then bound <? Z.pos m * 2 ^ e
        else bound * 2 ^ (- e) <? Z.pos m in
      if too_big then overflow
      else
        let magnitude :=
          if 0 <=? e then Z.pos m * 2 ^ e else Z.pos m / 2 ^ (- e) in
        Val (cond_Zopp sgn magnitude)
  | ScalarDouble _ => overflow
  end.

(** [t[i].item().to<int>()] *)
Definition tensor_int_at (t : Tensor) (i : Z) : result Z :=
  rbind (tensor_select t i) (fun ti =>
  rbind (tensor_item ti) scalar_to_int).

#[warnings="-register-all"]
Inductive IValue : Type :=
| IVNone
| IVBool (b : bool)
| IVInt (i : Z)
| IVDouble (d : double)
| IVString (s : string)
| IVTensor (t : Tensor)
| IVList (elements : list IValue)
| IVTuple (elements : list IValue).

Definition bad_cast {A} : result A := Exc (std_exception "unexpected IValue tag").

Definition toBool (v : IValue) : result bool :=
  match v with IVBool b => Val b | _ => bad_cast end.
Definition toInt (v : IValue) : result Z :=
  match v with IVInt i => Val i | _ => bad_cast end.
Definition toDouble (v : IValue) : result double :=
  match v with IVDouble d => Val d | _ => bad_cast end.
Definition toStringRef (v : IValue) : result string :=
  match v with IVString s => Val s | _ => bad_cast end.
Definition toTensor (v : IValue) : result Tensor :=
  match v with IVTensor t => Val t | _ => bad_cast end.
Definition toList (v : IValue) : result (list IValue) :=
  match v with IVList l => Val l | _ => bad_cast end.
Definition toTuple (v : IValue) : result (list IValue) :=
  match v with IVTuple l => Val l | _ => bad_cast end.

(** [v.to<float>()]: [toDouble] followed by the narrowing conversion. *)
Definition to_float_value (v : IValue) : result float :=
  rbind (toDouble v) (fun d => Val (double_to_float d)).

(** Association lists keyed by name, in declaration order. *)
Fixpoint lookup {A} (name : string) (l : list (string * A)) : option A :=
  match l with
  | [] => None
  | (n, a) :: rest => if String.eqb n name then Some a else lookup name rest
  end.

Fixpoint update {A} (name : string) (a : A) (l : list (string * A))
  : list (string * A) :=
  match l with
  | [] => [(name, a)]
  | (n, a') :: rest =>
      if String.eqb n name then (n, a) :: rest else (n, a') :: update name a rest
  end.

(** The attribute slots of a module. *)
Definition Store : Type := list (string * IValue).

(** A script method runs on the attribute slots and its arguments; it may
    update the slots, and either returns a value or raises an error. *)
Inductive call_result : Type :=
| Returns (v : IValue)
| Raises (what : string).

Definition ScriptMethod : Type := Store -> list IValue -> Store * call_result.

(** [torch::jit::Module] *)
Record ScriptModule : Type := mkScriptModule {
  methods : list (string * ScriptMethod);
  attributes : Store;
  training : bool;
  device : Device
}.

(** A default-constructed module: no method, no attribute.  It holds no
    object, and [to] raises on it (see [Backend.use_gpu]). *)
Definition empty_module : ScriptModule :=
  {| methods := []; attributes := []; training := true; device := CPU |}.

Definition module_eval (m : ScriptModule) : ScriptModule :=
  {| methods := methods m; attributes := attributes m;
     training := false; device := device m |}.

(** The module [m] once it has been moved to the device [d]. *)
Definition module_to (d : Device) (m : ScriptModule) : ScriptModule :=
  {| methods := methods m; attributes := attributes m;
     training := training m; device := d |}.

Definition with_attributes (st : Store) (m : ScriptModule) : ScriptModule :=
  {| methods := methods m; attributes := st;
     training := training m; device := device m |}.

(** [m.attr(name)] *)
Definition module_attr (m : ScriptModule) (name : string) : result IValue :=
  match lookup name (attributes m) with
  | Some v => Val v
  | None => Exc (std_exception ("Module has no attribute " ++ name))
  end.

(** What lies outside the process: the files [torch::jit::load] can read,
    the accelerators of the machine, and whether the machine can take a
    module on a device ([Module::to] raises when it cannot). *)
Record Host : Type := mkHost {
  jit_load : string -> option ScriptModule;
  hasCUDA : bool;
  hasMPS : bool;
  can_move : ScriptModule -> Device -> bool
}.

(** [m.to(device)] *)
Definition to_device (h : Host) (d : Device) (m : ScriptModule)
  : result ScriptModule :=
  if can_move h m d then Val (module_to d m)
  else Exc (std_exception "cannot move the module to the device").

End Torch.

(** ** [Backend_MSG] (src/backend/backend_msg.cpp) *)

Module Backend.
Import Cxx Float32 Torch.
Local Open Scope cxx_scope.

(** The members of [Backend_MSG].  [calls] is not a member: it records, in
    order, the script methods invoked on the model and their arguments, so
    that "the model is (not) invoked" can be stated.  [std_cout] and
    [std_cerr] are not members either: they are the lines the backend has
    written on the standard output and on the standard error of the
    process.  The mutex guards the model between threads and has no effect
    on one thread; the debug file is never written. *)
Record Backend_MSG : Type := mkBackend {
  m_model : ScriptModule;
  m_loaded : Z;
  m_device : Device;
  m_use_gpu : bool;
  m_available_methods : list string;
  m_path : string;
  calls : list (string * list IValue);
  std_cout : list string;
  std_cerr : list string
}.

Definition set_model (m : ScriptModule) (b : Backend_MSG) : Backend_MSG :=
  mkBackend m (m_loaded b) (m_device b) (m_use_gpu b)
            (m_available_methods b) (m_path b) (calls b)
            (std_cout b) (std_cerr b).
Definition set_loaded (l : Z) (b : Backend_MSG) : Backend_MSG :=
  mkBackend (m_model b) l (m_device b) (m_use_gpu b)
            (m_available_methods b) (m_path b) (calls b)
            (std_cout b) (std_cerr b).
Definition set_device (d : Device) (b : Backend_MSG) : Backend_MSG :=
  mkBackend (m_model b) (m_loaded b) d (m_use_gpu b)
            (m_available_methods b) (m_path b) (calls b)
            (std_cout b) (std_cerr b).
Definition set_available_methods (ms : list string) (b : Backend_MSG)
  : Backend_MSG :=
  mkBackend (m_model b) (m_loaded b) (m_device b) (m_use_gpu b)
            ms (m_path b) (calls b)
            (std_cout b) (std_cerr b).
Definition set_path (p : string) (b : Backend_MSG) : Backend_MSG :=
  mkBackend (m_model b) (m_loaded b) (m_device b) (m_use_gpu b)
            (m_available_methods b) p (calls b)
            (std_cout b) (std_cerr b).
Definition log_call (name : string) (inputs : list IValue) (b : Backend_MSG)
  : Backend_MSG :=
  mkBackend (m_model b) (m_loaded b) (m_device b) (m_use_gpu b)
            (m_available_methods b) (m_path b) (calls b ++ [(name, inputs)])
            (std_cout b) (std_cerr b).
(** [std::cout << line << std::endl;] and [std::cerr << line << '\n';] *)
Definition print_std_cout (line : string) (b : Backend_MSG) : Backend_MSG :=
  mkBackend (m_model b) (m_loaded b) (m_device b) (m_use_gpu b)
            (m_available_methods b) (m_path b) (calls b)
            (std_cout b ++ [line]) (std_cerr b).
Definition print_std_cerr (line : string) (b : Backend_MSG) : Backend_MSG :=
  mkBackend (m_model b) (m_loaded b) (m_device b) (m_use_gpu b)
            (m_available_methods b) (m_path b) (calls b)
            (std_cout b) (std_cerr b ++ [line]).

(** [Backend_MSG::Backend_MSG()] *)
Definition new_backend : Backend_MSG :=
  {| m_model := empty_module; m_loaded := 0; m_device := CPU;
     m_use_gpu := false; m_available_methods := []; m_path := EmptyString;
     calls := []; std_cout := []; std_cerr := [] |}.

(** [m_model.get_method(name)] *)
Definition get_method (name : string) : M Backend_MSG ScriptMethod :=
  fun b =>
    match lookup name (methods (m_model b)) with
    | Some f => (Val f, b)
    | None => (Exc (std_exception ("Method '" ++ name ++ "' is not defined.")), b)
    end.

(** [m_model.get_method(name)(inputs)] *)
Definition call_method (name : string) (inputs : list IValue)
  : M Backend_MSG IValue :=
  f <- get_method name ;;
  fun b =>
    let '(st, r) := f (attributes (m_model b)) inputs in
    let b' := log_call name inputs (set_model (with_attributes st (m_model b)) b) in
    match r with
    | Returns v => (Val v, b')
    | Raises what => (Exc (std_exception what), b')
    end.

(** [m_model.attr(name)] *)
Definition attr (name : string) : M Backend_MSG IValue :=
  fun b => (module_attr (m_model b) name, b).

(** The loop [for (i...) names.push_back(l.get(i).toStringRef());]: the
    names pushed, and whether the loop ran to its end. *)
Fixpoint push_names (l : list IValue) (names : list string)
  : list string * bool :=
  match l with
  | [] => (names, true)
  | v :: rest =>
      match toStringRef v with
      | Val s => push_names rest (names ++ [s])
      | _ => (names, false)
      end
  end.

(** The loop of the [catch (...)] branches: every candidate that has a
    [<name>_params] attribute is pushed. *)
Fixpoint scan_with_params (m : ScriptModule) (candidates : list string)
         (names : list string) : list string :=
  match candidates with
  | [] => names
  | c :: rest =>
      match module_attr m (c ++ "_params") with
      | Val _ => scan_with_params m rest (names ++ [c])
      | _ => scan_with_params m rest names
      end
  end.

(** The common shape of [get_available_methods] and
    [get_settable_attributes]: ask the model's [introspect] method; on any
    exception, continue with the scan, on the names pushed so far. *)
Definition introspect_or_scan (introspect : string)
           (candidates : ScriptModule -> list string)
  : M Backend_MSG (list string) :=
  fun b =>
    match (v <- call_method introspect [] ;; lift (toList v)) b with
    | (Val l, b') =>
        match push_names l [] with
        | (names, true) => (Val names, b')
        | (names, false) =>
            (Val (scan_with_params (m_model b') (candidates (m_model b')) names), b')
        end
    | (Exc _, b') =>
        (Val (scan_with_params (m_model b') (candidates (m_model b')) []), b')
    | (UB, b') => (UB, b')
    end.

(** [Backend_MSG::get_available_methods] *)
Definition get_available_methods : M Backend_MSG (list string) :=
  introspect_or_scan "get_methods" (fun m => map fst (methods m)).

(** [Backend_MSG::get_available_attributes] *)
Definition get_available_attributes : M Backend_MSG (list string) :=
  gets (fun b => map fst (attributes (m_model b))).

(** [Backend_MSG::get_settable_attributes] *)
Definition get_settable_attributes : M Backend_MSG (list string) :=
  introspect_or_scan "get_attributes" (fun m => map fst (attributes m)).

(** [Backend_MSG::has_method] *)
Definition has_method (method_name : string) : M Backend_MSG bool :=
  gets (fun b => existsb (fun m => String.eqb (fst m) method_name)
                         (methods (m_model b))).

(** [Backend_MSG::has_settable_attribute] *)
Definition has_settable_attribute (attribute : string) : M Backend_MSG bool :=
  l <- get_settable_attributes ;;
  ret (existsb (fun a => String.eqb a attribute) l).

(** The loop [for (int i(0); i < 4; i++) params.push_back(p[i].item().to<int>());]
    inside [try { } catch (...) { }]: the values pushed before the first
    exception stay in [params]. *)
Fixpoint push_params (p : Tensor) (i : Z) (count : nat) (params : list Z)
  : list Z :=
  match count with
  | O => params
  | S count' =>
      match tensor_int_at p i with
      | Val v => push_params p (i + 1) count' (params ++ [v])
      | _ => params
      end
  end.

(** [Backend_MSG::get_method_params] *)
Definition get_method_params (method : string) : M Backend_MSG (list Z) :=
  fun b =>
    if existsb (String.eqb method) (m_available_methods b) then
      match rbind (module_attr (m_model b) (method ++ "_params")) toTensor with
      | Val p => (Val (push_params p 0 4 []), b)
      | _ => (Val [], b)
      end
    else (Val [], b).

(** The loop of [get_higher_ratio] over [m_available_methods]. *)
Fixpoint higher_ratio_loop (ms : list string) (higher_ratio : Z)
  : M Backend_MSG Z :=
  match ms with
  | [] => ret higher_ratio
  | method :: rest =>
      params <- get_method_params method ;;
      if (List.length params =? 0)%nat
      then higher_ratio_loop rest higher_ratio
      else
        p1 <- lift (vec_at params 1) ;;
        p3 <- lift (vec_at params 3) ;;
        let max_ratio := Z.max p1 p3 in
        higher_ratio_loop rest (Z.max higher_ratio max_ratio)
  end.

(** [Backend_MSG::get_higher_ratio] *)
Definition get_higher_ratio : M Backend_MSG Z :=
  ms <- gets m_available_methods ;;
  higher_ratio_loop ms 1.

(** [Backend_MSG::is_loaded] *)
Definition is_loaded (b : Backend_MSG) : bool := negb (m_loaded b =? 0).

(** The lines 430-452 of [use_gpu]: the device it selects. *)
Definition select_device (h : Host) (value : bool) : Device :=
  if value
  then if hasCUDA h then CUDA else if hasMPS h then MPS else CPU
  else CPU.

Definition device_name (d : Device) : string :=
  match d with CPU => "cpu" | CUDA => "cuda" | MPS => "mps" end.

(** [Backend_MSG::use_gpu].  The last line, [m_model.to(m_device)], is
    outside any [try].  [m_model] holds an object only once [load] has
    assigned one, which is when [m_loaded] becomes 1: before that, [to]
    raises. *)
Definition use_gpu (h : Host) (value : bool) : M Backend_MSG unit :=
  let d := select_device h value in
  (if value
   then modify (print_std_cout ("sending model to " ++ device_name d))
   else ret tt) ;;;
  modify (set_device d) ;;;
  loaded <- gets m_loaded ;;
  m_model <- gets m_model ;;
  m <- lift (if loaded =? 0
             then Exc (std_exception "the module holds no object")
             else to_device h d m_model) ;;
  modify (set_model m).

(** [Backend_MSG::load] *)
Definition load (h : Host) (path : string) : M Backend_MSG Z :=
  try_catch_what
    (model <- lift (match jit_load h path with
                    | Some m => Val m
                    | None => Exc (std_exception ("cannot load " ++ path))
                    end) ;;
     let model := module_eval model in
     d <- gets m_device ;;
     model <- lift (to_device h d model) ;;
     modify (set_model model) ;;;
     modify (set_loaded 1) ;;;
     ms <- get_available_methods ;;
     modify (set_available_methods ms) ;;;
     modify (set_path path) ;;;
     ret 0)
    (fun what => modify (print_std_cerr what) ;;; ret 1).

(** [v.resize(n, 0.0)] *)
Definition resize (v : list float) (n : nat) : list float :=
  firstn n v ++ repeat float_zero (n - List.length v).

(** [memcpy(dst.data(), src, n * sizeof(float))] *)
Definition memcpy (dst src : list float) (n : nat) : list float :=
  firstn n src ++ skipn n dst.

(** [t.contiguous().data_ptr<float>()] on a flattened tensor *)
Definition data_ptr_float (t : Tensor) : result (list float) :=
  match t with
  | FloatTensor _ data => Val data
  | LongTensor _ _ => Exc (std_exception "expected scalar type Float but found Long")
  end.

(** [t.flatten().size(-1)] *)
Definition flat_size (t : Tensor) : nat :=
  match t with
  | FloatTensor _ data => List.length data
  | LongTensor _ data => List.length data
  end.

(** Code of [perform] runs on the backend and on the caller's [out_msg],
    which it receives by reference. *)
Definition on_backend {A} (m : M Backend_MSG A)
  : M (Backend_MSG * list float) A :=
  fun s => let '(r, b) := m (fst s) in (r, (b, snd s)).

(** The body of the [try] block of [perform]: the model invocation,
    [m_model.get_method(method)(inputs).toTensor()], on the input tensor of
    sizes [{1, in_msg.size(), 1}].  The tensor is a view of [in_msg]
    ([torch::from_blob]); the method receives the values, and what it
    would write into the view is not followed. *)
Definition invoke (in_msg : list float) (method : string)
  : M Backend_MSG Tensor :=
  let tensor_in := FloatTensor [1%nat; List.length in_msg; 1%nat] in_msg in
  let inputs := [IVTensor tensor_in] in
  v <- call_method method inputs ;;
  lift (toTensor v).

(** [Backend_MSG::perform(in_msg, out_msg, method)] *)
Definition perform (in_msg : list float) (method : string)
  : M (Backend_MSG * list float) unit :=
  params <- on_backend (get_method_params method) ;;
  if (List.length params =? 0)%nat then ret tt
  else
    in_dim <- lift (vec_at params 0) ;;
    in_ratio <- lift (vec_at params 1) ;;
    out_dim <- lift (vec_at params 2) ;;
    out_ratio <- lift (vec_at params 3) ;;
    loaded <- gets (fun s => m_loaded (fst s)) ;;
    if loaded =? 0 then ret tt
    else
      caught <- try_catch_std
                  (tensor_out <- on_backend (invoke in_msg method) ;;
                   ret (Some tensor_out))
                  (ret None) ;;
      match caught with
      | None => ret tt
      | Some tensor_out =>
          modify (fun s =>
                    if (List.length (snd s) =? flat_size tensor_out)%nat then s
                    else (fst s, resize (snd s) (flat_size tensor_out))) ;;;
          out_ptr <- lift (data_ptr_float tensor_out) ;;
          modify (fun s => (fst s, memcpy (snd s) out_ptr (List.length (snd s))))
      end.

(** [Backend_MSG::get_attribute] *)
Definition get_attribute (attribute_name : string)
  : M Backend_MSG (list IValue) :=
  let attribute_getter_name := "get_" ++ attribute_name in
  try_catch_all
    (attribute_getter <- get_method attribute_getter_name ;; ret tt)
    (throw (thrown_string ("getter for attribute " ++ attribute_name
                             ++ " not found in model"))) ;;;
  let getter_inputs := [] in
  try_catch_all
    (try_catch_all
       (v <- call_method attribute_getter_name getter_inputs ;;
        lift (toList v))
       (v <- call_method attribute_getter_name getter_inputs ;;
        lift (toTuple v)))
    (v <- call_method attribute_getter_name getter_inputs ;;
     ret [v]).

(** Fetching the [<name>_params] tensor, as both attribute functions do. *)
Definition get_setter_params (attribute_name : string)
  : M Backend_MSG Tensor :=
  try_catch_all
    (v <- attr (attribute_name ++ "_params") ;; lift (toTensor v))
    (throw (thrown_string ("parameters to set attribute " ++ attribute_name
                             ++ " not found in model"))).

Definition bad_type_id {A} (current_id i : Z) : result A :=
  Exc (thrown_string ("bad type id : " ++ to_string current_id
                        ++ "at index " ++ to_string i)).

(** One turn of the loop of [get_attribute_as_string]; [size0] is
    [setter_params.size(0)]. *)
Definition format_field (setter_params : Tensor) (getter_outputs : list IValue)
           (size0 : Z) (i : Z) (current_attr : string) : result string :=
  rbind (tensor_int_at setter_params i) (fun current_id =>
  rbind (match current_id with
         | 0 => rbind (vec_at getter_outputs i) (fun v =>
                rbind (toBool v) (fun b =>
                Val (current_attr ++ (if b then "true" else "false"))))
         | 1 => rbind (vec_at getter_outputs i) (fun v =>
                rbind (toInt v) (fun n =>
                Val (current_attr ++ to_string n)))
         | 2 => rbind (vec_at getter_outputs i) (fun v =>
                rbind (to_float_value v) (fun result =>
                Val (current_attr ++ to_string_float result)))
         | 3 => rbind (vec_at getter_outputs i) (fun v =>
                rbind (toStringRef v) (fun s =>
                Val (current_attr ++ s)))
         | _ => bad_type_id current_id i
         end) (fun current_attr =>
  Val (if i <? size0 - 1 then current_attr ++ " " else current_attr))).

(** [Backend_MSG::get_attribute_as_string] *)
Definition get_attribute_as_string (attribute_name : string)
  : M Backend_MSG string :=
  getter_outputs <- get_attribute attribute_name ;;
  setter_params <- get_setter_params attribute_name ;;
  let current_attr := EmptyString in
  size0 <- lift (tensor_size0 setter_params) ;;
  lift (for_range 0 (Z.to_nat size0)
                  (format_field setter_params getter_outputs size0)
                  current_attr).

(** The functions of [parsing_utils.h], which is not part of the sources:
    each one returns a value or throws (a [None]). *)
Record Parsers : Type := mkParsers {
  to_bool : string -> option bool;
  to_int : string -> option Z;
  to_float : string -> option float
}.

Definition parsed {A} (o : option A) : result A :=
  match o with
  | Some a => Val a
  | None => Exc (std_exception "invalid argument")
  end.

(** One turn of the loop of [set_attribute]. *)
Definition parse_field (P : Parsers) (setter_params : Tensor)
           (attribute_args : list string) (i : Z)
           (setter_inputs : list IValue) : result (list IValue) :=
  rbind (tensor_int_at setter_params i) (fun current_id =>
  match current_id with
  | 0 => rbind (vec_at attribute_args i) (fun a =>
         rbind (parsed (to_bool P a)) (fun b =>
         Val (setter_inputs ++ [IVBool b])%list))
  | 1 => rbind (vec_at attribute_args i) (fun a =>
         rbind (parsed (to_int P a)) (fun n =>
         Val (setter_inputs ++ [IVInt n])%list))
  | 2 => rbind (vec_at attribute_args i) (fun a =>
         rbind (parsed (to_float P a)) (fun f =>
         Val (setter_inputs ++ [IVDouble (float_to_double f)])%list))
  | 3 => rbind (vec_at attribute_args i) (fun a =>
         Val (setter_inputs ++ [IVString a])%list)
  | _ => bad_type_id current_id i
  end).

(** [Backend_MSG::set_attribute] *)
Definition set_attribute (P : Parsers) (attribute_name : string)
           (attribute_args : list string) : M Backend_MSG unit :=
  let attribute_setter_name := "set_" ++ attribute_name in
  try_catch_all
    (attribute_setter <- get_method attribute_setter_name ;; ret tt)
    (throw (thrown_string ("setter for attribute " ++ attribute_name
                             ++ " not found in model"))) ;;;
  setter_params <- get_setter_params attribute_name ;;
  size0 <- lift (tensor_size0 setter_params) ;;
  setter_inputs <- lift (for_range 0 (Z.to_nat size0)
                                   (parse_field P setter_params attribute_args)
                                   []) ;;
  try_catch_all
    (setter_out <- call_method attribute_setter_name setter_inputs ;;
     setter_result <- lift (rbind (toInt setter_out)
                                  (fun n => Val (wrap_int n))) ;;
     if negb (setter_result =? 0)
     then throw (thrown_literal "setter returned -1")
     else ret tt)
    (throw (thrown_string ("setter for " ++ attribute_name ++ " failed"))).

(** [Backend_MSG::reload] *)
Definition reload (h : Host) : M Backend_MSG Z :=
  path <- gets m_path ;;
  return_code <- load h path ;;
  ret return_code.

End Backend.

(** ** Vocabulary of the specification of the backend *)

Module BackendSpec.
Import Cxx Float32 Torch Backend.

(** The [MethodParams] that [get_method_params] resolves in state [b]. *)
Definition params_of (b : Backend_MSG) (method : string) : list Z :=
  match fst (get_method_params method b) with
  | Val params => params
  | _ => []
  end.

(** A method is usable when its four parameters resolve; its ratio is then
    [max(input_ratio, output_ratio)]. *)
Definition usable_ratio (b : Backend_MSG) (method : string) : option Z :=
  match params_of b method with
  | [_; in_ratio; _; out_ratio] => Some (Z.max in_ratio out_ratio)
  | _ => None
  end.

Definition ratios_among (b : Backend_MSG) (ms : list string) : list Z :=
  flat_map (fun m => match usable_ratio b m with
                     | Some r => [r]
                     | None => []
                     end) ms.

(** The ratios of the usable methods of the Method Catalog. *)
Definition usable_ratios (b : Backend_MSG) : list Z :=
  ratios_among b (m_available_methods b).

(** No method of the catalog has a [<name>_params] table that stops short
    of four entries (on such a table [params[3]] reads out of range). *)
Definition params_complete (b : Backend_MSG) : Prop :=
  Forall (fun m => List.length (params_of b m) = 0%nat
                   \/ List.length (params_of b m) = 4%nat)
         (m_available_methods b).

(** The public member functions of [Backend_MSG], as a client calls them
    one after the other. *)
Inductive operation : Type :=
| Perform (in_msg out_msg : list float) (method : string)
| Load (path : string)
| Reload
| UseGpu (value : bool)
| HasMethod (method_name : string)
| HasSettableAttribute (attribute : string)
| GetAvailableMethods
| GetAvailableAttributes
| GetSettableAttributes
| GetAttribute (attribute_name : string)
| GetAttributeAsString (attribute_name : string)
| SetAttribute (P : Parsers) (attribute_name : string)
               (attribute_args : list string)
| GetMethodParams (method : string)
| GetHigherRatio.

Definition void {S A} (m : M S A) : M S unit := bind m (fun _ => ret tt).

Definition run (h : Host) (op : operation) : M Backend_MSG unit :=
  match op with
  | Perform in_msg out_msg method =>
      fun b => let '(r, s) := perform in_msg method (b, out_msg) in (r, fst s)
  | Load path => void (load h path)
  | Reload => void (reload h)
  | UseGpu value => use_gpu h value
  | HasMethod method_name => void (has_method method_name)
  | HasSettableAttribute attribute => void (has_settable_attribute attribute)
  | GetAvailableMethods => void get_available_methods
  | GetAvailableAttributes => void get_available_attributes
  | GetSettableAttributes => void get_settable_attributes
  | GetAttribute attribute_name => void (get_attribute attribute_name)
  | GetAttributeAsString attribute_name =>
      void (get_attribute_as_string attribute_name)
  | SetAttribute P attribute_name attribute_args =>
      set_attribute P attribute_name attribute_args
  | GetMethodParams method => void (get_method_params method)
  | GetHigherRatio => void get_higher_ratio
  end.

(** The states a backend goes through, from its construction on, as long
    as no call has undefined behaviour.  The files and the devices may be
    different at every call. *)
Inductive reachable : Backend_MSG -> Prop :=
| reachable_new : reachable new_backend
| reachable_run b h op :
    reachable b ->
    fst (run h op b) <> UB ->
    reachable (snd (run h op b)).

(** The backend after the script method [f], found under [name], has run
    on [inputs]. *)
Definition after_call (name : string) (inputs : list IValue) (f : ScriptMethod)
           (b : Backend_MSG) : Backend_MSG :=
  log_call name inputs
    (set_model (with_attributes (fst (f (attributes (m_model b)) inputs))
                                (m_model b)) b).

Definition outcome_of (r : call_result) : result IValue :=
  match r with
  | Returns v => Val v
  | Raises what => Exc (std_exception what)
  end.

(** The module declares a [<name>_params] attribute. *)
Definition has_schema (m : ScriptModule) (name : string) : bool :=
  match module_attr m (name ++ "_params") with
  | Val _ => true
  | _ => false
  end.

(** The introspection method [introspect] of the model, called in state
    [b], returns the list [l] and leaves the backend in [b']. *)
Definition introspection (introspect : string) (b : Backend_MSG)
           (l : list IValue) (b' : Backend_MSG) : Prop :=
  bind (call_method introspect []) (fun v => lift (toList v)) b = (Val l, b').

(** [name] is one of the names the introspection method reports. *)
Definition reported_by (introspect : string) (b : Backend_MSG) (name : string)
  : Prop :=
  exists l b', introspection introspect b l b' /\ In (IVString name) l.


(** The [<name>_params] tensor, as [get_setter_params] fetches it. *)
Definition schema_of (b : Backend_MSG) (name : string) : result Tensor :=
  rbind (module_attr (m_model b) (name ++ "_params")) toTensor.

(** A schema with one dimension and integer entries. *)
Definition schema (tags : list Z) : Tensor :=
  LongTensor [List.length tags] tags.

(** The tags of the schema tensor [t] from position [i] on, each read as
    [t[i].item().toInt()]: [None] when one of these reads raises. *)
Fixpoint read_from (t : Tensor) (i : Z) (count : nat) : option (list Z) :=
  match count with
  | O => Some []
  | S count' =>
      match tensor_int_at t i with
      | Val tag => option_map (cons tag) (read_from t (i + 1) count')
      | _ => None
      end
  end.

(** The tags of the schema tensor [t], [t.size(0)] of them: [None] when
    the tensor has no dimension or when the read of an entry raises. *)
Definition read_tags (t : Tensor) : option (list Z) :=
  match tensor_size0 t with
  | Val n => read_from t 0 (Z.to_nat n)
  | _ => None
  end.

(** The four recognized type tags: 0 bool, 1 int, 2 float, 3 string. *)
Definition known_tag (tag : Z) : bool := (0 <=? tag) && (tag <=? 3).

(** The text of one value under its tag, in the words of the
    specification: [true] or [false], the decimal integer, the fixed
    decimal formatting of the single precision value, the raw string. *)
Definition format_value (tag : Z) (v : IValue) : option string :=
  match tag, v with
  | 0, IVBool b => Some (if b then "true" else "false")
  | 1, IVInt n => Some (to_string n)
  | 2, IVDouble d => Some (to_string_float (double_to_float d))
  | 3, IVString s => Some s
  | _, _ => None
  end.

(** The i-th value under the i-th tag, for every tag of the schema. *)
Fixpoint format_fields (tags : list Z) (values : list IValue)
  : option (list string) :=
  match tags, values with
  | [], _ => Some []
  | tag :: tags', v :: values' =>
      match format_value tag v, format_fields tags' values' with
      | Some s, Some fields => Some (s :: fields)
      | _, _ => None
      end
  | _ :: _, [] => None
  end.

(** One argument parsed under its tag. *)
Definition parse_arg (P : Parsers) (tag : Z) (a : string) : option IValue :=
  match tag with
  | 0 => option_map IVBool (to_bool P a)
  | 1 => option_map IVInt (to_int P a)
  | 2 => option_map (fun f => IVDouble (float_to_double f)) (to_float P a)
  | 3 => Some (IVString a)
  | _ => None
  end.

(** The i-th argument under the i-th tag, for every tag of the schema. *)
Fixpoint parse_args (P : Parsers) (tags : list Z) (args : list string)
  : option (list IValue) :=
  match tags, args with
  | [], _ => Some []
  | tag :: tags', a :: args' =>
      match parse_arg P tag a, parse_args P tags' args' with
      | Some v, Some inputs => Some (v :: inputs)
      | _, _ => None
      end
  | _ :: _, [] => None
  end.

(** The setter answers with an integer that is zero as an [int]. *)
Definition accepts (r : call_result) : bool :=
  match r with
  | Returns (IVInt code) => wrap_int code =? 0
  | _ => false
  end.

(** What [load] builds before it writes any member (lines 89-91): the
    module read from the file, put in evaluation mode and moved to the
    device [d]; or the error of the step that failed. *)
Definition constructed (h : Host) (path : string) (d : Device)
  : result ScriptModule :=
  match jit_load h path with
  | Some model => to_device h d (module_eval model)
  | None => Exc (std_exception ("cannot load " ++ path))
  end.

(** The members that only [load] writes. *)
Definition catalog (b : Backend_MSG) : Z * list string * string :=
  (m_loaded b, m_available_methods b, m_path b).

End BackendSpec.

(** ** [nn_msg_tilde] (src/frontend/maxmsp/nn.msg_tilde/nn.msg_tilde.cpp) *)

(** The interface of [circular_buffer<in_type, out_type>], whose header
    [circular_buffer.h] is not part of the sources: the signal object only
    initializes its buffers, puts [float]s and gets [double]s. *)
Record RateBuffer : Type := mkRateBuffer {
  ring : Type;
  ring_new : ring;
  ring_initialize : Z -> ring -> ring;
  ring_put : list Float32.float -> ring -> ring;
  ring_get : nat -> ring -> list Float32.double * ring
}.

Module Frontend.
Import Cxx Float32 Torch Sizing.
Local Open Scope cxx_scope.

(** [audio_bundle]: [samples] holds one array per channel, [frame_count] is
    the number of frames the host passes in each of them. *)
Record audio_bundle : Type := mkBundle {
  samples : list (list double);
  frame_count : Z
}.

Definition channel_count (b : audio_bundle) : Z :=
  Z.of_nat (List.length (samples b)).

(** Every channel holds exactly [frame_count] samples. *)
Definition well_formed (b : audio_bundle) : Prop :=
  Forall (fun ch => Z.of_nat (List.length ch) = frame_count b) (samples b).

(** [a[i] = x] through a raw pointer: no bounds check. *)
Fixpoint replace_nth {A} (l : list A) (n : nat) (x : A) : option (list A) :=
  match l, n with
  | [], _ => None
  | _ :: rest, O => Some (x :: rest)
  | y :: rest, S n' => option_map (cons y) (replace_nth rest n' x)
  end.

Definition write_at {A} (l : list A) (i : Z) (x : A) : result (list A) :=
  if i <? 0 then UB
  else match replace_nth l (Z.to_nat i) x with
       | Some l' => Val l'
       | None => UB
       end.

Definition double_zero : double := S754_zero false.

(** [fill_with_zero] *)
Definition fill_with_zero (output : audio_bundle) : result audio_bundle :=
  rbind
    (for_range 0 (Z.to_nat (channel_count output))
       (fun c chans =>
          rbind (vec_at chans c) (fun out =>
          rbind (for_range 0 (Z.to_nat (frame_count output))
                   (fun i out => write_at out i double_zero) out) (fun out =>
          write_at chans c out)))
       (samples output))
    (fun chans => Val (mkBundle chans (frame_count output))).

(** The bundle [output] once every sample of every channel is zero. *)
Definition silence (output : audio_bundle) : audio_bundle :=
  mkBundle (map (fun ch => repeat double_zero (List.length ch)) (samples output))
           (frame_count output).

Definition all_zero (b : audio_bundle) : Prop :=
  Forall (Forall (fun x => x = double_zero)) (samples b).

Section Object.

Context (R : RateBuffer).

(** The members of [nn_msg_tilde] that the code below reads or writes;
    [cerr] is the text sent to the error console. *)
Record nn_msg_tilde : Type := mkObject {
  m_model : Backend.Backend_MSG;
  m_method : string;
  settable_attributes : list string;
  m_in_dim : Z;
  m_in_ratio : Z;
  m_out_dim : Z;
  m_out_ratio : Z;
  m_higher_ratio : Z;
  input_msg : list float;
  output_msg : list float;
  m_buffer_size : Z;
  m_out_buffer : list (ring R);
  enable : bool;
  gpu : bool;
  cerr : list string
}.

Definition set_backend (b : Backend.Backend_MSG) (o : nn_msg_tilde) :=
  mkObject b (m_method o) (settable_attributes o) (m_in_dim o) (m_in_ratio o)
           (m_out_dim o) (m_out_ratio o) (m_higher_ratio o) (input_msg o)
           (output_msg o) (m_buffer_size o) (m_out_buffer o) (enable o)
           (gpu o) (cerr o).
Definition set_output_msg (v : list float) (o : nn_msg_tilde) :=
  mkObject (m_model o) (m_method o) (settable_attributes o) (m_in_dim o)
           (m_in_ratio o) (m_out_dim o) (m_out_ratio o) (m_higher_ratio o)
           (input_msg o) v (m_buffer_size o) (m_out_buffer o) (enable o)
           (gpu o) (cerr o).
Definition set_buffer_size (n : Z) (o : nn_msg_tilde) :=
  mkObject (m_model o) (m_method o) (settable_attributes o) (m_in_dim o)
           (m_in_ratio o) (m_out_dim o) (m_out_ratio o) (m_higher_ratio o)
           (input_msg o) (output_msg o) n (m_out_buffer o) (enable o)
           (gpu o) (cerr o).
Definition set_out_buffer (rs : list (ring R)) (o : nn_msg_tilde) :=
  mkObject (m_model o) (m_method o) (settable_attributes o) (m_in_dim o)
           (m_in_ratio o) (m_out_dim o) (m_out_ratio o) (m_higher_ratio o)
           (input_msg o) (output_msg o) (m_buffer_size o) rs (enable o)
           (gpu o) (cerr o).
Definition set_enable (e : bool) (o : nn_msg_tilde) :=
  mkObject (m_model o) (m_method o) (settable_attributes o) (m_in_dim o)
           (m_in_ratio o) (m_out_dim o) (m_out_ratio o) (m_higher_ratio o)
           (input_msg o) (output_msg o) (m_buffer_size o) (m_out_buffer o) e
           (gpu o) (cerr o).
Definition print_cerr (line : string) (o : nn_msg_tilde) :=
  mkObject (m_model o) (m_method o) (settable_attributes o) (m_in_dim o)
           (m_in_ratio o) (m_out_dim o) (m_out_ratio o) (m_higher_ratio o)
           (input_msg o) (output_msg o) (m_buffer_size o) (m_out_buffer o)
           (enable o) (gpu o) (cerr o ++ [line]).

(** Lines 238-246 of the constructor: the buffer size the object settles
    on, from the requested [m_buffer_size] and [m_higher_ratio].  The result
    of [power_ceil] is [unsigned] and is converted back to [int]. *)
Definition resolve_buffer_size : M nn_msg_tilde unit :=
  fun o =>
    if m_buffer_size o =? 0 then
      (Val tt, set_buffer_size (m_higher_ratio o) o)
    else if m_buffer_size o <? m_higher_ratio o then
      let o := set_buffer_size (m_higher_ratio o) o in
      (Val tt, print_cerr ("buffer size too small, switching to "
                             ++ to_string (m_buffer_size o)) o)
    else
      match power_ceil (wrap_unsigned (m_buffer_size o)) with
      | Some p => (Val tt, set_buffer_size (wrap_int p) o)
      | None => (UB, o)
      end.

(** [nn_msg_tilde::perform] *)
Definition perform (input output : audio_bundle)
  : M nn_msg_tilde audio_bundle :=
  let vec_size := frame_count output in
  (fun o =>
     let '(r, (b, out)) :=
       Backend.perform (input_msg o) (m_method o) (m_model o, output_msg o) in
     (r, set_output_msg out (set_backend b o))) ;;;
  (fun o =>
     match vec_at (m_out_buffer o) 0 with
     | Val r0 =>
         match write_at (m_out_buffer o) 0 (ring_put R (output_msg o) r0) with
         | Val rs => (Val tt, set_out_buffer rs o)
         | Exc e => (Exc e, o)
         | UB => (UB, o)
         end
     | Exc e => (Exc e, o)
     | UB => (UB, o)
     end) ;;;
  (fun o =>
     let r :=
       for_range 0 (Z.to_nat (channel_count output))
         (fun c (st : list (ring R) * list (list double)) =>
            rbind (vec_at (snd st) c) (fun out =>
            rbind (vec_at (fst st) c) (fun rc =>
            let '(got, rc') := ring_get R (Z.to_nat vec_size) rc in
            rbind (write_at (fst st) c rc') (fun rs =>
            rbind (write_at (snd st) c
                            (got ++ skipn (Z.to_nat vec_size) out)%list)
                  (fun chans => Val (rs, chans))))))
         (m_out_buffer o, samples output) in
     match r with
     | Val (rs, chans) =>
         (Val (mkBundle chans (frame_count output)), set_out_buffer rs o)
     | Exc e => (Exc e, o)
     | UB => (UB, o)
     end).

(** [nn_msg_tilde::operator()]: the audio callback.  The value returned is
    the content of [output] when the callback ends. *)
Definition audio_callback (input output : audio_bundle)
  : M nn_msg_tilde audio_bundle :=
  let dsp_vec_size := frame_count output in
  fun o =>
    if negb (Backend.is_loaded (m_model o)) || negb (enable o) then
      (fill_with_zero output, o)
    else if m_buffer_size o <? dsp_vec_size then
      let o := print_cerr ("vector size (" ++ to_string dsp_vec_size ++ ") "
                 ++ "larger than buffer size (" ++ to_string (m_buffer_size o)
                 ++ "). " ++ "disabling model.") o in
      let o := set_enable false o in
      (fill_with_zero output, o)
    else
      perform input output o.

(** The callbacks the host makes one after the other, each on its own pair
    of bundles; the results are the contents of the output bundles. *)
Fixpoint audio_callbacks (blocks : list (audio_bundle * audio_bundle))
         (o : nn_msg_tilde) : list (result audio_bundle) * nn_msg_tilde :=
  match blocks with
  | [] => ([], o)
  | (input, output) :: rest =>
      let '(r, o1) := audio_callback input output o in
      let '(rs, o2) := audio_callbacks rest o1 in
      (r :: rs, o2)
  end.

End Object.

Arguments m_model {R}.
Arguments m_method {R}.
Arguments settable_attributes {R}.
Arguments m_in_dim {R}.
Arguments m_in_ratio {R}.
Arguments m_out_dim {R}.
Arguments m_out_ratio {R}.
Arguments m_higher_ratio {R}.
Arguments input_msg {R}.
Arguments output_msg {R}.
Arguments m_buffer_size {R}.
Arguments m_out_buffer {R}.
Arguments enable {R}.
Arguments gpu {R}.
Arguments cerr {R}.
Arguments set_backend {R}.
Arguments set_output_msg {R}.
Arguments set_buffer_size {R}.
Arguments set_out_buffer {R}.
Arguments set_enable {R}.
Arguments print_cerr {R}.
Arguments resolve_buffer_size {R}.
Arguments perform {R}.
Arguments audio_callback {R}.
Arguments audio_callbacks {R}.

End Frontend.

(** ** The parts of the repository that are not in the sources *)

Module SpecRing.
Import Float32.

(** Modelled from the spec: the header [circular_buffer.h] is missing.  The
    Rate Buffer has a capacity (a power of two), a storage array of that
    length, zero-filled when the buffer is set up, and two cursors that only
    grow and are reduced modulo the capacity with the mask [capacity - 1]. *)
Record t : Type := mkRing {
  capacity : Z;
  storage : list double;
  write_cursor : Z;
  read_cursor : Z
}.

Definition empty : t := mkRing 0 [] 0 0.

Definition initialize (size : Z) (_ : t) : t :=
  mkRing size (repeat (S754_zero false) (Z.to_nat size)) 0 0.

Fixpoint store_at (l : list double) (n : nat) (x : double) : list double :=
  match l, n with
  | [], _ => []
  | _ :: rest, O => x :: rest
  | y :: rest, S n' => y :: store_at rest n' x
  end.

Definition put_one (r : t) (x : float) : t :=
  let slot := Z.to_nat (Z.land (write_cursor r) (capacity r - 1)) in
  mkRing (capacity r) (store_at (storage r) slot (float_to_double x))
         (write_cursor r + 1) (read_cursor r).

Definition put (values : list float) (r : t) : t := fold_left put_one values r.

Fixpoint get (count : nat) (r : t) : list double * t :=
  match count with
  | O => ([], r)
  | S count' =>
      let slot := Z.to_nat (Z.land (read_cursor r) (capacity r - 1)) in
      let x := nth slot (storage r) (S754_zero false) in
      let '(xs, r') :=
        get count' (mkRing (capacity r) (storage r) (write_cursor r)
                           (read_cursor r + 1)) in
      (x :: xs, r')
  end.

Definition rate_buffer : RateBuffer :=
  {| ring := t; ring_new := empty; ring_initialize := initialize;
     ring_put := put; ring_get := get |}.

End SpecRing.

Module SpecParsing.
Import Cxx Float32.

(** Modelled from the spec: the header [parsing_utils.h] is missing; the
    spec names the three functions "boolean parse, integer parse, float
    parse".  This instance reads [true] and [false], a decimal integer with
    an optional sign, and a decimal number with an optional sign and an
    optional fractional part, rounded to the nearest [float]; any other
    text, and a number out of range, is rejected. *)
Definition digit_of (c : ascii) : option Z :=
  let n := Z.of_N (N_of_ascii c) in
  if (48 <=? n) && (n <=? 57) then Some (n - 48) else None.

Fixpoint digits_value (s : string) (acc : Z) : option Z :=
  match s with
  | EmptyString => Some acc
  | String c rest =>
      match digit_of c with
      | Some d => digits_value rest (10 * acc + d)
      | None => None
      end
  end.

Definition number_of (s : string) : option Z :=
  match s with
  | EmptyString => None
  | _ => digits_value s 0
  end.

Definition split_sign (s : string) : bool * string :=
  match s with
  | String "-" rest => (true, rest)
  | String "+" rest => (false, rest)
  | _ => (false, s)
  end.

Definition to_bool (s : string) : option bool :=
  if String.eqb s "true" then Some true
  else if String.eqb s "false" then Some false
  else None.

Definition to_int (s : string) : option Z :=
  let '(negative, digits) := split_sign s in
  match number_of digits with
  | Some n =>
      let v := if negative then - n else n in
      if in_intb v then Some v else None
  | None => None
  end.

(** The text before and after the first ["."]. *)
Fixpoint split_point (s : string) : string * option string :=
  match s with
  | EmptyString => (EmptyString, None)
  | String "." rest => (EmptyString, Some rest)
  | String c rest =>
      let '(whole, fraction) := split_point rest in (String c whole, fraction)
  end.

(** The [float] nearest to [num / den], for [num >= 0] and [den > 0]. *)
Definition nearest_float (negative : bool) (num den : Z) : float :=
  if num =? 0 then S754_zero negative
  else
    let shift := Z.max 0 (26 + Z.log2 den - Z.log2 num) in
    let q := (num * 2 ^ shift) / den in
    let r := (num * 2 ^ shift) mod den in
    let loc := if r =? 0 then loc_Exact else loc_Inexact (2 * r ?= den) in
    binary_round_aux 24 128 negative q (- shift) loc.

Definition to_float (s : string) : option float :=
  let '(negative, body) := split_sign s in
  let '(whole, fraction) := split_point body in
  let digits := whole ++ match fraction with Some f => f | None => EmptyString end in
  let scale := match fraction with
               | Some f => 10 ^ Z.of_nat (String.length f)
               | None => 1
               end in
  match number_of whole, number_of digits with
  | Some _, Some n =>
      match nearest_float negative n scale with
      | S754_infinity _ => None
      | f => Some f
      end
  | _, _ => None
  end.

Definition parsers : Backend.Parsers :=
  {| Backend.to_bool := to_bool; Backend.to_int := to_int;
     Backend.to_float := to_float |}.

End SpecParsing.

(** ** [perform] and [reload] on two threads *)

Module Threads.
Import Cxx Torch Backend BackendSpec.

(** One thread runs [perform], the other runs [load] (called by [reload]).
    They share [m_model_mutex], [m_model], [m_loaded], [m_available_methods]
    and [m_path].  Each transition below is one access of one thread to the
    shared members, together with the code that follows it on the locals
    of that thread.  The copy [m_model = model] is split in two writes, the
    code of the module and then the rest of it, and the invocation in two
    reads, [get_method] and the call, so that an interleaving in the middle
    of either would show a mixed module.  A script method that does not
    return is an interleaving in which its thread takes no further step. *)
Inductive thread : Type := Performer | Loader.

(** Where the thread of [perform] stands (lines 21-83 and 392-412). *)
Inductive perform_pc : Type :=
| P_catalog_read     (* std::find over m_available_methods, lines 396-397 *)
| P_params_lock      (* unique_lock model_lock(m_model_mutex); line 401 *)
| P_params_read      (* m_model.attr(method + "_params").toTensor(), line 402 *)
| P_params_unlock    (* model_lock.unlock(); line 403, then lines 404-405, 27-33 *)
| P_check_loaded     (* if (!m_loaded) return; line 35 *)
| P_lock             (* unique_lock model_lock(m_model_mutex); line 50 *)
| P_get_method       (* m_model.get_method(method), line 58 *)
| P_call             (* (inputs).toTensor(), line 58 *)
| P_unlock           (* unlock(), line 66, or the destructor at line 64 *)
| P_done             (* perform has returned *)
| P_undefined.       (* params[3] read beyond the end of params, lines 30-33 *)

(** Where the thread of [load] stands (lines 85-107 and 136-170). *)
Inductive load_pc : Type :=
| L_construct        (* torch::jit::load, eval, to: lines 89-91 *)
| L_lock             (* unique_lock model_lock(m_model_mutex); line 93 *)
| L_copy_methods     (* m_model = model; line 94, first part *)
| L_copy_attributes  (* m_model = model; line 94, second part *)
| L_set_loaded       (* m_loaded = 1; line 95 *)
| L_unlock           (* model_lock.unlock(); line 96 *)
| L_list_lock        (* get_available_methods: unique_lock, line 143 *)
| L_list_call        (* m_model.get_method("get_methods")(dumb_input).toList() *)
| L_list_unlock      (* model_lock.unlock(); line 146, then lines 148-151 *)
| L_scan_lock        (* catch (...): unique_lock, line 155 *)
| L_scan             (* the loop of lines 156-167 *)
| L_scan_unlock      (* model_lock.unlock(); line 168 *)
| L_write_catalog    (* m_available_methods = ...; line 98 *)
| L_write_path       (* m_path = path; line 99 *)
| L_done             (* return 0; *)
| L_failed.          (* the handler of lines 102-106: return 1; *)

(** The members of the backend that the two threads share. *)
Record shared : Type := mkShared {
  mutex : option thread;
  slot : ScriptModule;                  (* m_model *)
  loaded_flag : Z;                      (* m_loaded *)
  catalog : list string;                (* m_available_methods *)
  stored_path : string                  (* m_path *)
}.

(** The locals of [perform], and what its invocation has read of the
    module: the method table at [get_method], the attribute slots at the
    call. *)
Record performer : Type := mkPerformer {
  at_perform : perform_pc;
  table : option Tensor;                (* p, line 402 *)
  callee : option ScriptMethod;         (* m_model.get_method(method) *)
  seen_methods : option (list (string * ScriptMethod));
  seen_attributes : option Store
}.

(** The locals of [load] and of the [get_available_methods] it calls. *)
Record loader : Type := mkLoader {
  at_load : load_pc;
  listed : list IValue;                 (* methods_from_model *)
  names : list string                   (* methods *)
}.

Record config : Type := mkConfig {
  perf : performer;
  load : loader;
  mem : shared
}.

(** Both threads at their first instruction, the old model in place. *)
Definition initial (old : ScriptModule) (flag : Z) (listing : list string)
           (path : string) : config :=
  mkConfig (mkPerformer P_catalog_read None None None None)
           (mkLoader L_construct [] [])
           (mkShared None old flag listing path).

(** [free guarded m]: the mutex can be taken.  With [guarded = false] the
    locks are ignored, which is the program without its mutex. *)
Definition free (guarded : bool) (m : option thread) : Prop :=
  guarded = true -> m = None.

(** The first part of the copy [m_model = model]: the code of [new] over
    what else the slot holds. *)
Definition with_methods (new m : ScriptModule) : ScriptModule :=
  {| methods := methods new; attributes := attributes m;
     training := training m; device := device m |}.

(** The steps of [perform(in_msg, out_msg, method)], [inputs] being the
    tensor of [in_msg]. *)
Inductive perform_step (guarded : bool) (method : string) (inputs : list IValue)
  : performer -> shared -> performer -> shared -> Prop :=
| perform_catalog_found t g sm sa s :
    existsb (String.eqb method) (catalog s) = true ->
    perform_step guarded method inputs
      (mkPerformer P_catalog_read t g sm sa) s
      (mkPerformer P_params_lock t g sm sa) s
| perform_catalog_missing t g sm sa s :
    existsb (String.eqb method) (catalog s) = false ->
    perform_step guarded method inputs
      (mkPerformer P_catalog_read t g sm sa) s
      (mkPerformer P_done t g sm sa) s
| perform_params_lock t g sm sa m sl fl cat sp :
    free guarded m ->
    perform_step guarded method inputs
      (mkPerformer P_params_lock t g sm sa) (mkShared m sl fl cat sp)
      (mkPerformer P_params_read t g sm sa)
      (mkShared (Some Performer) sl fl cat sp)
| perform_params_read t g sm sa s p :
    rbind (module_attr (slot s) (method ++ "_params")) toTensor = Val p ->
    perform_step guarded method inputs
      (mkPerformer P_params_read t g sm sa) s
      (mkPerformer P_params_unlock (Some p) g sm sa) s
| perform_params_raise t g sm sa m sl fl cat sp :
    (forall p, rbind (module_attr sl (method ++ "_params")) toTensor <> Val p) ->
    perform_step guarded method inputs
      (mkPerformer P_params_read t g sm sa) (mkShared m sl fl cat sp)
      (mkPerformer P_done t g sm sa) (mkShared None sl fl cat sp)
| perform_params_empty p g sm sa m sl fl cat sp :
    push_params p 0 4 [] = [] ->
    perform_step guarded method inputs
      (mkPerformer P_params_unlock (Some p) g sm sa) (mkShared m sl fl cat sp)
      (mkPerformer P_done (Some p) g sm sa) (mkShared None sl fl cat sp)
| perform_params_short p g sm sa m sl fl cat sp :
    push_params p 0 4 [] <> [] ->
    (List.length (push_params p 0 4 []) < 4)%nat ->
    perform_step guarded method inputs
      (mkPerformer P_params_unlock (Some p) g sm sa) (mkShared m sl fl cat sp)
      (mkPerformer P_undefined (Some p) g sm sa) (mkShared None sl fl cat sp)
| perform_params_found p g sm sa m sl fl cat sp :
    List.length (push_params p 0 4 []) = 4%nat ->
    perform_step guarded method inputs
      (mkPerformer P_params_unlock (Some p) g sm sa) (mkShared m sl fl cat sp)
      (mkPerformer P_check_loaded (Some p) g sm sa) (mkShared None sl fl cat sp)
| perform_not_loaded t g sm sa s :
    loaded_flag s = 0 ->
    perform_step guarded method inputs
      (mkPerformer P_check_loaded t g sm sa) s
      (mkPerformer P_done t g sm sa) s
| perform_loaded t g sm sa s :
    loaded_flag s <> 0 ->
    perform_step guarded method inputs
      (mkPerformer P_check_loaded t g sm sa) s
      (mkPerformer P_lock t g sm sa) s
| perform_lock t g sm sa m sl fl cat sp :
    free guarded m ->
    perform_step guarded method inputs
      (mkPerformer P_lock t g sm sa) (mkShared m sl fl cat sp)
      (mkPerformer P_get_method t g sm sa)
      (mkShared (Some Performer) sl fl cat sp)
| perform_get_method t g sm sa s f :
    lookup method (methods (slot s)) = Some f ->
    perform_step guarded method inputs
      (mkPerformer P_get_method t g sm sa) s
      (mkPerformer P_call t (Some f) (Some (methods (slot s))) sa) s
| perform_get_method_raise t g sm sa m sl fl cat sp :
    lookup method (methods sl) = None ->
    perform_step guarded method inputs
      (mkPerformer P_get_method t g sm sa) (mkShared m sl fl cat sp)
      (mkPerformer P_done t g (Some (methods sl)) sa)
      (mkShared None sl fl cat sp)
| perform_call t f sm sa m sl fl cat sp :
    perform_step guarded method inputs
      (mkPerformer P_call t (Some f) sm sa) (mkShared m sl fl cat sp)
      (mkPerformer P_unlock t (Some f) sm (Some (attributes sl)))
      (mkShared m (with_attributes (fst (f (attributes sl) inputs)) sl)
                fl cat sp)
| perform_unlock t g sm sa m sl fl cat sp :
    perform_step guarded method inputs
      (mkPerformer P_unlock t g sm sa) (mkShared m sl fl cat sp)
      (mkPerformer P_done t g sm sa) (mkShared None sl fl cat sp).

(** The steps of [load(path)].  Lines 89-91 touch no shared member but
    [m_device], which neither thread writes: they give the module [new], or
    they raise. *)
Inductive load_step (guarded : bool) (new : ScriptModule) (path : string)
  : loader -> shared -> loader -> shared -> Prop :=
| load_construct li ns s :
    load_step guarded new path
      (mkLoader L_construct li ns) s (mkLoader L_lock li ns) s
| load_construct_raise li ns s :
    load_step guarded new path
      (mkLoader L_construct li ns) s (mkLoader L_failed li ns) s
| load_lock li ns m sl fl cat sp :
    free guarded m ->
    load_step guarded new path
      (mkLoader L_lock li ns) (mkShared m sl fl cat sp)
      (mkLoader L_copy_methods li ns) (mkShared (Some Loader) sl fl cat sp)
| load_copy_methods li ns m sl fl cat sp :
    load_step guarded new path
      (mkLoader L_copy_methods li ns) (mkShared m sl fl cat sp)
      (mkLoader L_copy_attributes li ns)
      (mkShared m (with_methods new sl) fl cat sp)
| load_copy_attributes li ns m sl fl cat sp :
    load_step guarded new path
      (mkLoader L_copy_attributes li ns) (mkShared m sl fl cat sp)
      (mkLoader L_set_loaded li ns) (mkShared m new fl cat sp)
| load_set_loaded li ns m sl fl cat sp :
    load_step guarded new path
      (mkLoader L_set_loaded li ns) (mkShared m sl fl cat sp)
      (mkLoader L_unlock li ns) (mkShared m sl 1 cat sp)
| load_unlock li ns m sl fl cat sp :
    load_step guarded new path
      (mkLoader L_unlock li ns) (mkShared m sl fl cat sp)
      (mkLoader L_list_lock li ns) (mkShared None sl fl cat sp)
| load_list_lock li ns m sl fl cat sp :
    free guarded m ->
    load_step guarded new path
      (mkLoader L_list_lock li ns) (mkShared m sl fl cat sp)
      (mkLoader L_list_call li ns) (mkShared (Some Loader) sl fl cat sp)
| load_list_call li ns m sl fl cat sp f l :
    lookup "get_methods" (methods sl) = Some f ->
    rbind (outcome_of (snd (f (attributes sl) []))) toList = Val l ->
    load_step guarded new path
      (mkLoader L_list_call li ns) (mkShared m sl fl cat sp)
      (mkLoader L_list_unlock l ns)
      (mkShared m (with_attributes (fst (f (attributes sl) [])) sl) fl cat sp)
| load_list_call_raise li ns m sl fl cat sp f :
    lookup "get_methods" (methods sl) = Some f ->
    (forall l, rbind (outcome_of (snd (f (attributes sl) []))) toList <> Val l) ->
    load_step guarded new path
      (mkLoader L_list_call li ns) (mkShared m sl fl cat sp)
      (mkLoader L_scan_lock li ns)
      (mkShared None (with_attributes (fst (f (attributes sl) [])) sl)
                fl cat sp)
| load_list_missing li ns m sl fl cat sp :
    lookup "get_methods" (methods sl) = None ->
    load_step guarded new path
      (mkLoader L_list_call li ns) (mkShared m sl fl cat sp)
      (mkLoader L_scan_lock li ns) (mkShared None sl fl cat sp)
| load_list_unlock li ns m sl fl cat sp pushed :
    push_names li [] = (pushed, true) ->
    load_step guarded new path
      (mkLoader L_list_unlock li ns) (mkShared m sl fl cat sp)
      (mkLoader L_write_catalog li pushed) (mkShared None sl fl cat sp)
| load_list_unlock_raise li ns m sl fl cat sp pushed :
    push_names li [] = (pushed, false) ->
    load_step guarded new path
      (mkLoader L_list_unlock li ns) (mkShared m sl fl cat sp)
      (mkLoader L_scan_lock li pushed) (mkShared None sl fl cat sp)
| load_scan_lock li ns m sl fl cat sp :
    free guarded m ->
    load_step guarded new path
      (mkLoader L_scan_lock li ns) (mkShared m sl fl cat sp)
      (mkLoader L_scan li ns) (mkShared (Some Loader) sl fl cat sp)
| load_scan li ns s :
    load_step guarded new path
      (mkLoader L_scan li ns) s
      (mkLoader L_scan_unlock li
                (scan_with_params (slot s) (map fst (methods (slot s))) ns)) s
| load_scan_unlock li ns m sl fl cat sp :
    load_step guarded new path
      (mkLoader L_scan_unlock li ns) (mkShared m sl fl cat sp)
      (mkLoader L_write_catalog li ns) (mkShared None sl fl cat sp)
| load_write_catalog li ns m sl fl cat sp :
    load_step guarded new path
      (mkLoader L_write_catalog li ns) (mkShared m sl fl cat sp)
      (mkLoader L_write_path li ns) (mkShared m sl fl ns sp)
| load_write_path li ns m sl fl cat sp :
    load_step guarded new path
      (mkLoader L_write_path li ns) (mkShared m sl fl cat sp)
      (mkLoader L_done li ns) (mkShared m sl fl cat path).

(** A step of either thread.  The read of [m_available_methods] at lines
    396-397 and its write at line 98 are outside the mutex: when the two
    meet, the read may give either answer. *)
Inductive step (guarded : bool) (new : ScriptModule) (method : string)
          (inputs : list IValue) (path : string) : config -> config -> Prop :=
| step_perform p l s p' s' :
    perform_step guarded method inputs p s p' s' ->
    step guarded new method inputs path (mkConfig p l s) (mkConfig p' l s')
| step_load p l s l' s' :
    load_step guarded new path l s l' s' ->
    step guarded new method inputs path (mkConfig p l s) (mkConfig p l' s')
| step_race t g sm sa li ns s answer :
    step guarded new method inputs path
      (mkConfig (mkPerformer P_catalog_read t g sm sa)
                (mkLoader L_write_catalog li ns) s)
      (mkConfig (mkPerformer (if answer : bool then P_params_lock else P_done)
                             t g sm sa)
                (mkLoader L_write_catalog li ns) s).

(** The configurations some interleaving of the two threads reaches. *)
Inductive reaches (guarded : bool) (new : ScriptModule) (method : string)
          (inputs : list IValue) (path : string) (c0 : config)
  : config -> Prop :=
| reaches_start : reaches guarded new method inputs path c0 c0
| reaches_step c c' :
    reaches guarded new method inputs path c0 c ->
    step guarded new method inputs path c c' ->
    reaches guarded new method inputs path c0 c'.

(** The attribute slots that the module [m] can hold: those it is loaded
    with, and those one of its own methods leaves. *)
Inductive state_of (m : ScriptModule) : Store -> Prop :=
| state_initial : state_of m (attributes m)
| state_call st name f args :
    state_of m st -> lookup name (methods m) = Some f ->
    state_of m (fst (f st args)).

(** The slot holds the module [m] in full: its code, on attribute slots
    of its own. *)
Definition whole (m : ScriptModule) (s : shared) : Prop :=
  methods (slot s) = methods m /\ state_of m (attributes (slot s)).

(** What the invocation of [perform] has read of the module, once it has
    run: the code of [m] and attribute slots of [m]. *)
Definition saw (p : performer) (m : ScriptModule) : Prop :=
  seen_methods p = Some (methods m)
  /\ exists st, seen_attributes p = Some st /\ state_of m st.





End Threads.

(** ** Concrete models and objects, for the examples *)

Module Examples.
Import Cxx Float32 Torch.

(** A signal object as the constructor's initializers leave it, with a
    requested buffer size and a higher ratio. *)
Definition object_with (buffer_size higher_ratio : Z)
  : Frontend.nn_msg_tilde SpecRing.rate_buffer :=
  Frontend.mkObject SpecRing.rate_buffer Backend.new_backend "forward" []
                    1 1 1 1 higher_ratio [] [] buffer_size [] true false [].

(** A script method that returns its first argument. *)
Definition echo : ScriptMethod :=
  fun st args => (st, Returns (hd IVNone args)).

Definition params_table (a b c d : Z) : IValue :=
  IVTensor (LongTensor [4%nat] [a; b; c; d]).

(** A model with two methods, [A] with parameters [(1, 4, 1, 2)] and [B]
    with parameters [(1, 1, 1, 1)], and no [get_methods]. *)
Definition two_methods : ScriptModule :=
  {| methods := [("A", echo); ("B", echo)];
     attributes := [("A_params", params_table 1 4 1 2);
                    ("B_params", params_table 1 1 1 1)];
     training := true; device := CPU |}.

(** A model whose only method declares ratios of zero. *)
Definition zero_ratio : ScriptModule :=
  {| methods := [("A", echo)];
     attributes := [("A_params", params_table 1 0 1 0)];
     training := true; device := CPU |}.

(** A model whose [forward] method raises an error. *)
Definition faulty : ScriptModule :=
  {| methods := [("forward", fun st _ => (st, Raises "shape mismatch"))];
     attributes := [("forward_params", params_table 1 1 1 1)];
     training := true; device := CPU |}.

(** A model whose [forward] method returns a tensor of two samples. *)
Definition two_samples : ScriptModule :=
  {| methods :=
       [("forward",
         fun st _ =>
           (st, Returns (IVTensor (FloatTensor [1%nat; 2%nat; 1%nat]
                                   [S754_finite false 3 (-1);
                                    S754_finite true 1 0]))))];
     attributes := [("forward_params", params_table 1 1 2 1)];
     training := true; device := CPU |}.

(** A model with one attribute, no schema and no introspection method. *)
Definition bare : ScriptModule :=
  {| methods := [("forward", echo)];
     attributes := [("gain", IVDouble (S754_finite false 1 0))];
     training := true; device := CPU |}.


(** A model with an attribute [gain] of schema [bool, int, float, string]:
    the setter stores its arguments, the getter returns them. *)
Definition gain_model : ScriptModule :=
  {| methods :=
       [("get_gain",
         fun st _ => (st, match lookup "gain" st with
                          | Some v => Returns v
                          | None => Raises "no attribute gain"
                          end));
        ("set_gain",
         fun st args => (update "gain" (IVTuple args) st, Returns (IVInt 0)))];
     attributes :=
       [("gain", IVTuple [IVBool false; IVInt 0; IVDouble (S754_zero false);
                          IVString EmptyString]);
        ("gain_params", IVTensor (LongTensor [4%nat] [0; 1; 2; 3]))];
     training := true; device := CPU |}.

(** A model whose setter stores its argument and returns nothing. *)
Definition silent_setter : ScriptModule :=
  {| methods :=
       [("set_name",
         fun st args => (update "name" (hd IVNone args) st, Returns IVNone))];
     attributes :=
       [("name", IVString EmptyString); ("name_params", IVTensor (LongTensor [1%nat] [3]))];
     training := true; device := CPU |}.

(** A model whose schema for [name] is a table of one row and two columns,
    every entry of which is the tag 3; its setter returns the code zero. *)
Definition matrix_schema : ScriptModule :=
  {| methods :=
       [("set_name",
         fun st args => (update "name" (hd IVNone args) st, Returns (IVInt 0)))];
     attributes :=
       [("name", IVString EmptyString);
        ("name_params", IVTensor (LongTensor [1%nat; 2%nat] [3; 3]))];
     training := true; device := CPU |}.

(** A machine without accelerator, on which one file can be loaded. *)
Definition host_with (file : string) (m : ScriptModule) : Host :=
  {| jit_load := fun path => if String.eqb path file then Some m else None;
     hasCUDA := false; hasMPS := false; can_move := fun _ _ => true |}.

Definition loaded (m : ScriptModule) : Backend.Backend_MSG :=
  snd (Backend.load (host_with "model.ts" m) "model.ts" Backend.new_backend).

(** A signal object that has loaded [two_samples], with a buffer of
    [buffer_size] frames. *)
Definition object_loaded (buffer_size : Z)
  : Frontend.nn_msg_tilde SpecRing.rate_buffer :=
  Frontend.mkObject SpecRing.rate_buffer (loaded two_samples) "forward" []
                    1 1 2 1 1 [S754_zero false] [] buffer_size
                    [SpecRing.initialize buffer_size SpecRing.empty;
                     SpecRing.initialize buffer_size SpecRing.empty]
                    true false [].

(** Two channels of two frames, none of them zero. *)
Definition stereo_block : Frontend.audio_bundle :=
  Frontend.mkBundle [[S754_finite false 1 0; S754_finite false 3 0];
                     [S754_finite true 1 0; S754_finite false 5 (-1)]] 2.


(** A model whose parameter table stops after two entries. *)
Definition short_table : ScriptModule :=
  {| methods := [("forward", echo)];
     attributes := [("forward_params", IVTensor (LongTensor [2%nat] [1; 1]))];
     training := true; device := CPU |}.

(** A model whose [forward] method raises an error and whose parameter
    table stops after two entries. *)
Definition short_faulty : ScriptModule :=
  {| methods := [("forward", fun st _ => (st, Raises "shape mismatch"))];
     attributes := [("forward_params", IVTensor (LongTensor [2%nat] [1; 1]))];
     training := true; device := CPU |}.

(** A model whose getter [get_gain] returns no value, for a schema of two
    tags, the second of which is not a type tag. *)
Definition missing_value : ScriptModule :=
  {| methods := [("get_gain", fun st _ => (st, Returns (IVList [])))];
     attributes := [("gain_params", IVTensor (LongTensor [2%nat] [0; 7]))];
     training := true; device := CPU |}.

(** A model whose [forward] returns a tensor of integers. *)
Definition integer_output : ScriptModule :=
  {| methods :=
       [("forward",
         fun st _ => (st, Returns (IVTensor (LongTensor [3%nat] [1; 2; 3]))))];
     attributes := [("forward_params", params_table 1 1 3 1)];
     training := true; device := CPU |}.

(** A model whose [get_methods] lists a method and then a number. *)
Definition mixed_listing : ScriptModule :=
  {| methods :=
       [("forward", echo);
        ("get_methods",
         fun st _ => (st, Returns (IVList [IVString "forward"; IVInt 3])))];
     attributes := [("forward_params", params_table 1 1 1 1)];
     training := true; device := CPU |}.

End Examples.

(** ** More vocabulary for the backend *)

Module BackendMore.
Import Cxx Float32 Torch Backend BackendSpec.

(** Everything a backend holds except the attribute slots of its module
    and the record of the calls: the members of [Backend_MSG], and the
    code, the mode and the device of the module. *)
Definition configuration (b : Backend_MSG)
  : Z * Device * bool * list string * string
    * list (string * ScriptMethod) * bool * Device :=
  (m_loaded b, m_device b, m_use_gpu b, m_available_methods b, m_path b,
   methods (m_model b), training (m_model b), device (m_model b)).

(** A parameter table that resolves to one, two or three entries. *)
Definition partial_table (b : Backend_MSG) (method : string) : Prop :=
  (1 <= List.length (params_of b method) <= 3)%nat.

(** The longest prefix of [l] whose elements pass [ok]. *)
Fixpoint take_while {A} (ok : A -> bool) (l : list A) : list A :=
  match l with
  | [] => []
  | x :: rest => if ok x then x :: take_while ok rest else []
  end.

(** The value of a getter that is neither a list nor a tuple. *)
Definition single (r : call_result) : result (list IValue) :=
  match r with
  | Returns v => Val [v]
  | Raises what => Exc (std_exception what)
  end.

(** What a script method answers when called without argument on the
    attribute slots of [b]. *)
Definition answer (f : ScriptMethod) (b : Backend_MSG) : call_result :=
  snd (f (attributes (m_model b)) []).

(** The input of the model invocation of [perform]. *)
Definition inputs_of (in_msg : list float) : list IValue :=
  [IVTensor (FloatTensor [1%nat; List.length in_msg; 1%nat] in_msg)].

(** What holds of a backend at every moment of its life. *)
Definition sound (b : Backend_MSG) : Prop :=
  (m_loaded b = 0 \/ m_loaded b = 1)
  /\ m_use_gpu b = false
  /\ (m_loaded b = 1 -> training (m_model b) = false)
  /\ (m_loaded b = 0 ->
      methods (m_model b) = [] /\ m_available_methods b = []
      /\ m_path b = EmptyString).

(** The operations that may replace the model or move it. *)
Definition reconfigures (op : operation) : bool :=
  match op with
  | Load _ | Reload | UseGpu _ => true
  | _ => false
  end.

End BackendMore.

(** ** Messages from the host (c74_min) *)

Module Max.
Import Cxx Float32.

(** [c74::min::atom]: a number or a symbol, with its type tag. *)
Inductive atom : Type :=
| A_FLOAT (w_float : double)
| A_LONG (w_long : Z)
| A_SYM (w_sym : string)
| A_OBJ.

Definition atoms : Type := list atom.

(** The conversions of an atom to text, which [c74_min.h] defines and the
    sources do not contain: [operator<<], the conversion to [symbol] and the
    conversion to [std::string]. *)
Record AtomText : Type := mkAtomText {
  atom_print : atom -> string;
  atom_symbol : atom -> string;
  atom_string : atom -> string
}.

(** [(float) w_long] *)
Definition long_to_float (z : Z) : float := binary_normalize 24 128 z 0 false.

(** The loop of [nn_msg_in] over the atoms: the values pushed on
    [input_msg], and the atom on which the loop returned, if any. *)
Fixpoint push_values (args : atoms) (input_msg : list float)
  : list float * option atom :=
  match args with
  | [] => (input_msg, None)
  | a :: rest =>
      match a with
      | A_FLOAT w_float =>
          push_values rest (input_msg ++ [double_to_float w_float])
      | A_LONG w_long => push_values rest (input_msg ++ [long_to_float w_long])
      | _ => (input_msg, Some a)
      end
  end.

(** What the loop pushes for one atom: the value of a number, nothing for
    an atom of another type. *)
Definition number_of (a : atom) : option float :=
  match a with
  | A_FLOAT w_float => Some (double_to_float w_float)
  | A_LONG w_long => Some (long_to_float w_long)
  | _ => None
  end.

(** [args.size() != m_in_dim]: the [int] is converted to [size_t]. *)
Definition size_differs (args : atoms) (m_in_dim : Z) : bool :=
  negb (Z.of_nat (List.length args) =? m_in_dim mod 2 ^ 64).

Definition dims_line (args : atoms) (m_in_dim : Z) : string :=
  "Input message dims doesn't match model input dims ("
    ++ to_string (Z.of_nat (List.length args)) ++ " != "
    ++ to_string m_in_dim ++ ")".

Definition values_line (T : AtomText) (a : atom) : string :=
  "All values must be floats or ints (" ++ atom_print T a ++ ")".

(** The console streams [cout] and [cerr]: text is gathered until [endl]
    posts it as one line. *)
Record logger : Type := mkLogger {
  posted : list string;
  pending : string
}.

Definition empty_logger : logger := mkLogger [] EmptyString.

Definition put (text : string) (l : logger) : logger :=
  mkLogger (posted l) (pending l ++ text).

Definition endl (l : logger) : logger :=
  mkLogger (posted l ++ [pending l]) EmptyString.

(** The logger once every line of [lines] has been put and ended. *)
Definition print_all (lines : list string) (l : logger) : logger :=
  fold_left (fun l line => endl (put line l)) lines l.

End Max.

(** ** The message [nn_msg_in] of [nn_msg_tilde] *)

Module Messages.
Import Cxx Float32 Torch Max Frontend.

Section Object.

Context {R : RateBuffer}.

Definition set_input_msg (v : list float) (o : nn_msg_tilde R)
  : nn_msg_tilde R :=
  mkObject R (m_model o) (m_method o) (settable_attributes o) (m_in_dim o)
           (m_in_ratio o) (m_out_dim o) (m_out_ratio o) (m_higher_ratio o)
           v (output_msg o) (m_buffer_size o) (m_out_buffer o) (enable o)
           (gpu o) (cerr o).

(** The handler of [nn_msg_in] (lines 89-116). *)
Definition nn_msg_in (T : AtomText) (args : atoms) : M (nn_msg_tilde R) unit :=
  fun o =>
    let o := set_input_msg [] o in
    if size_differs args (m_in_dim o) then
      (Val tt, print_cerr (dims_line args (m_in_dim o)) o)
    else
      match push_values args (input_msg o) with
      | (values, Some a) =>
          (Val tt, print_cerr (values_line T a) (set_input_msg values o))
      | (values, None) => (Val tt, set_input_msg values o)
      end.

End Object.

End Messages.

(** ** [nn_msg] (src/unnamed/part_000) *)

Module NnMsg.
Import Cxx Float32 Torch Max.
Local Open Scope cxx_scope.

(** The members of [nn_msg] that its message handlers read or write.  An
    outlet is the list of the messages it has sent. *)
Record nn_msg : Type := mkNnMsg {
  m_model : Backend.Backend_MSG;
  m_method : string;
  settable_attributes : list string;
  m_in_dim : Z;
  m_out_dim : Z;
  input_msg : list float;
  output_msg : list float;
  m_outlets : list (list atoms);
  cout : logger;
  cerr : logger
}.

Definition set_model (b : Backend.Backend_MSG) (o : nn_msg) : nn_msg :=
  mkNnMsg b (m_method o) (settable_attributes o) (m_in_dim o) (m_out_dim o)
          (input_msg o) (output_msg o) (m_outlets o) (cout o) (cerr o).
Definition set_input_msg (v : list float) (o : nn_msg) : nn_msg :=
  mkNnMsg (m_model o) (m_method o) (settable_attributes o) (m_in_dim o)
          (m_out_dim o) v (output_msg o) (m_outlets o) (cout o) (cerr o).
Definition set_output_msg (v : list float) (o : nn_msg) : nn_msg :=
  mkNnMsg (m_model o) (m_method o) (settable_attributes o) (m_in_dim o)
          (m_out_dim o) (input_msg o) v (m_outlets o) (cout o) (cerr o).
Definition set_outlets (outs : list (list atoms)) (o : nn_msg) : nn_msg :=
  mkNnMsg (m_model o) (m_method o) (settable_attributes o) (m_in_dim o)
          (m_out_dim o) (input_msg o) (output_msg o) outs (cout o) (cerr o).
Definition on_cout (f : logger -> logger) (o : nn_msg) : nn_msg :=
  mkNnMsg (m_model o) (m_method o) (settable_attributes o) (m_in_dim o)
          (m_out_dim o) (input_msg o) (output_msg o) (m_outlets o)
          (f (cout o)) (cerr o).
Definition on_cerr (f : logger -> logger) (o : nn_msg) : nn_msg :=
  mkNnMsg (m_model o) (m_method o) (settable_attributes o) (m_in_dim o)
          (m_out_dim o) (input_msg o) (output_msg o) (m_outlets o)
          (cout o) (f (cerr o)).

(** [cerr << line << endl;] and [cout << line << endl;] *)
Definition cerr_line (line : string) : M nn_msg unit :=
  modify (on_cerr (fun l => endl (put line l))).
Definition cout_line (line : string) : M nn_msg unit :=
  modify (on_cout (fun l => endl (put line l))).

(** A member function of the backend, called through [m_model->]. *)
Definition on_model {A} (m : M Backend.Backend_MSG A) : M nn_msg A :=
  fun o => let '(r, b) := m (m_model o) in (r, set_model b o).

(** [nn_msg::has_settable_attribute] *)
Definition has_settable_attribute (attribute : string) (o : nn_msg) : bool :=
  existsb (fun candidate => String.eqb candidate attribute)
          (settable_attributes o).

(** The atoms sent through the outlet: the selector and the values. *)
Definition out_atoms_of (output_msg : list float) : atoms :=
  (A_SYM "nn_msg_out" :: map (fun o => A_FLOAT (float_to_double o)) output_msg)%list.

(** [m_outlets[0]->send(out_atoms)] *)
Definition send_first (out_atoms : atoms) : M nn_msg unit :=
  fun o =>
    match m_outlets o with
    | [] => (UB, o)
    | outlet0 :: others =>
        (Val tt, set_outlets ((outlet0 ++ [out_atoms])%list :: others) o)
    end.

(** The handler of [nn_msg_in]: the values are stored, the model is called
    and its output is sent. *)
Definition nn_msg_in (T : AtomText) (args : atoms) : M nn_msg unit :=
  fun o =>
    let o := set_input_msg [] o in
    if size_differs args (m_in_dim o) then
      cerr_line (dims_line args (m_in_dim o)) o
    else
      match push_values args (input_msg o) with
      | (values, Some a) =>
          cerr_line (values_line T a) (set_input_msg values o)
      | (values, None) =>
          let o := set_input_msg values o in
          ((fun o =>
              let '(r, (b, out)) :=
                Backend.perform (input_msg o) (m_method o)
                                (m_model o, output_msg o) in
              (r, set_output_msg out (set_model b o))) ;;;
           (fun o => send_first (out_atoms_of (output_msg o)) o)) o
      end.

(** [for (std::string line : lines) cout << line << endl;] *)
Fixpoint cout_lines (lines : list string) : M nn_msg unit :=
  match lines with
  | [] => ret tt
  | line :: rest => cout_line line ;;; cout_lines rest
  end.

(** The handler of [anything], the console protocol of the object (lines
    156-235).  The handler of the same name of [nn_msg_tilde]
    (nn.msg_tilde.cpp, lines 128-182) has the same text, and so has
    [has_settable_attribute]. *)
Definition anything (h : Host) (P : Backend.Parsers) (T : AtomText)
           (args : atoms) : M nn_msg unit :=
  a0 <- lift (vec_at args 0) ;;
  let attribute_name := atom_symbol T a0 in
  if String.eqb attribute_name "reload" then
    on_model (Backend.reload h) ;;; ret tt
  else if String.eqb attribute_name "get_attributes" then
    attrs <- gets settable_attributes ;;
    cout_lines attrs
  else if String.eqb attribute_name "get_methods" then
    ms <- on_model Backend.get_available_methods ;;
    cout_lines ms
  else if String.eqb attribute_name "get" then
    if (List.length args <? 2)%nat then
      cerr_line "get must be given an attribute name"
    else
      a1 <- lift (vec_at args 1) ;;
      let attribute_name := atom_symbol T a1 in
      found <- on_model (Backend.has_settable_attribute attribute_name) ;;
      if found then
        modify (on_cout (put attribute_name)) ;;;
        modify (on_cout (put ": ")) ;;;
        text <- on_model (Backend.get_attribute_as_string attribute_name) ;;
        modify (on_cout (put text)) ;;;
        modify (on_cout endl)
      else
        cerr_line ("no attribute " ++ attribute_name ++ " found in model")
  else if String.eqb attribute_name "set" then
    if (List.length args <? 3)%nat then
      cerr_line ("set must be given an attribute name and corresponding "
                   ++ "arguments")
    else
      a1 <- lift (vec_at args 1) ;;
      let attribute_name := atom_symbol T a1 in
      cached <- gets (has_settable_attribute attribute_name) ;;
      if cached then
        let attribute_args := map (atom_string T) (skipn 2 args) in
        try_catch_string
          (on_model (Backend.set_attribute P attribute_name attribute_args))
          (fun message => cerr_line message)
      else
        cerr_line ("model does not have attribute " ++ attribute_name)
  else
    cerr_line ("no corresponding method for " ++ attribute_name).

(** The members that the constructor sets up and [nn_msg_in] uses. *)
Definition wiring (o : nn_msg) :=
  (m_method o, settable_attributes o, m_in_dim o, m_out_dim o,
   input_msg o, output_msg o, m_outlets o).

End NnMsg.

(** ** Objects and atoms for the examples about messages *)

Module MessageExamples.
Import Cxx Float32 Torch Max.

(** Atoms printed the plain way. *)
Definition plain_text : AtomText :=
  let text a := match a with
                | A_FLOAT _ => "float"
                | A_LONG w_long => to_string w_long
                | A_SYM w_sym => w_sym
                | A_OBJ => "object"
                end in
  mkAtomText text text text.

(** A message object on [model], with its method, the attributes it has
    cached, its input dimension and one outlet. *)
Definition message_object (model : ScriptModule) (cached : list string)
           (m_in_dim : Z) : NnMsg.nn_msg :=
  NnMsg.mkNnMsg (Examples.loaded model) "forward" cached m_in_dim 1 [] []
                [[]] empty_logger empty_logger.

End MessageExamples.

(* ================================================================== *)
(** * Part II: theorems *)
(* ================================================================== *)

Module SizingFacts.
Import Cxx Sizing.

Lemma wrap_int_small z : in_int z -> wrap_int z = z.
Proof.
  unfold in_int, INT_MIN, INT_MAX, wrap_int. intros H.
  rewrite Z.mod_small; lia.
Qed.

Lemma wrap_unsigned_small z : in_unsigned z -> wrap_unsigned z = z.
Proof.
  unfold in_unsigned, UINT_MAX, wrap_unsigned. intros H.
  apply Z.mod_small. lia.
Qed.

Lemma wrap_int_mod z : wrap_int z mod 2 ^ 32 = z mod 2 ^ 32.
Proof.
  unfold wrap_int.
  rewrite Zminus_mod, Zmod_mod, <- Zminus_mod.
  f_equal. lia.
Qed.

Lemma wrap_int_congr a b : a mod 2 ^ 32 = b mod 2 ^ 32 -> wrap_int a = wrap_int b.
Proof.
  intros H. unfold wrap_int.
  rewrite (Zplus_mod a), (Zplus_mod b), H. reflexivity.
Qed.

Lemma wrap_int_double z k :
  wrap_int (wrap_int (z * 2) * k) = wrap_int (z * (2 * k)).
Proof.
  apply wrap_int_congr.
  rewrite Zmult_mod, wrap_int_mod, <- Zmult_mod.
  f_equal. lia.
Qed.

Lemma wrap_unsigned_int z : wrap_unsigned (wrap_int z) = wrap_unsigned z.
Proof. apply wrap_int_mod. Qed.

Lemma power_ceil_loop_step fuel x power :
  power_ceil_loop (S fuel) x power
  = if Z.shiftr x 1 =? 0 then Some power
    else power_ceil_loop fuel (Z.shiftr x 1) (wrap_int (Z.shiftl power 1)).
Proof. reflexivity. Qed.

(** The loop leaves [power * 2 ^ log2 x], reduced to [int], provided it has
    more turns available than [x] has bits. *)
Lemma power_ceil_loop_spec fuel :
  forall x power,
    0 < x -> Z.log2 x < Z.of_nat fuel ->
    power_ceil_loop fuel x power
    = Some (if Z.log2 x =? 0 then power else wrap_int (power * 2 ^ Z.log2 x)).
Proof.
  induction fuel as [|fuel IH]; intros x power Hx Hfuel.
  - pose proof (Z.log2_nonneg x). lia.
  - rewrite power_ceil_loop_step.
    rewrite Z.shiftr_div_pow2 by lia. change (2 ^ 1) with 2.
    destruct (Z.eqb_spec (x / 2) 0) as [E|E].
    + assert (x = 1) by (pose proof (Z.div_mod x 2); pose proof (Z.mod_pos_bound x 2); lia).
      subst x. reflexivity.
    + assert (Hhalf : 0 < x / 2).
      { pose proof (Z.div_pos x 2). lia. }
      assert (Hlog : Z.log2 x = Z.log2 (x / 2) + 1).
      { replace (x / 2) with (Z.shiftr x 1)
          by (rewrite Z.shiftr_div_pow2 by lia; reflexivity).
        rewrite Z.log2_shiftr by lia.
        assert (2 <= x) by (pose proof (Z.div_mod x 2); pose proof (Z.mod_pos_bound x 2); lia).
        pose proof (Z.log2_le_mono 2 x). change (Z.log2 2) with 1 in *. lia. }
      rewrite IH by lia.
      rewrite Z.shiftl_mul_pow2 by lia. change (2 ^ 1) with 2.
      pose proof (Z.log2_nonneg (x / 2)).
      destruct (Z.eqb_spec (Z.log2 x) 0) as [E0|E0]; [lia|].
      f_equal.
      destruct (Z.eqb_spec (Z.log2 (x / 2)) 0) as [E1|E1].
      * rewrite Hlog, E1. reflexivity.
      * rewrite wrap_int_double. f_equal.
        rewrite Hlog, Z.pow_add_r by lia. lia.
Qed.

(** Thirty-two turns are enough on every [unsigned] value. *)
Lemma power_ceil_loop_fuel x power :
  0 < x <= UINT_MAX -> exists r, power_ceil_loop 32 x power = Some r.
Proof.
  intros Hx. eexists. apply power_ceil_loop_spec; [lia|].
  assert (Z.log2 x < 32); [|lia].
  apply Z.log2_lt_pow2; unfold UINT_MAX in *; lia.
Qed.

(** What [power_ceil] computes on every [unsigned] value above one. *)
Lemma power_ceil_value x :
  2 <= x <= UINT_MAX ->
  power_ceil x = Some (2 ^ Z.log2_up x mod 2 ^ 32).
Proof.
  intros Hx. unfold power_ceil, UINT_MAX in *.
  destruct (Z.leb_spec x 1); [lia|].
  rewrite wrap_unsigned_small by (unfold in_unsigned, UINT_MAX; lia).
  rewrite power_ceil_loop_spec.
  2: lia.
  2:{ assert (Z.log2 (x - 1) < 32); [|lia]. apply Z.log2_lt_pow2; lia. }
  assert (Hup : Z.log2_up x = Z.log2 (x - 1) + 1).
  { rewrite Z.log2_up_eqn by lia. rewrite <- Z.sub_1_r. lia. }
  pose proof (Z.log2_nonneg (x - 1)).
  cbn [option_map]. f_equal.
  destruct (Z.eqb_spec (Z.log2 (x - 1)) 0) as [E|E].
  - rewrite Hup, E. reflexivity.
  - rewrite wrap_unsigned_int. unfold wrap_unsigned.
    rewrite Hup, Z.pow_add_r by lia. f_equal. lia.
Qed.

(** [power_ceil] returns on every [unsigned] argument. *)
Lemma power_ceil_returns x :
  in_unsigned x -> exists r, power_ceil x = Some r.
Proof.
  unfold in_unsigned. intros Hx. unfold power_ceil.
  destruct (Z.leb_spec x 1); [eexists; reflexivity|].
  rewrite wrap_unsigned_small by (unfold in_unsigned; lia).
  destruct (power_ceil_loop_fuel (x - 1) 2) as (r & ->); [lia|].
  eexists; reflexivity.
Qed.

Lemma log2_up_least x :
  2 <= x -> least_power_of_two_geq x (2 ^ Z.log2_up x).
Proof.
  intros Hx. pose proof (Z.log2_up_nonneg x) as Hk.
  destruct (Z.log2_up_spec x) as [Hlo Hhi]; [lia|].
  repeat split.
  - exists (Z.log2_up x). split; [lia | reflexivity].
  - exact Hhi.
  - intros k Hk0 Hxk.
    apply Z.pow_le_mono_r; [lia|].
    destruct (Z.le_gt_cases (Z.log2_up x) k) as [|Hlt]; [assumption|].
    assert (2 ^ k <= 2 ^ Z.pred (Z.log2_up x)) by (apply Z.pow_le_mono_r; lia).
    lia.
Qed.

Lemma log2_up_bound x : 2 <= x <= 2 ^ 31 -> 1 <= Z.log2_up x <= 31.
Proof.
  intros Hx. split.
  - pose proof (Z.log2_up_pos x). lia.
  - change 31 with (Z.log2_up (2 ^ 31)). apply Z.log2_up_le_mono. lia.
Qed.

Lemma log2_up_top x : 2 ^ 31 < x <= UINT_MAX -> Z.log2_up x = 32.
Proof.
  unfold UINT_MAX. intros Hx. apply Z.log2_up_unique; [lia|].
  change (Z.pred 32) with 31. lia.
Qed.

(** C3, the claim as written fails: [2^31 + 1] is an [unsigned] value at
    least one, the loop shifts [power] thirty-one times and the 32-bit
    result is zero, which is no power of two and is below the argument. *)
Lemma power_ceil_wraps_to_zero :
  in_unsigned (2 ^ 31 + 1) /\ 1 <= 2 ^ 31 + 1
  /\ power_ceil (2 ^ 31 + 1) = Some 0
  /\ ~ (exists r, power_ceil (2 ^ 31 + 1) = Some r
                  /\ least_power_of_two_geq (2 ^ 31 + 1) r).
Proof.
  assert (E : power_ceil (2 ^ 31 + 1) = Some 0) by (vm_compute; reflexivity).
  repeat split; try (unfold UINT_MAX; lia); try exact E.
  intros (r & Hr & _ & Hle & _).
  rewrite E in Hr. injection Hr as <-. lia.
Qed.

(** C3 (amended): on every [unsigned] argument [power_ceil] returns; it
    returns 1 on 0 and on 1; for [1 <= x <= 2^31] it returns the least power
    of two that is at least [x], and so [x] itself when [x] is a power of
    two; for [x] above [2^31] the result wraps around to zero. *)
Theorem power_ceil_least_power_of_two (x : Z) :
  in_unsigned x ->
  (exists r, power_ceil x = Some r)
  /\ (x <= 1 -> power_ceil x = Some 1)
  /\ (1 <= x <= 2 ^ 31 ->
      exists r, power_ceil x = Some r
                /\ least_power_of_two_geq x r
                /\ (forall k, 0 <= k -> x = 2 ^ k -> r = x))
  /\ (2 ^ 31 < x -> power_ceil x = Some 0).
Proof.
  unfold in_unsigned. intros Hx.
  assert (Hsmall : x <= 1 -> power_ceil x = Some 1).
  { intros H. unfold power_ceil. destruct (Z.leb_spec x 1); [reflexivity | lia]. }
  assert (Hmid : 1 <= x <= 2 ^ 31 ->
                 exists r, power_ceil x = Some r
                           /\ least_power_of_two_geq x r
                           /\ (forall k, 0 <= k -> x = 2 ^ k -> r = x)).
  { intros H. destruct (Z.eq_dec x 1) as [->|Hne].
    - exists 1. split; [reflexivity|]. split; [|reflexivity].
      repeat split; [exists 0; split; [lia | reflexivity] | lia |].
      intros k Hk _. change 1 with (2 ^ 0). apply Z.pow_le_mono_r; lia.
    - assert (H2 : 2 <= x <= 2 ^ 31) by lia.
      pose proof (log2_up_bound x H2) as Hb.
      pose proof (log2_up_least x (proj1 H2)) as Hleast.
      assert (Hfit : 2 ^ Z.log2_up x mod 2 ^ 32 = 2 ^ Z.log2_up x).
      { apply Z.mod_small. split; [apply Z.pow_nonneg; lia|].
        apply Z.pow_lt_mono_r; lia. }
      exists (2 ^ Z.log2_up x). split.
      + rewrite power_ceil_value by (unfold UINT_MAX; lia). now rewrite Hfit.
      + split; [exact Hleast|].
        intros k Hk ->. destruct Hleast as (_ & Hge & Hmin).
        specialize (Hmin k Hk (Z.le_refl _)). lia. }
  assert (Htop : 2 ^ 31 < x -> power_ceil x = Some 0).
  { intros H. rewrite power_ceil_value by lia.
    rewrite log2_up_top by lia. reflexivity. }
  repeat split; try assumption.
  apply power_ceil_returns. exact Hx.
Qed.

Lemma power_ceil_least_power_of_two_witness :
  in_unsigned 10
  /\ exists r, power_ceil 10 = Some r /\ least_power_of_two_geq 10 r
               /\ (forall k, 0 <= k -> 10 = 2 ^ k -> r = 10).
Proof.
  assert (H : in_unsigned 10) by (unfold in_unsigned, UINT_MAX; lia).
  split; [exact H|].
  refine (proj1 (proj2 (proj2 (power_ceil_least_power_of_two 10 H))) _).
  lia.
Defined.

Example power_ceil_10 : power_ceil 10 = Some 16.
Proof. reflexivity. Qed.

Section Resolve.

Context {R : RateBuffer}.
Implicit Types o : Frontend.nn_msg_tilde R.

Import Frontend.

Lemma power_ceil_in_int r :
  in_int r -> 1 <= r -> wrap_unsigned r = r.
Proof.
  unfold in_int, INT_MIN, INT_MAX. intros. apply wrap_unsigned_small.
  unfold in_unsigned, UINT_MAX. lia.
Qed.

(** Up to [2^30] the conversions between [int] and [unsigned] change
    nothing and the size is the least power of two at least the request;
    above, [power_ceil] returns [2^31], which the [int] member holds as
    [INT_MIN]. *)
Lemma resolve_buffer_size_range o :
  1 <= m_higher_ratio o <= m_buffer_size o ->
  in_int (m_buffer_size o) ->
  (m_buffer_size o <= 2 ^ 30 ->
   least_power_of_two_geq (m_buffer_size o)
                          (m_buffer_size (snd (resolve_buffer_size o))))
  /\ (2 ^ 30 < m_buffer_size o ->
      m_buffer_size (snd (resolve_buffer_size o)) = INT_MIN).
Proof.
  intros Hge Hint.
  assert (Hin : in_unsigned (m_buffer_size o)).
  { unfold in_int, INT_MIN, INT_MAX, in_unsigned, UINT_MAX in *. lia. }
  unfold resolve_buffer_size.
  destruct (Z.eqb_spec (m_buffer_size o) 0); [lia|].
  destruct (Z.ltb_spec (m_buffer_size o) (m_higher_ratio o)); [lia|].
  rewrite power_ceil_in_int by (assumption || lia).
  unfold in_int, INT_MIN, INT_MAX in Hint.
  destruct (Z.eq_dec (m_buffer_size o) 1) as [E1|N1].
  { rewrite E1. cbn. split; [intros _ | lia].
    repeat split; [exists 0; split; [lia|reflexivity] | lia |].
    intros k Hk _. change 1 with (2 ^ 0). apply Z.pow_le_mono_r; lia. }
  rewrite power_ceil_value by (unfold UINT_MAX; lia).
  cbn [option_map snd m_buffer_size set_buffer_size].
  pose proof (log2_up_bound (m_buffer_size o)) as Hb.
  pose proof (Z.log2_up_nonneg (m_buffer_size o)) as Hnn.
  split.
  - intros Hle.
    assert (Hk : Z.log2_up (m_buffer_size o) <= 30).
    { change 30 with (Z.log2_up (2 ^ 30)). apply Z.log2_up_le_mono. lia. }
    assert (Hlt : 2 ^ Z.log2_up (m_buffer_size o) <= 2 ^ 30)
      by (apply Z.pow_le_mono_r; lia).
    assert (0 < 2 ^ Z.log2_up (m_buffer_size o)) by (apply Z.pow_pos_nonneg; lia).
    rewrite Z.mod_small by lia.
    rewrite wrap_int_small by (unfold in_int, INT_MIN, INT_MAX; lia).
    apply log2_up_least. lia.
  - intros Hgt.
    assert (Z.log2_up (m_buffer_size o) = 31) as ->; [|reflexivity].
    apply Z.log2_up_unique; [lia|]. change (Z.pred 31) with 30. lia.
Qed.

(** C2 (amended): the resolution of the buffer size, for a higher ratio
    of at least 1 (what [get_higher_ratio] returns) and a requested size
    held in an [int].  It always returns.  A requested size of zero gives
    the higher ratio and prints nothing.  A nonzero size below the higher
    ratio gives the higher ratio and prints one line on the error console,
    the warning.  A size that is at least the higher ratio and at most
    [2^30] is replaced by the value of [power_ceil] on it, the least power
    of two that is at least the size, and nothing is printed; above [2^30]
    the value of [power_ceil] is [2^31], which the [int] member holds as
    [-2^31].  No other member changes.  With a higher ratio of 4 a request
    of 3 gives 4, and a request of 10 gives 16. *)
Theorem resolve_buffer_size_branches o :
  1 <= m_higher_ratio o ->
  in_int (m_buffer_size o) ->
  let o' := snd (resolve_buffer_size o) in
  let warning := "buffer size too small, switching to "
                   ++ to_string (m_higher_ratio o) in
  fst (resolve_buffer_size o) = Val tt
  /\ o' = set_buffer_size (m_buffer_size o')
            (if (m_buffer_size o =? 0) || (m_higher_ratio o <=? m_buffer_size o)
             then o else print_cerr warning o)
  /\ (m_buffer_size o = 0 ->
      m_buffer_size o' = m_higher_ratio o /\ cerr o' = cerr o)
  /\ (m_buffer_size o <> 0 -> m_buffer_size o < m_higher_ratio o ->
      m_buffer_size o' = m_higher_ratio o
      /\ cerr o' = (cerr o ++ [warning])%list)
  /\ (m_higher_ratio o <= m_buffer_size o -> m_buffer_size o <= 2 ^ 30 ->
      power_ceil (m_buffer_size o) = Some (m_buffer_size o')
      /\ least_power_of_two_geq (m_buffer_size o) (m_buffer_size o')
      /\ cerr o' = cerr o)
  /\ (m_higher_ratio o <= m_buffer_size o -> 2 ^ 30 < m_buffer_size o ->
      power_ceil (m_buffer_size o) = Some (2 ^ 31)
      /\ m_buffer_size o' = - 2 ^ 31
      /\ cerr o' = cerr o)
  /\ (m_higher_ratio o = 4 -> m_buffer_size o = 3 -> m_buffer_size o' = 4)
  /\ (m_higher_ratio o = 4 -> m_buffer_size o = 10 -> m_buffer_size o' = 16).
Proof.
  intros Hhr Hint o' warning.
  assert (Hthird : m_higher_ratio o <= m_buffer_size o ->
                   exists p, power_ceil (m_buffer_size o) = Some p
                             /\ resolve_buffer_size o
                                = (Val tt, set_buffer_size (wrap_int p) o)).
  { intros Hge. unfold resolve_buffer_size.
    destruct (Z.eqb_spec (m_buffer_size o) 0); [lia|].
    destruct (Z.ltb_spec (m_buffer_size o) (m_higher_ratio o)); [lia|].
    rewrite power_ceil_in_int by (assumption || lia).
    destruct (power_ceil_returns (m_buffer_size o)) as (p & Hp).
    { unfold in_int, INT_MIN, INT_MAX, in_unsigned, UINT_MAX in *. lia. }
    exists p. rewrite Hp. split; reflexivity. }
  assert (Hzero : m_buffer_size o = 0 ->
                  resolve_buffer_size o
                  = (Val tt, set_buffer_size (m_higher_ratio o) o)).
  { intros H0. unfold resolve_buffer_size. rewrite H0. reflexivity. }
  assert (Hsmall : m_buffer_size o <> 0 ->
                   m_buffer_size o < m_higher_ratio o ->
                   resolve_buffer_size o
                   = (Val tt,
                      print_cerr warning
                                 (set_buffer_size (m_higher_ratio o) o))).
  { intros Hne Hlt. unfold resolve_buffer_size.
    destruct (Z.eqb_spec (m_buffer_size o) 0); [contradiction|].
    destruct (Z.ltb_spec (m_buffer_size o) (m_higher_ratio o)); [|lia].
    reflexivity. }
  split; [|split].
  - destruct (Z.eq_dec (m_buffer_size o) 0) as [E0|N0];
      [now rewrite (Hzero E0)|].
    destruct (Z.lt_ge_cases (m_buffer_size o) (m_higher_ratio o)) as [Hlt|Hge];
      [now rewrite (Hsmall N0 Hlt)|].
    destruct (Hthird Hge) as (p & _ & ->). reflexivity.
  - subst o'.
    destruct (Z.eqb_spec (m_buffer_size o) 0) as [E0|N0];
      [rewrite (Hzero E0); reflexivity|].
    destruct (Z.leb_spec (m_higher_ratio o) (m_buffer_size o)) as [Hge|Hlt];
      cbn [orb].
    + destruct (Hthird Hge) as (p & _ & ->). reflexivity.
    + rewrite (Hsmall N0 Hlt). reflexivity.
  - split; [|split; [|split; [|split; [|split]]]].
    + intros E0. subst o'. rewrite (Hzero E0). split; reflexivity.
    + intros N0 Hlt. subst o'. rewrite (Hsmall N0 Hlt). split; reflexivity.
    + intros Hge Hle.
      destruct (resolve_buffer_size_range o (conj Hhr Hge) Hint) as [Hlow _].
      specialize (Hlow Hle). fold o' in Hlow.
      destruct (Hthird Hge) as (p & Hp & Hr).
      assert (Hc : cerr o' = cerr o) by (subst o'; rewrite Hr; reflexivity).
      split; [|split; [exact Hlow | exact Hc]].
      rewrite Hp. f_equal.
      assert (Ho : m_buffer_size o' = wrap_int p)
        by (subst o'; rewrite Hr; reflexivity).
      rewrite Ho.
      destruct (Z.eq_dec (m_buffer_size o) 1) as [E1|N1].
      { rewrite E1 in Hp. injection Hp as <-. reflexivity. }
      rewrite power_ceil_value in Hp
        by (unfold UINT_MAX, in_int, INT_MIN, INT_MAX in *; lia).
      injection Hp as <-.
      pose proof (log2_up_bound (m_buffer_size o)) as Hb.
      assert (Hk : Z.log2_up (m_buffer_size o) <= 30).
      { change 30 with (Z.log2_up (2 ^ 30)). apply Z.log2_up_le_mono. lia. }
      pose proof (Z.log2_up_nonneg (m_buffer_size o)) as Hnn.
      assert (Hlt : 2 ^ Z.log2_up (m_buffer_size o) <= 2 ^ 30)
        by (apply Z.pow_le_mono_r; lia).
      assert (0 < 2 ^ Z.log2_up (m_buffer_size o))
        by (apply Z.pow_pos_nonneg; lia).
      rewrite Z.mod_small by lia.
      symmetry. apply wrap_int_small. unfold in_int, INT_MIN, INT_MAX. lia.
    + intros Hge Hgt.
      destruct (resolve_buffer_size_range o (conj Hhr Hge) Hint) as [_ Hhigh].
      specialize (Hhigh Hgt). fold o' in Hhigh.
      destruct (Hthird Hge) as (p & Hp & Hr).
      split; [|split; [exact Hhigh | subst o'; rewrite Hr; reflexivity]].
      unfold in_int, INT_MIN, INT_MAX in Hint.
      rewrite power_ceil_value by (unfold UINT_MAX; lia).
      assert (Z.log2_up (m_buffer_size o) = 31) as ->; [|reflexivity].
      apply Z.log2_up_unique; [lia|]. change (Z.pred 31) with 30. lia.
    + intros H4 H3. subst o'. unfold resolve_buffer_size. rewrite H4, H3.
      reflexivity.
    + intros H4 H10. subst o'. unfold resolve_buffer_size. rewrite H4, H10.
      reflexivity.
Qed.

End Resolve.

(** C2, the claim as written fails above [2^30]: with a higher ratio of 1,
    the request [2^30 + 1] is at least the higher ratio, [power_ceil] of it
    is [2^31], and the size the object settles on is [-2^31]. *)
Lemma resolve_buffer_size_overflows :
  let o := Examples.object_with (2 ^ 30 + 1) 1 in
  Frontend.m_higher_ratio o <= Frontend.m_buffer_size o
  /\ power_ceil (Frontend.m_buffer_size o) = Some (2 ^ 31)
  /\ Frontend.m_buffer_size (snd (Frontend.resolve_buffer_size o)) = - 2 ^ 31
  /\ ~ (exists p,
           power_ceil (Frontend.m_buffer_size o) = Some p
           /\ Frontend.m_buffer_size (snd (Frontend.resolve_buffer_size o)) = p).
Proof.
  intros o.
  assert (E1 : power_ceil (Frontend.m_buffer_size o) = Some (2 ^ 31))
    by (vm_compute; reflexivity).
  assert (E2 : Frontend.m_buffer_size (snd (Frontend.resolve_buffer_size o))
               = - 2 ^ 31) by (vm_compute; reflexivity).
  split; [vm_compute; discriminate|]. split; [exact E1|]. split; [exact E2|].
  intros (p & Hp & Hs). rewrite E1 in Hp. injection Hp as <-.
  rewrite E2 in Hs. discriminate Hs.
Qed.

Lemma resolve_buffer_size_branches_witness :
  let o := Examples.object_with 10 4 in
  1 <= Frontend.m_higher_ratio o
  /\ in_int (Frontend.m_buffer_size o)
  /\ Frontend.m_higher_ratio o <= Frontend.m_buffer_size o
  /\ Frontend.m_buffer_size o <= 2 ^ 30
  /\ power_ceil (Frontend.m_buffer_size o)
     = Some (Frontend.m_buffer_size (snd (Frontend.resolve_buffer_size o)))
  /\ Frontend.m_buffer_size (snd (Frontend.resolve_buffer_size o)) = 16.
Proof.
  intros o.
  assert (H1 : 1 <= Frontend.m_higher_ratio o) by (simpl; lia).
  assert (H2 : in_int (Frontend.m_buffer_size o))
    by (unfold in_int, INT_MIN, INT_MAX; simpl; lia).
  assert (H3 : Frontend.m_higher_ratio o <= Frontend.m_buffer_size o)
    by (simpl; lia).
  assert (H4 : Frontend.m_buffer_size o <= 2 ^ 30) by (simpl; lia).
  split; [exact H1|]. split; [exact H2|]. split; [exact H3|].
  split; [exact H4|]. split.
  - exact (proj1 (proj1 (proj2 (proj2 (proj2 (proj2
             (resolve_buffer_size_branches o H1 H2))))) H3 H4)).
  - reflexivity.
Defined.

Example parse_one_and_a_half :
  SpecParsing.to_float "1.5" = Some (S754_finite false 12582912 (-23))
  /\ Float32.to_string_float (S754_finite false 12582912 (-23)) = "1.500000"
  /\ SpecParsing.to_float "0.1" = Some (S754_finite false 13421773 (-27))
  /\ Float32.to_string_float (S754_finite false 13421773 (-27)) = "0.100000"
  /\ SpecParsing.to_float "-2.0000005" = Some (S754_finite true 8388610 (-22))
  /\ Float32.to_string_float (S754_finite true 8388610 (-22)) = "-2.000000"
  /\ Float32.to_string_float (S754_finite false 1 (-1)) = "0.500000"
  /\ Float32.to_string_float (S754_finite false 1 (-21)) = "0.000000"
  /\ Float32.to_string_float (S754_finite false 3 (-21)) = "0.000001"
  /\ Float32.to_string_float (S754_finite false 5 3) = "40.000000".
Proof. vm_compute. repeat split. Qed.

End SizingFacts.

Module RatioFacts.
Import Cxx Torch Backend BackendSpec.

Lemma get_method_params_pure method b :
  get_method_params method b = (Val (params_of b method), b).
Proof.
  unfold params_of, get_method_params.
  destruct (existsb _ _); [|reflexivity].
  destruct (rbind _ _); reflexivity.
Qed.

Lemma higher_ratio_loop_spec b ms :
  forall acc,
    Forall (fun m => List.length (params_of b m) = 0%nat
                     \/ List.length (params_of b m) = 4%nat) ms ->
    higher_ratio_loop ms acc b
    = (Val (fold_left Z.max (ratios_among b ms) acc), b).
Proof.
  induction ms as [|m ms IH]; intros acc Hall.
  - reflexivity.
  - inversion Hall as [|? ? Hm Hrest]; subst.
    cbn [higher_ratio_loop]. unfold bind at 1.
    rewrite get_method_params_pure.
    unfold ratios_among. cbn [flat_map]. fold (ratios_among b ms).
    unfold usable_ratio.
    destruct (params_of b m) as [|p0 [|p1 [|p2 [|p3 [|p4 rest]]]]];
      cbn in Hm; try (destruct Hm; discriminate).
    + cbn [List.length Nat.eqb app fold_left]. apply IH, Hrest.
    + cbn [List.length Nat.eqb]. unfold bind, lift.
      change (vec_at [p0; p1; p2; p3] 1) with (Val p1).
      change (vec_at [p0; p1; p2; p3] 3) with (Val p3).
      cbv beta iota. rewrite IH by exact Hrest. reflexivity.
Qed.

Lemma fold_left_max_spec l :
  forall acc,
    acc <= fold_left Z.max l acc
    /\ (forall x, In x l -> x <= fold_left Z.max l acc)
    /\ (fold_left Z.max l acc = acc \/ In (fold_left Z.max l acc) l).
Proof.
  induction l as [|y l IH]; intros acc; cbn [fold_left].
  - repeat split; [lia | intros x [] | now left].
  - destruct (IH (Z.max acc y)) as (Hacc & Hall & Hin).
    repeat split.
    + lia.
    + intros x [<-|Hx]; [lia | now apply Hall].
    + destruct Hin as [E|Hin]; [|right; now right].
      destruct (Z.max_spec acc y) as [[_ Hmax]|[_ Hmax]];
        rewrite Hmax in *; [right; left; now rewrite E | now left].
Qed.

(** Whatever the parameter tables hold, a higher ratio that is returned is
    at least 1: this is the value line 218 of the constructor stores in
    [m_higher_ratio]. *)
Lemma higher_ratio_loop_lower_bound ms :
  forall acc b r b',
    higher_ratio_loop ms acc b = (Val r, b') -> acc <= r.
Proof.
  induction ms as [|m ms IH]; intros acc b r b' H; cbn [higher_ratio_loop] in H.
  - inversion H. lia.
  - unfold bind at 1 in H. rewrite get_method_params_pure in H.
    destruct (_ =? _)%nat; [eapply IH; eassumption|].
    unfold bind, lift in H.
    destruct (vec_at (params_of b m) 1) as [p1| |]; try discriminate H.
    destruct (vec_at (params_of b m) 3) as [p3| |]; try discriminate H.
    apply IH in H. lia.
Qed.

Lemma get_higher_ratio_at_least_one b r b' :
  get_higher_ratio b = (Val r, b') -> 1 <= r.
Proof.
  unfold get_higher_ratio, bind, gets. apply higher_ratio_loop_lower_bound.
Qed.

(** C4, the claim as written fails: on a model whose only method has both
    ratios equal to zero, the maximum over the usable methods is 0, and
    [get_higher_ratio] returns 1. *)
Lemma higher_ratio_is_not_the_maximum :
  let b := Examples.loaded Examples.zero_ratio in
  m_available_methods b = ["A"]
  /\ params_of b "A" = [1; 0; 1; 0]
  /\ usable_ratios b = [0]
  /\ fst (get_higher_ratio b) = Val 1
  /\ ~ In 1 (usable_ratios b).
Proof.
  vm_compute. repeat split; try reflexivity.
  intros [H|[]]. discriminate H.
Qed.

(** C4 (amended): provided no parameter table of the catalog stops short of
    four entries, [get_higher_ratio] goes through the methods of the Method
    Catalog, skips those whose [MethodParams] are unavailable, and returns
    the larger of 1 and the maximum of [max(input_ratio, output_ratio)] over
    the others: the result is at least 1, bounds every usable ratio, and is
    1 or one of them; it is 1 when no method qualifies, and it is the
    maximum usable ratio as soon as one of them is at least 1.  The state is
    left as it was. *)
Theorem get_higher_ratio_running_maximum b :
  params_complete b ->
  exists r,
    get_higher_ratio b = (Val r, b)
    /\ 1 <= r
    /\ (forall x, In x (usable_ratios b) -> x <= r)
    /\ (r = 1 \/ In r (usable_ratios b))
    /\ (usable_ratios b = [] -> r = 1)
    /\ ((exists x, In x (usable_ratios b) /\ 1 <= x) -> In r (usable_ratios b)).
Proof.
  intros Hc.
  exists (fold_left Z.max (usable_ratios b) 1).
  destruct (fold_left_max_spec (usable_ratios b) 1) as (H1 & Hall & Hin).
  repeat split; try assumption.
  - unfold get_higher_ratio, bind, gets.
    apply higher_ratio_loop_spec. exact Hc.
  - intros ->. reflexivity.
  - intros (x & Hx & Hx1). destruct Hin as [E|Hin]; [|exact Hin].
    specialize (Hall x Hx). assert (x = 1) by lia. subst x.
    rewrite E. exact Hx.
Qed.

Lemma get_higher_ratio_running_maximum_witness :
  params_complete (Examples.loaded Examples.two_methods)
  /\ usable_ratios (Examples.loaded Examples.two_methods) = [4; 1]
  /\ exists r,
       get_higher_ratio (Examples.loaded Examples.two_methods)
       = (Val r, Examples.loaded Examples.two_methods)
       /\ 1 <= r
       /\ In r (usable_ratios (Examples.loaded Examples.two_methods)).
Proof.
  assert (H : params_complete (Examples.loaded Examples.two_methods)).
  { repeat constructor; right; reflexivity. }
  split; [exact H|]. split; [reflexivity|].
  destruct (get_higher_ratio_running_maximum _ H)
    as (r & Hr & H1 & _ & _ & _ & Hin).
  exists r. repeat split; try assumption.
  apply Hin. exists 4. split; [left; reflexivity | lia].
Defined.

(** The example of the specification: over [A:(1,4,1,2)] and [B:(1,1,1,1)]
    the higher ratio is 4; over no usable method it is 1. *)
Example higher_ratio_two_methods :
  fst (get_higher_ratio (Examples.loaded Examples.two_methods)) = Val 4
  /\ fst (get_higher_ratio new_backend) = Val 1.
Proof. split; reflexivity. Qed.

End RatioFacts.

(** ** What each member function leaves untouched *)

Module FrameFacts.
Import Cxx Float32 Torch Backend BackendSpec.

Section Combinators.

Context {S X : Type} (proj : S -> X).

Lemma keeps_ret {A} (a : A) : keeps proj (ret a).
Proof. intros s. reflexivity. Qed.

Lemma keeps_throw {A} e : keeps proj (@throw S A e).
Proof. intros s. reflexivity. Qed.

Lemma keeps_lift {A} (r : result A) : keeps proj (lift r).
Proof. intros s. reflexivity. Qed.

Lemma keeps_gets {A} (f : S -> A) : keeps proj (gets f).
Proof. intros s. reflexivity. Qed.

Lemma keeps_modify (f : S -> S) :
  (forall s, proj (f s) = proj s) -> keeps proj (modify f).
Proof. intros H s. apply H. Qed.

Lemma keeps_bind {A B} (m : M S A) (k : A -> M S B) :
  keeps proj m -> (forall a, keeps proj (k a)) -> keeps proj (bind m k).
Proof.
  intros Hm Hk s. unfold bind. specialize (Hm s).
  destruct (m s) as [[a|e|] s']; cbn [snd] in *; [|assumption..].
  rewrite Hk. exact Hm.
Qed.

Lemma keeps_try_catch_all {A} (body handler : M S A) :
  keeps proj body -> keeps proj handler ->
  keeps proj (try_catch_all body handler).
Proof.
  intros Hb Hh s. unfold try_catch_all. specialize (Hb s).
  destruct (body s) as [[a|e|] s']; cbn [snd] in *; [assumption| |assumption].
  rewrite Hh. exact Hb.
Qed.

Lemma keeps_try_catch_std {A} (body handler : M S A) :
  keeps proj body -> keeps proj handler ->
  keeps proj (try_catch_std body handler).
Proof.
  intros Hb Hh s. unfold try_catch_std. specialize (Hb s).
  destruct (body s) as [[a|[w|msg|msg]|] s']; cbn [snd] in *;
    try assumption.
  rewrite Hh. exact Hb.
Qed.

End Combinators.

Ltac keeps_step :=
  first
    [ apply keeps_ret | apply keeps_throw | apply keeps_lift
    | apply keeps_gets
    | apply keeps_bind; [|intros ?]
    | apply keeps_try_catch_all
    | apply keeps_try_catch_std
    | match goal with
      | |- keeps _ (if ?c then _ else _) => destruct c
      | |- keeps _ (match ?x with _ => _ end) => destruct x
      end ].

Lemma keeps_get_method name : keeps catalog (get_method name).
Proof.
  intros b. unfold get_method. destruct (lookup _ _); reflexivity.
Qed.

Lemma keeps_call_method name inputs : keeps catalog (call_method name inputs).
Proof.
  unfold call_method. apply keeps_bind; [apply keeps_get_method|].
  intros f b. destruct (f _ _) as [st [v|what]]; reflexivity.
Qed.

Lemma keeps_attr name : keeps catalog (attr name).
Proof. intros b. reflexivity. Qed.

Lemma keeps_introspect_or_scan introspect candidates :
  keeps catalog (introspect_or_scan introspect candidates).
Proof.
  intros b. unfold introspect_or_scan.
  assert (H : keeps catalog (bind (call_method introspect [])
                                  (fun v => lift (toList v)))).
  { apply keeps_bind; [apply keeps_call_method | intros; apply keeps_lift]. }
  specialize (H b).
  destruct (bind _ _ b) as [[l|e|] b']; cbn [snd] in *; try assumption.
  destruct (push_names l []) as [names []]; assumption.
Qed.

Lemma keeps_get_attribute name : keeps catalog (get_attribute name).
Proof.
  unfold get_attribute.
  repeat first [ apply keeps_get_method | apply keeps_call_method | keeps_step ].
Qed.

Lemma keeps_get_setter_params name : keeps catalog (get_setter_params name).
Proof.
  unfold get_setter_params.
  repeat first [ apply keeps_attr | keeps_step ].
Qed.

Lemma keeps_get_attribute_as_string name :
  keeps catalog (get_attribute_as_string name).
Proof.
  unfold get_attribute_as_string.
  repeat first [ apply keeps_get_attribute | apply keeps_get_setter_params
               | keeps_step ].
Qed.

Lemma keeps_set_attribute P name args :
  keeps catalog (set_attribute P name args).
Proof.
  unfold set_attribute.
  repeat first [ apply keeps_get_method | apply keeps_call_method
               | apply keeps_get_setter_params | keeps_step ].
Qed.

Lemma keeps_get_method_params method : keeps catalog (get_method_params method).
Proof.
  intros b. unfold get_method_params.
  destruct (existsb _ _); [|reflexivity].
  destruct (rbind _ _); reflexivity.
Qed.

Lemma keeps_higher_ratio_loop ms :
  forall acc, keeps catalog (higher_ratio_loop ms acc).
Proof.
  induction ms as [|m ms IH]; intros acc; cbn [higher_ratio_loop].
  - apply keeps_ret.
  - apply keeps_bind; [apply keeps_get_method_params|]. intros params.
    destruct (_ =? _)%nat; [apply IH|].
    repeat first [ apply IH | keeps_step ].
Qed.

Lemma keeps_use_gpu h value : keeps catalog (use_gpu h value).
Proof.
  unfold use_gpu.
  repeat first [ apply keeps_modify; reflexivity | keeps_step ].
Qed.

Lemma keeps_on_backend {A} (m : M Backend_MSG A) :
  keeps catalog m -> keeps (fun s => catalog (fst s)) (on_backend m).
Proof.
  intros H s. unfold on_backend. specialize (H (fst s)).
  destruct (m (fst s)) as [r b]. exact H.
Qed.

Lemma keeps_invoke in_msg method : keeps catalog (invoke in_msg method).
Proof.
  unfold invoke. apply keeps_bind; [apply keeps_call_method|].
  intros v. apply keeps_lift.
Qed.

Lemma keeps_perform in_msg method :
  keeps (fun s => catalog (fst s)) (perform in_msg method).
Proof.
  unfold perform.
  apply keeps_bind; [apply keeps_on_backend, keeps_get_method_params|].
  intros params. destruct (_ =? _)%nat; [apply keeps_ret|].
  do 4 (apply keeps_bind; [apply keeps_lift | intros ?]).
  apply keeps_bind; [apply keeps_gets | intros loaded].
  destruct (loaded =? 0); [apply keeps_ret|].
  apply keeps_bind.
  - apply keeps_try_catch_std; [|apply keeps_ret].
    apply keeps_bind; [apply keeps_on_backend, keeps_invoke|].
    intros t. apply keeps_ret.
  - intros [tensor_out|]; [|apply keeps_ret].
    apply keeps_bind; [|intros ?].
    + apply keeps_modify. intros s. destruct (_ =? _)%nat; reflexivity.
    + apply keeps_bind; [apply keeps_lift | intros ?].
      apply keeps_modify. reflexivity.
Qed.

End FrameFacts.

(** ** The loops of the discovery functions *)

Module DiscoverySteps.
Import Cxx Float32 Torch Backend BackendSpec.

Lemma push_names_strings names :
  forall acc, push_names (map IVString names) acc = ((acc ++ names)%list, true).
Proof.
  induction names as [|n names IH]; intros acc; cbn.
  - now rewrite app_nil_r.
  - rewrite IH, <- app_assoc. reflexivity.
Qed.

Lemma push_names_sound l :
  forall acc names done,
    push_names l acc = (names, done) ->
    forall n, In n names -> In n acc \/ In (IVString n) l.
Proof.
  induction l as [|v l IH]; intros acc names done H n Hn; cbn in H.
  - inversion H; subst. now left.
  - destruct v; cbn in H; try (inversion H; subst; now left).
    destruct (IH _ _ _ H n Hn) as [Hacc|Hl]; [|right; now right].
    apply in_app_or in Hacc. destruct Hacc as [|[<-|[]]]; [now left|].
    right. now left.
Qed.

Lemma scan_with_params_filter m candidates :
  forall names,
    scan_with_params m candidates names
    = (names ++ filter (has_schema m) candidates)%list.
Proof.
  induction candidates as [|c cs IH]; intros names; cbn.
  - now rewrite app_nil_r.
  - unfold has_schema. destruct (module_attr m (c ++ "_params")).
    + rewrite IH, <- app_assoc. reflexivity.
    + apply IH.
    + apply IH.
Qed.

End DiscoverySteps.

(** ** Loading and reloading *)

Module LoadFacts.
Import Cxx Float32 Torch Backend BackendSpec FrameFacts.

Lemma call_method_missing name inputs b :
  lookup name (methods (m_model b)) = None ->
  exists what, call_method name inputs b = (Exc (std_exception what), b).
Proof.
  intros H. unfold call_method, bind, get_method. rewrite H.
  eexists. reflexivity.
Qed.

Lemma call_method_found name inputs b f :
  lookup name (methods (m_model b)) = Some f ->
  call_method name inputs b
  = (outcome_of (snd (f (attributes (m_model b)) inputs)),
     after_call name inputs f b).
Proof.
  intros H. unfold call_method, bind, get_method, after_call. rewrite H.
  destruct (f _ _) as [st [v|what]]; reflexivity.
Qed.

Lemma call_method_defined name inputs b : fst (call_method name inputs b) <> UB.
Proof.
  destruct (lookup name (methods (m_model b))) as [f|] eqn:E.
  - rewrite (call_method_found _ _ _ _ E). cbn [fst].
    destruct (snd _); discriminate.
  - destruct (call_method_missing name inputs b E) as (what & ->). discriminate.
Qed.

Lemma call_method_std name inputs b e :
  fst (call_method name inputs b) = Exc e -> exists what, e = std_exception what.
Proof.
  destruct (lookup name (methods (m_model b))) as [f|] eqn:E.
  - rewrite (call_method_found _ _ _ _ E). cbn [fst].
    destruct (snd _); cbn; intros H; inversion H. eauto.
  - destruct (call_method_missing name inputs b E) as (what & ->).
    cbn. intros H; inversion H. eauto.
Qed.

(** Discovery always returns a list of names. *)
Lemma introspect_or_scan_returns introspect candidates b :
  exists names b',
    introspect_or_scan introspect candidates b = (Val names, b').
Proof.
  unfold introspect_or_scan, bind.
  pose proof (call_method_defined introspect [] b) as Hd.
  destruct (call_method introspect [] b) as [[v|e|] b'];
    [|eauto|now elim Hd].
  unfold lift. destruct (toList v) as [l|e|] eqn:El.
  - destruct (push_names l []) as [names []]; eauto.
  - eauto.
  - destruct v; discriminate El.
Qed.

Lemma constructed_cases h path d :
  (exists model,
      jit_load h path = Some model
      /\ constructed h path d = Val (module_to d (module_eval model)))
  \/ (exists what, constructed h path d = Exc (std_exception what)).
Proof.
  unfold constructed, to_device.
  destruct (jit_load h path) as [model|]; [|right; eauto].
  destruct (can_move h (module_eval model) d); [left | right]; eauto.
Qed.

Lemma load_failure h path b what :
  constructed h path (m_device b) = Exc (std_exception what) ->
  load h path b = (Val 1, print_std_cerr what b).
Proof.
  unfold constructed, load, try_catch_what, bind, lift, gets.
  destruct (jit_load h path) as [model|].
  - intros H. rewrite H. reflexivity.
  - intros H. injection H as <-. reflexivity.
Qed.

Lemma load_success h path b fresh :
  constructed h path (m_device b) = Val fresh ->
  exists names b1,
    get_available_methods (set_loaded 1 (set_model fresh b)) = (Val names, b1)
    /\ load h path b
       = (Val 0, set_path path (set_available_methods names b1)).
Proof.
  intros H.
  destruct (introspect_or_scan_returns
              "get_methods" (fun m => map fst (methods m))
              (set_loaded 1 (set_model fresh b)))
    as (names & b1 & E).
  exists names, b1. split; [exact E|].
  unfold constructed in H.
  unfold load, try_catch_what, bind, lift, gets, modify.
  destruct (jit_load h path) as [model|]; [|discriminate H].
  rewrite H. unfold get_available_methods. rewrite E. reflexivity.
Qed.

Lemma reload_is_load h b : reload h b = load h (m_path b) b.
Proof.
  unfold reload, bind, gets, ret.
  destruct (load h (m_path b) b) as [[rc|e|] b']; reflexivity.
Qed.

(** What the catalog query after the swap leaves of the installed module:
    it only runs [get_methods], which can change the attribute slots. *)
Lemma discovery_keeps_module introspect candidates b names b1 :
  introspect_or_scan introspect candidates b = (Val names, b1) ->
  m_loaded b1 = m_loaded b /\ m_device b1 = m_device b
  /\ m_path b1 = m_path b
  /\ methods (m_model b1) = methods (m_model b)
  /\ training (m_model b1) = training (m_model b)
  /\ device (m_model b1) = device (m_model b)
  /\ std_cout b1 = std_cout b /\ std_cerr b1 = std_cerr b.
Proof.
  unfold introspect_or_scan, bind.
  destruct (lookup introspect (methods (m_model b))) as [f|] eqn:Ef.
  - rewrite (call_method_found _ _ _ _ Ef).
    destruct (outcome_of _) as [v|e|]; unfold lift;
      [destruct (toList v) as [l|e|]; [destruct (push_names l []) as [ns []]| |]
      | | ];
      intros E; inversion E; subst; repeat split; reflexivity.
  - destruct (call_method_missing introspect [] b Ef) as (w & ->).
    intros E; inversion E; subst. repeat split; reflexivity.
Qed.


(** C6: [load] returns 0 when the module could be read from the file, put
    in evaluation mode and moved to the configured device, and 1 when one
    of these steps raised.  On failure no member of the backend is written:
    the model, the loaded flag, the path and the Method Catalog are those
    of before the call (the message of the error is printed on the
    standard error), and so it is after a failed [reload].  On success the
    module built from the file, in evaluation mode and on the device, is
    what is stored in [m_model], with [m_loaded = 1] and the path kept; and
    the Method Catalog is computed anew from that module, not from the
    previous catalog: it is the list of strings that the [get_methods]
    method of the new module returns, and when that method is missing,
    raises or does not return a list, the methods of the new module that
    have a [<name>_params] attribute, in declaration order. *)
Theorem load_swaps_or_keeps h path b :
  let d := m_device b in
  let b' := snd (load h path b) in
  (forall what,
      constructed h path d = Exc (std_exception what) ->
      load h path b = (Val 1, print_std_cerr what b)
      /\ m_model b' = m_model b /\ m_loaded b' = m_loaded b
      /\ m_path b' = m_path b
      /\ m_available_methods b' = m_available_methods b)
  /\ (forall fresh,
      constructed h path d = Val fresh ->
      let b0 := set_loaded 1 (set_model fresh b) in
      (exists model, jit_load h path = Some model
                     /\ fresh = module_to d (module_eval model))
      /\ training fresh = false /\ device fresh = d
      /\ fst (load h path b) = Val 0
      /\ m_loaded b' = 1 /\ m_path b' = path
      /\ methods (m_model b') = methods fresh
      /\ training (m_model b') = false /\ device (m_model b') = d
      /\ (forall names b1,
             introspection "get_methods" b0 (map IVString names) b1 ->
             b' = set_path path (set_available_methods names b1))
      /\ (forall e b1,
             bind (call_method "get_methods" []) (fun v => lift (toList v)) b0
             = (Exc e, b1) ->
             b' = set_path path
                    (set_available_methods
                       (filter (has_schema (m_model b1))
                               (map fst (methods fresh))) b1))
      /\ (lookup "get_methods" (methods fresh) = None ->
          b' = set_path path
                 (set_available_methods
                    (filter (has_schema fresh) (map fst (methods fresh))) b0))
      /\ (forall n,
             In n (m_available_methods b') ->
             reported_by "get_methods" b0 n
             \/ (In n (map fst (methods fresh))
                 /\ has_schema (m_model b') n = true)))
  /\ (fst (load h path b) = Val 0 <->
      exists fresh, constructed h path d = Val fresh)
  /\ (fst (load h path b) = Val 1 <->
      exists what, constructed h path d = Exc (std_exception what))
  /\ reload h b = load h (m_path b) b.
Proof.
  intros d b'.
  assert (Hfail : forall what,
             constructed h path d = Exc (std_exception what) ->
             load h path b = (Val 1, print_std_cerr what b)).
  { intros what H. apply load_failure, H. }
  split; [|split; [|split; [|split; [|apply reload_is_load]]]].
  - intros what H. subst b'. rewrite (Hfail what H). repeat split.
  - intros fresh H b0.
    assert (Hmodel : exists model, jit_load h path = Some model
                                   /\ fresh = module_to d (module_eval model)).
    { destruct (constructed_cases h path d) as [(model & Hj & Hc)|(w & Hc)];
        rewrite Hc in H; [|discriminate H].
      injection H as <-. eauto. }
    split; [exact Hmodel|].
    destruct Hmodel as (model & _ & Hfresh).
    split; [subst fresh; reflexivity|]. split; [subst fresh; reflexivity|].
    destruct (load_success h path b fresh H) as (names & b1 & E & El).
    fold b0 in E. subst b'. rewrite El.
    cbn [fst snd set_path set_available_methods m_model m_loaded m_path
         m_available_methods].
    destruct (discovery_keeps_module _ _ _ _ _ E)
      as (Hl & _ & _ & Hm & Ht & Hd & _).
    split; [reflexivity|]. split; [exact Hl|]. split; [reflexivity|].
    split; [exact Hm|].
    split; [rewrite Ht; subst fresh; reflexivity|].
    split; [rewrite Hd; subst fresh; reflexivity|].
    unfold get_available_methods, introspect_or_scan in E.
    split; [|split; [|split]].
    + intros ns b2 Hi. unfold introspection in Hi.
      rewrite Hi, DiscoverySteps.push_names_strings in E.
      injection E as <- <-. reflexivity.
    + intros e b2 He. rewrite He, DiscoverySteps.scan_with_params_filter in E.
      injection E as <- <-. cbn [app]. rewrite Hm. reflexivity.
    + intros Hno.
      destruct (call_method_missing "get_methods" [] b0 Hno) as (w & Hc).
      unfold bind in E. rewrite Hc in E.
      rewrite DiscoverySteps.scan_with_params_filter in E.
      injection E as <- <-. reflexivity.
    + intros n Hn. cbn in Hn. unfold reported_by, introspection.
      pose proof (call_method_defined "get_methods" [] b0) as Hdef.
      destruct (bind (call_method "get_methods" [])
                     (fun v => lift (toList v)) b0) as [[l|e|] b2] eqn:Ec.
      * destruct (push_names l []) as [ns done] eqn:Ep.
        pose proof (DiscoverySteps.push_names_sound l [] ns done Ep) as Hs.
        destruct done.
        -- injection E as <- <-. left. exists l, b2. split; [reflexivity|].
           destruct (Hs n Hn) as [[]|]; assumption.
        -- injection E as <- <-.
           rewrite DiscoverySteps.scan_with_params_filter in Hn.
           apply in_app_or in Hn. destruct Hn as [Hn|Hn].
           ++ left. exists l, b2. split; [reflexivity|].
              destruct (Hs n Hn) as [[]|]; assumption.
           ++ right. apply filter_In in Hn.
              replace (methods fresh) with (methods (m_model b2)); exact Hn.
      * injection E as <- <-.
        rewrite DiscoverySteps.scan_with_params_filter in Hn.
        right. apply filter_In in Hn.
        replace (methods fresh) with (methods (m_model b2)); exact Hn.
      * unfold bind in Ec.
        destruct (call_method "get_methods" [] b0) as [[v|e|] b3];
          cbn [fst] in Hdef; [|discriminate Ec|now elim Hdef].
        unfold lift in Ec. destruct v; discriminate Ec.
  - destruct (constructed_cases h path d) as [(model & Hj & Hc)|(w & Hc)].
    + destruct (load_success h path b _ Hc) as (names & b1 & _ & ->).
      split; [eauto | reflexivity].
    + rewrite (Hfail w Hc). split; [discriminate|].
      intros (fresh & Hf). rewrite Hc in Hf. discriminate Hf.
  - destruct (constructed_cases h path d) as [(model & Hj & Hc)|(w & Hc)].
    + destruct (load_success h path b _ Hc) as (names & b1 & _ & ->).
      split; [discriminate|].
      intros (w & Hw). rewrite Hc in Hw. discriminate Hw.
    + rewrite (Hfail w Hc). split; [eauto | reflexivity].
Qed.

Lemma load_swaps_or_keeps_witness :
  let h := Examples.host_with "model.ts" Examples.two_methods in
  let b := Examples.loaded Examples.bare in
  let fresh := module_to CPU (module_eval Examples.two_methods) in
  constructed h "model.ts" (m_device b) = Val fresh
  /\ lookup "get_methods" (methods fresh) = None
  /\ m_available_methods b = []
  /\ m_available_methods (snd (load h "model.ts" b)) = ["A"; "B"]
  /\ constructed h "missing.ts" (m_device b)
     = Exc (std_exception "cannot load missing.ts")
  /\ load h "missing.ts" b
     = (Val 1, print_std_cerr "cannot load missing.ts" b).
Proof.
  intros h b fresh.
  assert (H1 : constructed h "model.ts" (m_device b) = Val fresh)
    by reflexivity.
  assert (H2 : lookup "get_methods" (methods fresh) = None) by reflexivity.
  assert (H3 : constructed h "missing.ts" (m_device b)
               = Exc (std_exception "cannot load missing.ts")) by reflexivity.
  split; [exact H1|]. split; [exact H2|]. split; [reflexivity|].
  destruct (load_swaps_or_keeps h "model.ts" b) as (_ & Hok & _).
  destruct (Hok fresh H1) as (_ & _ & _ & _ & _ & _ & _ & _ & _ & _ & _ & Hn & _).
  split; [rewrite (Hn H2); reflexivity|].
  split; [exact H3|].
  destruct (load_swaps_or_keeps h "missing.ts" b) as (Hf & _).
  exact (proj1 (Hf _ H3)).
Defined.

(** A model is loaded, then its file disappears: [reload] returns 1 and the
    backend still holds the model, its catalog and its path. *)
Example failed_reload_keeps_model :
  let b := Examples.loaded Examples.two_methods in
  let nothing := {| jit_load := fun _ => None; hasCUDA := false;
                    hasMPS := false; can_move := fun _ _ => true |} in
  fst (load (Examples.host_with "model.ts" Examples.two_methods) "model.ts"
            new_backend) = Val 0
  /\ reload nothing b = (Val 1, print_std_cerr "cannot load model.ts" b)
  /\ m_loaded b = 1
  /\ m_available_methods b = ["A"; "B"]
  /\ m_path b = "model.ts"
  /\ training (m_model b) = false.
Proof. repeat split. Qed.


End LoadFacts.

(** ** [perform] *)

Module PerformFacts.
Import Cxx Float32 Torch Backend BackendSpec FrameFacts LoadFacts RatioFacts.

Lemma void_snd {S A} (m : M S A) s : snd (void m s) = snd (m s).
Proof.
  unfold void, bind, ret. destruct (m s) as [[a|e|] s']; reflexivity.
Qed.

(** An operation other than [load] and [reload] leaves the loaded flag, the
    catalog and the path as they are. *)
Lemma run_keeps_catalog h op b :
  (forall path, op <> Load path) -> op <> Reload ->
  catalog (snd (run h op b)) = catalog b.
Proof.
  intros Hl Hr. destruct op; cbn [run]; rewrite ?void_snd.
  - pose proof (keeps_perform in_msg method (b, out_msg)) as H.
    destruct (perform in_msg method (b, out_msg)) as [r s]. exact H.
  - now elim (Hl path).
  - now elim Hr.
  - apply keeps_use_gpu.
  - reflexivity.
  - unfold has_settable_attribute.
    apply keeps_bind; [apply keeps_introspect_or_scan | intros; apply keeps_ret].
  - apply keeps_introspect_or_scan.
  - reflexivity.
  - apply keeps_introspect_or_scan.
  - apply keeps_get_attribute.
  - apply keeps_get_attribute_as_string.
  - apply keeps_set_attribute.
  - apply keeps_get_method_params.
  - unfold get_higher_ratio.
    apply keeps_bind; [apply keeps_gets | intros; apply keeps_higher_ratio_loop].
Qed.

Lemma load_loaded_or_same h path b :
  catalog (snd (load h path b)) = catalog b
  \/ m_loaded (snd (load h path b)) = 1.
Proof.
  destruct (constructed_cases h path (m_device b))
    as [(model & _ & Hc)|(what & Hc)].
  - right. destruct (load_success h path b _ Hc) as (names & b1 & Eg & ->).
    destruct (discovery_keeps_module _ _ _ _ _ Eg) as (Hl & _).
    exact Hl.
  - left. now rewrite (load_failure h path b what Hc).
Qed.

Lemma catalog_eq b b' :
  catalog b' = catalog b ->
  m_loaded b' = m_loaded b /\ m_available_methods b' = m_available_methods b.
Proof. unfold catalog. intros H. inversion H. split; reflexivity. Qed.

(** As long as no model is loaded the Method Catalog is empty. *)
Lemma unloaded_catalog_empty b :
  reachable b -> m_loaded b = 0 -> m_available_methods b = [].
Proof.
  induction 1 as [|b h op Hb IH Hdef]; [reflexivity|].
  assert (Hload : forall path,
             m_loaded (snd (load h path b)) = 0 ->
             m_available_methods (snd (load h path b)) = []).
  { intros path. destruct (load_loaded_or_same h path b) as [Hk | ->];
      [|discriminate].
    apply catalog_eq in Hk. destruct Hk as [E1 E2].
    rewrite E1, E2. exact IH. }
  destruct op;
    try (match goal with
         | |- context [run h ?op b] =>
             pose proof (run_keeps_catalog h op b
                           ltac:(discriminate) ltac:(discriminate)) as Hk
         end;
         apply catalog_eq in Hk; destruct Hk as [E1 E2];
         intros H0; etransitivity; [exact E2|]; apply IH;
         etransitivity; [symmetry; exact E1 | exact H0]).
  - cbn [run]. rewrite void_snd. apply Hload.
  - cbn [run]. rewrite void_snd, reload_is_load. apply Hload.
Qed.

Lemma invoke_std in_msg method b e :
  fst (invoke in_msg method b) = Exc e -> exists what, e = std_exception what.
Proof.
  unfold invoke, bind, lift.
  pose proof (call_method_std method
                [IVTensor (FloatTensor [1%nat; List.length in_msg; 1%nat] in_msg)]
                b) as Hc.
  destruct (call_method _ _ b) as [[v|e'|] b']; cbn [fst] in *.
  - destruct v; cbn; intros H; inversion H; eauto.
  - intros H; inversion H; subst. apply Hc. reflexivity.
  - discriminate.
Qed.

Lemma perform_no_params in_msg out_msg method b :
  params_of b method = [] ->
  perform in_msg method (b, out_msg) = (Val tt, (b, out_msg)).
Proof.
  intros H. unfold perform, bind at 1. unfold on_backend. cbn [fst snd].
  rewrite get_method_params_pure, H. reflexivity.
Qed.

Lemma perform_unloaded in_msg out_msg method b p0 p1 p2 p3 :
  params_of b method = [p0; p1; p2; p3] -> m_loaded b = 0 ->
  perform in_msg method (b, out_msg) = (Val tt, (b, out_msg)).
Proof.
  intros H H0. unfold perform, bind at 1. unfold on_backend. cbn [fst snd].
  rewrite get_method_params_pure, H.
  cbn [List.length Nat.eqb]. unfold bind, lift, gets.
  change (vec_at [p0; p1; p2; p3] 0) with (Val p0).
  change (vec_at [p0; p1; p2; p3] 1) with (Val p1).
  change (vec_at [p0; p1; p2; p3] 2) with (Val p2).
  change (vec_at [p0; p1; p2; p3] 3) with (Val p3).
  cbv beta iota. cbn [fst]. rewrite H0. reflexivity.
Qed.

Lemma perform_invocation_raises in_msg out_msg method b p0 p1 p2 p3 :
  params_of b method = [p0; p1; p2; p3] -> m_loaded b <> 0 ->
  is_exc (fst (invoke in_msg method b)) ->
  perform in_msg method (b, out_msg)
  = (Val tt, (snd (invoke in_msg method b), out_msg)).
Proof.
  intros H H0 Hexc. unfold perform, bind at 1. unfold on_backend at 1.
  cbn [fst snd].
  rewrite get_method_params_pure, H.
  cbn [List.length Nat.eqb]. unfold bind at 1 2 3 4 5. unfold lift, gets.
  change (vec_at [p0; p1; p2; p3] 0) with (Val p0).
  change (vec_at [p0; p1; p2; p3] 1) with (Val p1).
  change (vec_at [p0; p1; p2; p3] 2) with (Val p2).
  change (vec_at [p0; p1; p2; p3] 3) with (Val p3).
  cbv beta iota. cbn [fst].
  destruct (Z.eqb_spec (m_loaded b) 0) as [E|_]; [contradiction|].
  unfold bind, try_catch_std, on_backend. cbn [fst snd].
  pose proof (invoke_std in_msg method b) as Hstd.
  destruct (invoke in_msg method b) as [[t|e|] b']; cbn [fst snd] in *;
    try contradiction.
  destruct (Hstd e eq_refl) as (what & ->). reflexivity.
Qed.

(** X24: on a backend reached from its construction, a call of [perform]
    returns normally and leaves [out_msg] as it was in each of the three
    cases: no model is loaded; [get_method_params] resolves nothing for the
    method; the four parameters resolve and the model invocation raises an
    error.  In the first two cases the backend itself is unchanged.  (A
    table of one to three entries is none of these cases.) *)
Theorem perform_fails_silently b in_msg out_msg method :
  reachable b ->
  m_loaded b = 0
  \/ params_of b method = []
  \/ (List.length (params_of b method) = 4%nat
      /\ is_exc (fst (invoke in_msg method b))) ->
  exists b',
    perform in_msg method (b, out_msg) = (Val tt, (b', out_msg))
    /\ (m_loaded b = 0 \/ params_of b method = [] -> b' = b).
Proof.
  intros Hreach Hcase.
  assert (Hempty : m_loaded b = 0 -> params_of b method = []).
  { intros H0. unfold params_of, get_method_params.
    rewrite (unloaded_catalog_empty b Hreach H0). reflexivity. }
  destruct Hcase as [H0|[Hnone|[Hlen Hexc]]].
  - exists b. split; [|reflexivity]. apply perform_no_params, Hempty, H0.
  - exists b. split; [|reflexivity]. apply perform_no_params, Hnone.
  - destruct (params_of b method) as [|p0 [|p1 [|p2 [|p3 [|]]]]] eqn:Ep;
      try discriminate Hlen.
    destruct (Z.eq_dec (m_loaded b) 0) as [H0|H0].
    + specialize (Hempty H0). discriminate Hempty.
    + exists (snd (invoke in_msg method b)). split.
      * eapply perform_invocation_raises; eauto.
      * intros [E|E]; [contradiction | discriminate E].
Qed.

Lemma perform_fails_silently_witness :
  let b := Examples.loaded Examples.faulty in
  let out_msg := [S754_finite false 1 0] in
  reachable b
  /\ (List.length (params_of b "forward") = 4%nat
      /\ is_exc (fst (invoke [S754_zero false] "forward" b)))
  /\ exists b',
       perform [S754_zero false] "forward" (b, out_msg) = (Val tt, (b', out_msg))
       /\ (m_loaded b = 0 \/ params_of b "forward" = [] -> b' = b).
Proof.
  intros b out_msg.
  assert (Hr : reachable b).
  { change b with (snd (run (Examples.host_with "model.ts" Examples.faulty)
                            (Load "model.ts") new_backend)).
    apply reachable_run; [apply reachable_new | discriminate]. }
  assert (Hc : List.length (params_of b "forward") = 4%nat
               /\ is_exc (fst (invoke [S754_zero false] "forward" b))).
  { split; [reflexivity | exact I]. }
  split; [exact Hr|]. split; [exact Hc|].
  exact (perform_fails_silently b [S754_zero false] out_msg "forward" Hr
           (or_intror (or_intror Hc))).
Defined.

(** C1: the code breaks the claim on a method whose [<name>_params] table
    has fewer than four entries.  On a loaded model whose [forward_params]
    holds two entries and whose [forward] raises an error,
    [get_method_params] returns the two values, the test [!params.size()]
    of line 27 lets them through, and lines 30-33 read [params[2]] and
    [params[3]] past the end of the vector: the behaviour of [perform] is
    undefined, where the claim has it return with the output untouched. *)
Lemma perform_on_short_table_is_undefined :
  let b := Examples.loaded Examples.short_faulty in
  let in_msg := [S754_zero false] in
  let out_msg := [S754_finite false 1 0] in
  reachable b
  /\ m_loaded b = 1
  /\ params_of b "forward" = [1; 1]
  /\ is_exc (fst (invoke in_msg "forward" b))
  /\ fst (perform in_msg "forward" (b, out_msg)) = UB.
Proof.
  intros b in_msg out_msg. split; [|repeat split].
  change b with (snd (run (Examples.host_with "model.ts" Examples.short_faulty)
                          (Load "model.ts") new_backend)).
  apply reachable_run; [apply reachable_new | discriminate].
Qed.

(** The example of the specification: on a backend that has loaded nothing,
    [perform] does not raise and leaves the output container untouched; and
    a successful call replaces it with the flattened output of the model. *)
Example perform_unloaded_and_loaded :
  perform [S754_zero false] "forward" (new_backend, [S754_finite false 1 0])
  = (Val tt, (new_backend, [S754_finite false 1 0]))
  /\ snd (snd (perform [S754_zero false] "forward"
                       (Examples.loaded Examples.two_samples,
                        [S754_finite false 1 0])))
     = [S754_finite false 3 (-1); S754_finite true 1 0].
Proof. split; reflexivity. Qed.

End PerformFacts.

(** ** Discovery of attributes *)

Module DiscoveryFacts.
Import Cxx Float32 Torch Backend BackendSpec FrameFacts DiscoverySteps LoadFacts.




End DiscoveryFacts.

(** ** The attribute protocol *)

Module AttributeFacts.
Import Cxx Float32 Torch Backend BackendSpec FrameFacts LoadFacts.

Section Defined.

Context {S : Type}.

Lemma defined_ret {A} (a : A) : defined (@ret S A a).
Proof. intros s. discriminate. Qed.

Lemma defined_throw {A} e : defined (@throw S A e).
Proof. intros s. discriminate. Qed.

Lemma defined_lift {A} (r : result A) : r <> UB -> defined (@lift S A r).
Proof. intros H s. exact H. Qed.

Lemma defined_bind {A B} (m : M S A) (k : A -> M S B) :
  defined m -> (forall a, defined (k a)) -> defined (bind m k).
Proof.
  intros Hm Hk s. unfold bind. specialize (Hm s).
  destruct (m s) as [[a|e|] s']; [apply Hk | discriminate | now elim Hm].
Qed.

Lemma defined_try_catch_all {A} (body handler : M S A) :
  defined body -> defined handler -> defined (try_catch_all body handler).
Proof.
  intros Hb Hh s. unfold try_catch_all. specialize (Hb s).
  destruct (body s) as [[a|e|] s']; [exact Hb | apply Hh | exact Hb].
Qed.

End Defined.

Lemma defined_call_method name inputs : defined (call_method name inputs).
Proof. intros b. apply call_method_defined. Qed.

Lemma defined_get_method name : defined (get_method name).
Proof. intros b. unfold get_method. destruct (lookup _ _); discriminate. Qed.

Lemma defined_get_attribute name : defined (get_attribute name).
Proof.
  unfold get_attribute.
  repeat first
    [ apply defined_call_method | apply defined_get_method
    | apply defined_bind; [|intros ?]
    | apply defined_try_catch_all
    | apply defined_ret | apply defined_throw
    | apply defined_lift;
      match goal with |- _ ?v <> UB => destruct v; discriminate end ].
Qed.

Lemma get_setter_params_spec name b :
  get_setter_params name b
  = (match schema_of b name with
     | Val t => Val t
     | _ => Exc (thrown_string ("parameters to set attribute " ++ name
                                  ++ " not found in model"))
     end, b).
Proof.
  unfold get_setter_params, try_catch_all, bind, attr, lift, throw, schema_of.
  destruct (module_attr (m_model b) (name ++ "_params")) as [v|e|] eqn:E;
    cbn [rbind]; [destruct (toTensor v) as [t|e|] eqn:Et | | ]; try reflexivity.
  - destruct v; discriminate Et.
  - unfold module_attr in E. destruct (lookup _ _); discriminate E.
Qed.

Lemma append_assoc (a b c : string) : (a ++ b) ++ c = a ++ b ++ c.
Proof. induction a as [|ch a IH]; cbn; [reflexivity | now rewrite IH]. Qed.

Lemma append_empty_r (a : string) : a ++ EmptyString = a.
Proof. induction a as [|ch a IH]; cbn; [reflexivity | now rewrite IH]. Qed.

Lemma slice_one {A} (l : list A) :
  forall k x, nth_error l k = Some x -> slice l k 1 = [x].
Proof.
  unfold slice. intros k x. rewrite Nat.mul_1_r. revert k x.
  induction l as [|y l IH]; intros [|k] x H; cbn in *; try discriminate.
  - now inversion H.
  - now apply IH.
Qed.

Lemma nth_error_middle {A} (pre : list A) x rest :
  nth_error (pre ++ x :: rest) (List.length pre) = Some x.
Proof. induction pre; cbn; [reflexivity | assumption]. Qed.

Lemma vec_at_nth {A} (l : list A) k x :
  nth_error l k = Some x -> vec_at l (Z.of_nat k) = Val x.
Proof.
  intros H. unfold vec_at.
  destruct (Z.ltb_spec (Z.of_nat k) 0); [lia|].
  now rewrite Nat2Z.id, H.
Qed.

(** Reading entry [k] of a one-dimensional integer schema. *)
Lemma tensor_int_at_schema tags k tag :
  nth_error tags k = Some tag ->
  tensor_int_at (schema tags) (Z.of_nat k)
  = if in_intb tag then Val tag
    else Exc (std_exception "value cannot be converted without overflow").
Proof.
  intros H. unfold tensor_int_at, schema, tensor_select. cbn [sizes_of].
  assert (Hk : (k < List.length tags)%nat)
    by (apply nth_error_Some; congruence).
  destruct (Z.ltb_spec (Z.of_nat k) (- Z.of_nat (List.length tags))); [lia|].
  destruct (Z.leb_spec (Z.of_nat (List.length tags)) (Z.of_nat k)); [lia|].
  cbn [orb]. destruct (Z.ltb_spec (Z.of_nat k) 0); [lia|].
  rewrite Nat2Z.id. cbn [numel_of fold_right rbind].
  rewrite (slice_one tags k tag H). reflexivity.
Qed.

Lemma known_tag_cases tag :
  known_tag tag = true -> tag = 0 \/ tag = 1 \/ tag = 2 \/ tag = 3.
Proof.
  unfold known_tag. intros H. apply andb_prop in H. destruct H as [H0 H3].
  apply Z.leb_le in H0, H3. lia.
Qed.

Lemma format_value_known tag v s :
  format_value tag v = Some s -> known_tag tag = true.
Proof.
  unfold format_value. intros H.
  destruct tag as [|[[?|?|]|[?|?|]|]|?]; try discriminate H; reflexivity.
Qed.

(** One turn of the loop of [get_attribute_as_string], on a value that
    fits its tag. *)
Lemma format_field_fits tags values size0 k tag v s acc :
  nth_error tags k = Some tag ->
  nth_error values k = Some v ->
  format_value tag v = Some s ->
  format_field (schema tags) values size0 (Z.of_nat k) acc
  = Val (if Z.of_nat k <? size0 - 1 then (acc ++ s) ++ " " else acc ++ s).
Proof.
  intros Ht Hv Hs. unfold format_field.
  rewrite (tensor_int_at_schema tags k tag Ht).
  pose proof (format_value_known tag v s Hs) as Hk.
  destruct (known_tag_cases tag Hk) as [-> | [-> | [-> | ->]]];
    cbn [in_intb]; cbn [rbind];
    rewrite (vec_at_nth values k v Hv); cbn [rbind];
    destruct v; try discriminate Hs; cbn in Hs; inversion Hs; subst;
    reflexivity.
Qed.

Lemma format_loop tags values :
  forall rest pre vrest vpre fields acc,
    tags = (pre ++ rest)%list ->
    values = (vpre ++ vrest)%list ->
    List.length vpre = List.length pre ->
    format_fields rest vrest = Some fields ->
    for_range (Z.of_nat (List.length pre)) (List.length rest)
              (format_field (schema tags) values (Z.of_nat (List.length tags)))
              acc
    = Val (acc ++ String.concat " " fields).
Proof.
  induction rest as [|tag rest IH]; intros pre vrest vpre fields acc Ht Hv Hl Hf.
  - cbn in Hf. inversion Hf; subst. cbn. now rewrite append_empty_r.
  - destruct vrest as [|v vrest]; [discriminate Hf|].
    cbn [format_fields] in Hf.
    destruct (format_value tag v) as [s|] eqn:Es; [|discriminate Hf].
    destruct (format_fields rest vrest) as [fs|] eqn:Efs; [|discriminate Hf].
    inversion Hf; subst fields. clear Hf.
    cbn [List.length for_range].
    assert (Hnt : nth_error tags (List.length pre) = Some tag)
      by (rewrite Ht; apply nth_error_middle).
    assert (Hnv : nth_error values (List.length pre) = Some v)
      by (rewrite Hv, <- Hl; apply nth_error_middle).
    rewrite (format_field_fits tags values _ _ tag v s acc Hnt Hnv Es).
    replace (Z.of_nat (List.length pre) + 1)
      with (Z.of_nat (List.length (pre ++ [tag]))) by (rewrite length_app; cbn; lia).
    assert (Hlen : Z.of_nat (List.length tags)
                   = Z.of_nat (List.length pre) + 1 + Z.of_nat (List.length rest)).
    { rewrite Ht, length_app. cbn [List.length]. lia. }
    rewrite (IH (pre ++ [tag])%list vrest (vpre ++ [v])%list fs).
    + f_equal. destruct rest as [|tag' rest].
      * cbn in Efs. inversion Efs; subst fs.
        destruct (Z.ltb_spec (Z.of_nat (List.length pre))
                             (Z.of_nat (List.length tags) - 1));
          [cbn [List.length] in Hlen; lia|].
        cbn. now rewrite append_empty_r.
      * destruct (Z.ltb_spec (Z.of_nat (List.length pre))
                             (Z.of_nat (List.length tags) - 1));
          [|cbn [List.length] in Hlen; lia].
        destruct fs as [|f fs].
        { cbn in Efs. destruct vrest; [discriminate Efs|].
          destruct (format_value tag' i); [|discriminate Efs].
          destruct (format_fields rest vrest); discriminate Efs. }
        cbn [String.concat]. now rewrite !append_assoc.
    + rewrite <- app_assoc. exact Ht.
    + rewrite <- app_assoc. exact Hv.
    + rewrite !length_app. cbn. lia.
    + exact Efs.
Qed.

Lemma bind_val {S A B} (m : M S A) (k : A -> M S B) s a s' :
  m s = (Val a, s') -> bind m k s = k a s'.
Proof. intros H. unfold bind. now rewrite H. Qed.

Lemma bind_exc {S A B} (m : M S A) (k : A -> M S B) s e s' :
  m s = (Exc e, s') -> bind m k s = (Exc e, s').
Proof. intros H. unfold bind. now rewrite H. Qed.

Lemma for_range_exc {A} (body : Z -> A -> result A) start count a :
  is_exc (body start a) -> is_exc (for_range start (S count) body a).
Proof. cbn [for_range]. destruct (body start a); easy. Qed.

(** One turn of the loop of [get_attribute_as_string], when the value is in
    range: an unknown tag throws, a known tag formats or throws. *)
Lemma format_field_step tags values size0 k tag acc :
  nth_error tags k = Some tag ->
  (k < List.length values)%nat ->
  (known_tag tag = false ->
   is_exc (format_field (schema tags) values size0 (Z.of_nat k) acc))
  /\ format_field (schema tags) values size0 (Z.of_nat k) acc <> UB.
Proof.
  intros Ht Hk. unfold format_field.
  rewrite (tensor_int_at_schema tags k tag Ht).
  destruct (nth_error values k) as [v|] eqn:Ev;
    [|apply nth_error_None in Ev; lia].
  destruct (in_intb tag); cbn [rbind]; [|split; [intros _; exact I | discriminate]].
  destruct tag as [|[[?|?|]|[?|?|]|]|?]; cbn [rbind bad_type_id];
    try (split; [intros _; exact I | discriminate]);
    rewrite (vec_at_nth values k v Ev); cbn [rbind];
    (split; [intros H; discriminate H|]);
    destruct v; cbn; discriminate.
Qed.

Lemma format_loop_rejects tags values tag after :
  known_tag tag = false ->
  forall before done acc,
    tags = (done ++ before ++ tag :: after)%list ->
    (List.length (done ++ before) <= List.length values)%nat ->
    is_exc (for_range (Z.of_nat (List.length done))
              (List.length (before ++ tag :: after))
              (format_field (schema tags) values (Z.of_nat (List.length tags)))
              acc).
Proof.
  intros Hbad. induction before as [|t before IH]; intros done acc Ht Hlen.
  - cbn [app List.length] in *.
    assert (Hnt : nth_error tags (List.length done) = Some tag)
      by (rewrite Ht; apply nth_error_middle).
    unfold format_field, for_range.
    rewrite (tensor_int_at_schema tags _ tag Hnt).
    destruct (in_intb tag); cbn [rbind]; [|exact I].
    unfold known_tag in Hbad.
    destruct tag as [|[[?|?|]|[?|?|]|]|?]; try discriminate Hbad; exact I.
  - assert (Hnt : nth_error tags (List.length done) = Some t)
      by (rewrite Ht; apply nth_error_middle).
    assert (Hk : (List.length done < List.length values)%nat).
    { rewrite length_app in Hlen. cbn in Hlen. lia. }
    destruct (format_field_step tags values (Z.of_nat (List.length tags))
                (List.length done) t acc Hnt Hk) as [_ Hdef].
    cbn [app List.length for_range].
    destruct (format_field _ _ _ _ acc) as [acc'|e|]; [|exact I|now elim Hdef].
    replace (Z.of_nat (List.length done) + 1)
      with (Z.of_nat (List.length (done ++ [t])))
      by (rewrite length_app; cbn; lia).
    apply IH.
    + rewrite <- app_assoc. exact Ht.
    + rewrite <- app_assoc. exact Hlen.
Qed.

Lemma get_attribute_as_string_steps name b values b1 tags :
  get_attribute name b = (Val values, b1) ->
  schema_of b1 name = Val (schema tags) ->
  get_attribute_as_string name b
  = (for_range 0 (List.length tags)
       (format_field (schema tags) values (Z.of_nat (List.length tags))) EmptyString,
     b1).
Proof.
  intros Hg Hs. unfold get_attribute_as_string.
  rewrite (bind_val _ _ _ _ _ Hg).
  erewrite bind_val by (rewrite get_setter_params_spec, Hs; reflexivity).
  unfold bind, lift. cbn [tensor_size0 schema sizes_of].
  now rewrite Nat2Z.id.
Qed.

(** C5: the code breaks the claim when the getter returns fewer values
    than the schema has tags.  On a loaded model whose [gain_params] holds
    the tags [0; 7] and whose [get_gain] returns an empty list, the schema
    has a tag outside the four recognized ones, and the claim has the call
    fail.  The loop of lines 275-308 first reads [getter_outputs[0]] for
    the tag 0, past the end of the empty vector: the behaviour is
    undefined, and the [throw] of the [default] case is not reached. *)
Lemma get_attribute_as_string_reads_missing_value :
  let b := Examples.loaded Examples.missing_value in
  reachable b
  /\ fst (get_attribute "gain" b) = Val []
  /\ schema_of b "gain" = Val (schema [0; 7])
  /\ known_tag 7 = false
  /\ fst (get_attribute_as_string "gain" b) = UB.
Proof.
  intros b. split; [|repeat split].
  change b with (snd (run (Examples.host_with "model.ts" Examples.missing_value)
                          (Load "model.ts") new_backend)).
  apply reachable_run; [apply reachable_new | discriminate].
Qed.

(** X25: [get_attribute_as_string] fails when the [<name>_params] schema is
    missing.  When [get_attribute] returns [values] and the schema is the
    list [tags], the result is the i-th value formatted under the i-th tag
    (bool as [true] or [false], int in decimal, float with six decimals,
    string as it is), the fields being joined by single spaces, with no
    space at the end; and a tag outside the four recognized ones makes the
    call fail, provided there is a value for each position before it.  On the model of the
    example, setting [gain] to [true 3 1.5 hello] and reading it back gives
    the text [true 3 1.500000 hello]. *)
Theorem get_attribute_as_string_formats name b :
  ((forall t, schema_of (snd (get_attribute name b)) name <> Val t) ->
   is_exc (fst (get_attribute_as_string name b)))
  /\ (forall values b1 tags,
        get_attribute name b = (Val values, b1) ->
        schema_of b1 name = Val (schema tags) ->
        (forall fields,
            format_fields tags values = Some fields ->
            get_attribute_as_string name b
            = (Val (String.concat " " fields), b1))
        /\ (forall before tag after,
               tags = (before ++ tag :: after)%list ->
               known_tag tag = false ->
               (List.length before <= List.length values)%nat ->
               is_exc (fst (get_attribute_as_string name b))))
  /\ (let b0 := Examples.loaded Examples.gain_model in
      let set := set_attribute SpecParsing.parsers "gain"
                               ["true"; "3"; "1.5"; "hello"] b0 in
      fst set = Val tt
      /\ fst (get_attribute_as_string "gain" (snd set))
         = Val "true 3 1.500000 hello").
Proof.
  split; [|split].
  - intros Hno. unfold get_attribute_as_string, bind.
    pose proof (defined_get_attribute name b) as Hd.
    destruct (get_attribute name b) as [[values|e|] b1]; cbn [fst snd] in *;
      [|exact I|now elim Hd].
    rewrite get_setter_params_spec.
    destruct (schema_of b1 name) as [t|e|] eqn:E; [now elim (Hno t)|exact I..].
  - intros values b1 tags Hg Hs.
    rewrite (get_attribute_as_string_steps name b values b1 tags Hg Hs).
    split.
    + intros fields Hf. f_equal.
      exact (format_loop tags values tags [] values [] fields EmptyString
                         eq_refl eq_refl eq_refl Hf).
    + intros before tag after Ht Hbad Hlen. cbn [fst].
      pose proof (format_loop_rejects tags values tag after Hbad before []
                                      EmptyString Ht Hlen) as H.
      rewrite <- Ht in H. exact H.
  - vm_compute. split; reflexivity.
Qed.

Lemma get_attribute_as_string_formats_witness :
  let b0 := Examples.loaded Examples.gain_model in
  let b1 := snd (set_attribute SpecParsing.parsers "gain"
                               ["true"; "3"; "1.5"; "hello"] b0) in
  let values := [IVBool true; IVInt 3;
                 IVDouble (S754_finite false 12582912 (-23)); IVString "hello"] in
  fst (get_attribute "gain" b1) = Val values
  /\ schema_of (snd (get_attribute "gain" b1)) "gain" = Val (schema [0; 1; 2; 3])
  /\ format_fields [0; 1; 2; 3] values = Some ["true"; "3"; "1.500000"; "hello"]
  /\ get_attribute_as_string "gain" b1
     = (Val "true 3 1.500000 hello", snd (get_attribute "gain" b1)).
Proof.
  intros b0 b1 values.
  assert (Hg : get_attribute "gain" b1 = (Val values, snd (get_attribute "gain" b1)))
    by reflexivity.
  assert (Hs : schema_of (snd (get_attribute "gain" b1)) "gain"
               = Val (schema [0; 1; 2; 3])) by reflexivity.
  assert (Hf : format_fields [0; 1; 2; 3] values
               = Some ["true"; "3"; "1.500000"; "hello"]) by reflexivity.
  split; [reflexivity|]. split; [exact Hs|]. split; [exact Hf|].
  exact (proj1 (proj1 (proj2 (get_attribute_as_string_formats "gain" b1))
                      values _ [0; 1; 2; 3] Hg Hs) _ Hf).
Defined.

(** *** [set_attribute] *)

Lemma tensor_int_at_defined t i : tensor_int_at t i <> UB.
Proof.
  unfold tensor_int_at, tensor_select.
  destruct (sizes_of t) as [|n rest]; [discriminate|].
  destruct (_ || _); [discriminate|].
  destruct t as [sz data|sz data]; cbn [rbind];
    unfold tensor_item.
  - destruct (slice data _ _) as [|x [|]]; try discriminate.
    cbn [rbind]. unfold scalar_to_int, float_to_double.
    destruct x as [?|?| |sgn m e]; try discriminate.
    destruct (if 0 <=? e then _ else _); discriminate.
  - destruct (slice data _ _) as [|x [|]]; try discriminate.
    cbn [rbind scalar_to_int]. destruct (in_intb x); discriminate.
Qed.

(** One turn of the loop of [set_attribute], on a tag that can be read and
    an argument in range. *)
Lemma parse_field_read P t args i tag a acc :
  tensor_int_at t i = Val tag ->
  vec_at args i = Val a ->
  match parse_arg P tag a with
  | Some v => parse_field P t args i acc = Val (acc ++ [v])%list
  | None => is_exc (parse_field P t args i acc)
  end.
Proof.
  intros Ht Ha. unfold parse_field. rewrite Ht. cbn [rbind].
  destruct tag as [|[[?|?|]|[?|?|]|]|?]; cbn [parse_arg bad_type_id];
    try exact I;
    rewrite Ha; cbn [rbind];
    try reflexivity;
    match goal with
    | |- context [?f P a] => destruct (f P a); cbn; try reflexivity; exact I
    end.
Qed.

(** The loop of [set_attribute], with as many arguments left as there are
    positions left. *)
Lemma parse_loop P t args :
  forall arest apre acc,
    args = (apre ++ arest)%list ->
    match read_from t (Z.of_nat (List.length apre)) (List.length arest) with
    | Some tags =>
        match parse_args P tags arest with
        | Some inputs =>
            for_range (Z.of_nat (List.length apre)) (List.length arest)
                      (parse_field P t args) acc
            = Val (acc ++ inputs)%list
        | None =>
            is_exc (for_range (Z.of_nat (List.length apre)) (List.length arest)
                              (parse_field P t args) acc)
        end
    | None =>
        is_exc (for_range (Z.of_nat (List.length apre)) (List.length arest)
                          (parse_field P t args) acc)
    end.
Proof.
  induction arest as [|a arest IH]; intros apre acc Ha.
  - cbn. now rewrite app_nil_r.
  - cbn [List.length read_from].
    assert (Hna : vec_at args (Z.of_nat (List.length apre)) = Val a)
      by (rewrite Ha; apply vec_at_nth, nth_error_middle).
    pose proof (tensor_int_at_defined t (Z.of_nat (List.length apre))) as Hd.
    destruct (tensor_int_at t (Z.of_nat (List.length apre)))
      as [tag|e|] eqn:Et; [| |now elim Hd].
    + pose proof (parse_field_read P t args _ tag a acc Et Hna) as Hstep.
      specialize (IH (apre ++ [a])%list).
      rewrite <- app_assoc in IH. cbn [app] in IH.
      rewrite length_app in IH. cbn [List.length] in IH.
      replace (Z.of_nat (List.length apre + 1))
        with (Z.of_nat (List.length apre) + 1) in IH by lia.
      destruct (parse_arg P tag a) as [v|] eqn:Ev.
      * specialize (IH (acc ++ [v])%list Ha).
        cbn [for_range]. rewrite Hstep.
        destruct (read_from t (Z.of_nat (List.length apre) + 1)
                            (List.length arest)) as [tags|];
          cbn [option_map parse_args]; [|exact IH].
        rewrite Ev.
        destruct (parse_args P tags arest) as [inputs|];
          [rewrite IH, <- app_assoc; reflexivity | exact IH].
      * assert (Hexc : is_exc (for_range (Z.of_nat (List.length apre))
                                         (S (List.length arest))
                                         (parse_field P t args) acc))
          by (apply for_range_exc, Hstep).
        destruct (read_from t (Z.of_nat (List.length apre) + 1)
                            (List.length arest)) as [tags|];
          cbn [option_map parse_args]; [|exact Hexc].
        rewrite Ev. exact Hexc.
    + apply for_range_exc. unfold parse_field. rewrite Et. exact I.
Qed.

Lemma setter_found name b f :
  lookup ("set_" ++ name) (methods (m_model b)) = Some f ->
  try_catch_all
    (bind (get_method ("set_" ++ name)) (fun _ => ret tt))
    (throw (thrown_string ("setter for attribute " ++ name
                             ++ " not found in model"))) b
  = (Val tt, b).
Proof.
  intros H. unfold try_catch_all, bind, get_method. now rewrite H.
Qed.

(** What [set_attribute] does once the setter and a schema tensor are
    found and the arguments are as many as its first dimension. *)
Lemma set_attribute_spec P name args b f t :
  lookup ("set_" ++ name) (methods (m_model b)) = Some f ->
  schema_of b name = Val t ->
  (forall n, tensor_size0 t = Val n -> Z.of_nat (List.length args) = n) ->
  match read_tags t with
  | Some tags =>
      match parse_args P tags args with
      | Some inputs =>
          set_attribute P name args b
          = (if accepts (snd (f (attributes (m_model b)) inputs)) then Val tt
             else Exc (thrown_string ("setter for " ++ name ++ " failed")),
             after_call ("set_" ++ name) inputs f b)
      | None =>
          is_exc (fst (set_attribute P name args b))
          /\ snd (set_attribute P name args b) = b
      end
  | None =>
      is_exc (fst (set_attribute P name args b))
      /\ snd (set_attribute P name args b) = b
  end.
Proof.
  intros Hf Hs Hl. unfold set_attribute.
  rewrite (bind_val _ _ _ _ _ (setter_found name b f Hf)).
  erewrite bind_val by (rewrite get_setter_params_spec, Hs; reflexivity).
  unfold read_tags.
  destruct (tensor_size0 t) as [n|e|] eqn:En.
  2:{ unfold bind, lift. split; [exact I | reflexivity]. }
  2:{ unfold tensor_size0 in En. destruct (sizes_of t); discriminate En. }
  erewrite bind_val by (unfold lift; reflexivity).
  rewrite <- (Hl n eq_refl), Nat2Z.id.
  pose proof (parse_loop P t args args [] [] eq_refl) as Hloop.
  cbn [List.length Z.of_nat app] in Hloop.
  destruct (read_from t 0 (List.length args)) as [tags|].
  - destruct (parse_args P tags args) as [inputs|].
    + erewrite bind_val by (unfold lift; rewrite Hloop; reflexivity).
      unfold try_catch_all, bind at 1.
      rewrite (call_method_found _ _ _ _ Hf).
      destruct (snd (f (attributes (m_model b)) inputs)) as [v|what];
        cbn [outcome_of accepts]; [|reflexivity].
      unfold bind, lift, throw, ret.
      destruct v; cbn [toInt rbind bad_cast]; try reflexivity.
      destruct (wrap_int i =? 0); reflexivity.
    + unfold bind at 1, lift.
      destruct (for_range 0 (List.length args) (parse_field P t args) []);
        [contradiction | split; [exact I | reflexivity] | contradiction].
  - unfold bind at 1, lift.
    destruct (for_range 0 (List.length args) (parse_field P t args) []);
      [contradiction | split; [exact I | reflexivity] | contradiction].
Qed.

(** The tags of a one-dimensional integer schema whose entries fit in an
    [int] are its entries. *)
Lemma read_from_schema tags :
  forall rest pre,
    tags = (pre ++ rest)%list ->
    Forall (fun tag => in_intb tag = true) rest ->
    read_from (schema tags) (Z.of_nat (List.length pre)) (List.length rest)
    = Some rest.
Proof.
  induction rest as [|tag rest IH]; intros pre Ht Hfit; [reflexivity|].
  inversion Hfit as [|? ? Hin Hrest]; subst.
  cbn [List.length read_from].
  rewrite (tensor_int_at_schema (pre ++ tag :: rest) _ tag
             (nth_error_middle pre tag rest)), Hin.
  replace (Z.of_nat (List.length pre) + 1)
    with (Z.of_nat (List.length (pre ++ [tag])))
    by (rewrite length_app; cbn; lia).
  rewrite (IH (pre ++ [tag])%list);
    [reflexivity | now rewrite <- app_assoc | assumption].
Qed.

Lemma read_tags_schema tags :
  Forall (fun tag => in_intb tag = true) tags ->
  read_tags (schema tags) = Some tags.
Proof.
  intros H. unfold read_tags. cbn [tensor_size0 schema sizes_of].
  rewrite Nat2Z.id. exact (read_from_schema tags tags [] eq_refl H).
Qed.

Lemma bad_tag_rejects P tags :
  forall args,
    Exists (fun tag => known_tag tag = false) tags ->
    parse_args P tags args = None.
Proof.
  induction tags as [|tag tags IH]; intros args Hex; [inversion Hex|].
  destruct args as [|a args]; [reflexivity|].
  cbn [parse_args].
  inversion Hex as [? ? Hbad|? ? Hrest]; subst.
  - assert (parse_arg P tag a = None) as ->; [|reflexivity].
    unfold known_tag in Hbad.
    destruct tag as [|[[?|?|]|[?|?|]|]|?]; try reflexivity;
      discriminate Hbad.
  - rewrite (IH args) by assumption.
    destruct (parse_arg P tag a); reflexivity.
Qed.

(** C8, the claim as written fails.  On a model whose setter stores its
    argument and returns nothing, [set_attribute] raises although the
    setter exists, the schema exists, its only tag is the recognized tag 3
    and the setter returned no nonzero code.  On a model whose schema is a
    table of one row, [set_attribute] raises on one argument, before it
    invokes the setter, although the setter exists, the schema exists and
    every entry of it is the recognized tag 3. *)
Lemma set_attribute_raises_on_silent_setter :
  let b := Examples.loaded Examples.silent_setter in
  let store := fun st args => (update "name" (hd IVNone args) st, Returns IVNone) in
  (is_exc (fst (set_attribute SpecParsing.parsers "name" ["hello"] b))
   /\ lookup "set_name" (methods (m_model b)) = Some store
   /\ schema_of b "name" = Val (schema [3])
   /\ Forall (fun tag => known_tag tag = true) [3]
   /\ List.length ["hello"] = List.length [3]
   /\ ~ (exists code,
           snd (store (attributes (m_model b)) [IVString "hello"])
           = Returns (IVInt code) /\ code <> 0))
  /\ let b2 := Examples.loaded Examples.matrix_schema in
     is_exc (fst (set_attribute SpecParsing.parsers "name" ["hello"] b2))
     /\ lookup "set_name" (methods (m_model b2)) <> None
     /\ schema_of b2 "name" = Val (LongTensor [1%nat; 2%nat] [3; 3])
     /\ tensor_size0 (LongTensor [1%nat; 2%nat] [3; 3])
        = Val (Z.of_nat (List.length ["hello"]))
     /\ Forall (fun tag => known_tag tag = true) [3; 3]
     /\ calls (snd (set_attribute SpecParsing.parsers "name" ["hello"] b2))
        = calls b2.
Proof.
  intros b store. split; [repeat split|].
  - repeat constructor.
  - intros (code & H & _). discriminate H.
  - intros b2. repeat split.
    + discriminate.
    + repeat constructor.
Qed.

(** C8 (amended): when the arguments are as many as the first dimension
    of the [<name>_params] tensor, [set_attribute] raises if and only if
    the method [set_<name>] does not exist, or the [<name>_params] schema
    does not exist, or the tags cannot be read from it (the tensor has no
    dimension, or an entry is not a single number that fits in an [int]),
    or an argument does not parse under its tag (in particular when the
    tag is not one of the four recognized values), or the setter, once
    invoked, does anything but return an integer that is zero as an [int]:
    it raises, returns a value that is no integer, or returns a nonzero
    code.  The behaviour is never undefined.  In all but the last case the
    model is not invoked; otherwise the setter is invoked once, on the
    arguments parsed by tag. *)
Theorem set_attribute_raises_iff P name args b :
  (lookup ("set_" ++ name) (methods (m_model b)) = None ->
   set_attribute P name args b
   = (Exc (thrown_string ("setter for attribute " ++ name
                            ++ " not found in model")), b))
  /\ (forall f,
        lookup ("set_" ++ name) (methods (m_model b)) = Some f ->
        (forall t, schema_of b name <> Val t) ->
        set_attribute P name args b
        = (Exc (thrown_string ("parameters to set attribute " ++ name
                                 ++ " not found in model")), b))
  /\ (forall f t,
        lookup ("set_" ++ name) (methods (m_model b)) = Some f ->
        schema_of b name = Val t ->
        (forall n, tensor_size0 t = Val n -> Z.of_nat (List.length args) = n) ->
        (is_exc (fst (set_attribute P name args b))
         <-> read_tags t = None
             \/ exists tags,
                 read_tags t = Some tags
                 /\ (parse_args P tags args = None
                     \/ exists inputs,
                         parse_args P tags args = Some inputs
                         /\ accepts (snd (f (attributes (m_model b)) inputs))
                            = false))
        /\ fst (set_attribute P name args b) <> UB
        /\ (read_tags t = None
            \/ (exists tags, read_tags t = Some tags
                             /\ parse_args P tags args = None) ->
            snd (set_attribute P name args b) = b)
        /\ (forall tags inputs,
               read_tags t = Some tags ->
               parse_args P tags args = Some inputs ->
               set_attribute P name args b
               = (if accepts (snd (f (attributes (m_model b)) inputs))
                  then Val tt
                  else Exc (thrown_string ("setter for " ++ name ++ " failed")),
                  after_call ("set_" ++ name) inputs f b))
        /\ (forall tags,
               read_tags t = Some tags ->
               Exists (fun tag => known_tag tag = false) tags ->
               parse_args P tags args = None))
  /\ (forall tags,
        Forall (fun tag => in_intb tag = true) tags ->
        read_tags (schema tags) = Some tags).
Proof.
  split; [|split; [|split]].
  - intros H. unfold set_attribute.
    apply bind_exc. unfold try_catch_all, bind, get_method. now rewrite H.
  - intros f Hf Hno. unfold set_attribute.
    rewrite (bind_val _ _ _ _ _ (setter_found name b f Hf)).
    apply bind_exc. rewrite get_setter_params_spec.
    destruct (schema_of b name) as [t|e|]; [now elim (Hno t) | reflexivity..].
  - intros f t Hf Hs Hl.
    pose proof (set_attribute_spec P name args b f t Hf Hs Hl) as Hspec.
    destruct (read_tags t) as [tags|].
    + destruct (parse_args P tags args) as [inputs|] eqn:Ep.
      * rewrite Hspec. cbn [fst snd].
        split; [|split; [|split; [|split]]].
        -- split.
           ++ intros Hexc. right. exists tags. split; [reflexivity|].
              right. exists inputs. split; [exact Ep|].
              destruct (accepts _); [contradiction | reflexivity].
           ++ intros [H|(tags' & H & [Hn|(inputs' & Hi & Hacc)])];
                try discriminate H; injection H as <-.
              ** rewrite Ep in Hn. discriminate Hn.
              ** rewrite Ep in Hi. injection Hi as <-. rewrite Hacc. exact I.
        -- destruct (accepts _); discriminate.
        -- intros [H|(tags' & H & Hn)]; [discriminate H|].
           injection H as <-. rewrite Ep in Hn. discriminate Hn.
        -- intros tags' inputs' H Hi. injection H as <-.
           rewrite Ep in Hi. injection Hi as <-. reflexivity.
        -- intros tags' H Hex. injection H as <-.
           rewrite (bad_tag_rejects P tags args Hex) in Ep. discriminate Ep.
      * destruct Hspec as [Hexc Hsame].
        split; [|split; [|split; [|split]]].
        -- split; [|intros _; exact Hexc].
           intros _. right. exists tags. split; [reflexivity | now left].
        -- destruct (fst (set_attribute P name args b));
             [discriminate | discriminate | contradiction].
        -- intros _. exact Hsame.
        -- intros tags' inputs' H Hi. injection H as <-.
           rewrite Ep in Hi. discriminate Hi.
        -- intros tags' H Hex. injection H as <-. exact Ep.
    + destruct Hspec as [Hexc Hsame].
      split; [|split; [|split; [|split]]].
      * split; [intros _; now left | intros _; exact Hexc].
      * destruct (fst (set_attribute P name args b));
          [discriminate | discriminate | contradiction].
      * intros _. exact Hsame.
      * intros tags' inputs' H. discriminate H.
      * intros tags' H. discriminate H.
  - apply read_tags_schema.
Qed.

(** With fewer arguments than tags the loop reads [attribute_args] out of
    range. *)
Example set_attribute_short_arguments :
  fst (set_attribute SpecParsing.parsers "gain" ["true"]
                     (Examples.loaded Examples.gain_model)) = UB.
Proof. reflexivity. Qed.

Lemma set_attribute_raises_iff_witness :
  let b := Examples.loaded Examples.gain_model in
  let args := ["true"; "3"; "1.5"; "hello"] in
  let store := fun st args => (update "gain" (IVTuple args) st, Returns (IVInt 0)) in
  lookup "set_gain" (methods (m_model b)) = Some store
  /\ schema_of b "gain" = Val (schema [0; 1; 2; 3])
  /\ (forall n, tensor_size0 (schema [0; 1; 2; 3]) = Val n
                -> Z.of_nat (List.length args) = n)
  /\ read_tags (schema [0; 1; 2; 3]) = Some [0; 1; 2; 3]
  /\ ~ is_exc (fst (set_attribute SpecParsing.parsers "gain" args b)).
Proof.
  intros b args store.
  assert (Hf : lookup "set_gain" (methods (m_model b)) = Some store)
    by reflexivity.
  assert (Hs : schema_of b "gain" = Val (schema [0; 1; 2; 3])) by reflexivity.
  assert (Hl : forall n, tensor_size0 (schema [0; 1; 2; 3]) = Val n
                         -> Z.of_nat (List.length args) = n)
    by (intros n H; injection H as <-; reflexivity).
  split; [exact Hf|]. split; [exact Hs|]. split; [exact Hl|].
  split; [reflexivity|].
  intros Hexc.
  apply (proj1 (proj1 (proj1 (proj2 (proj2
           (set_attribute_raises_iff SpecParsing.parsers "gain" args b)))
           store (schema [0; 1; 2; 3]) Hf Hs Hl))) in Hexc.
  destruct Hexc as [H|(tags & H & [Hn|(inputs & Hi & Hacc)])].
  - discriminate H.
  - injection H as <-. discriminate Hn.
  - injection H as <-. injection Hi as <-. discriminate Hacc.
Defined.

End AttributeFacts.

(** ** The audio callback *)

Module CallbackFacts.
Import Cxx Float32 Torch Frontend.

Lemma replace_nth_middle {A} (pre : list A) x rest y :
  replace_nth (pre ++ x :: rest) (List.length pre) y = Some (pre ++ y :: rest)%list.
Proof.
  induction pre as [|p pre IH]; cbn; [reflexivity | now rewrite IH].
Qed.

Lemma write_at_middle {A} (pre : list A) x rest y :
  write_at (pre ++ x :: rest) (Z.of_nat (List.length pre)) y
  = Val (pre ++ y :: rest)%list.
Proof.
  unfold write_at. destruct (Z.ltb_spec (Z.of_nat (List.length pre)) 0); [lia|].
  now rewrite Nat2Z.id, replace_nth_middle.
Qed.

Lemma vec_at_middle {A} (pre : list A) x rest :
  vec_at (pre ++ x :: rest) (Z.of_nat (List.length pre)) = Val x.
Proof.
  apply AttributeFacts.vec_at_nth, AttributeFacts.nth_error_middle.
Qed.

Lemma succ_length {A} (pre : list A) x :
  Z.of_nat (List.length pre) + 1 = Z.of_nat (List.length (pre ++ [x])).
Proof. rewrite length_app. cbn. lia. Qed.

(** The inner loop of [fill_with_zero] on one channel. *)
Lemma zero_frames z (rest : list double) :
  forall pre,
    for_range (Z.of_nat (List.length pre)) (List.length rest)
              (fun i out => write_at out i z) (pre ++ rest)%list
    = Val (pre ++ repeat z (List.length rest))%list.
Proof.
  induction rest as [|x rest IH]; intros pre; cbn [List.length for_range repeat].
  - reflexivity.
  - rewrite write_at_middle, (succ_length pre z).
    replace (pre ++ z :: rest)%list with ((pre ++ [z]) ++ rest)%list
      by (now rewrite <- app_assoc).
    rewrite IH, <- app_assoc. reflexivity.
Qed.

Lemma zero_channel z (ch : list double) :
  for_range 0 (List.length ch) (fun i out => write_at out i z) ch
  = Val (repeat z (List.length ch)).
Proof. exact (zero_frames z ch []). Qed.

(** The outer loop, over the channels. *)
Lemma zero_channels frames (todo : list (list double)) :
  Forall (fun ch => List.length ch = frames) todo ->
  forall done,
    for_range (Z.of_nat (List.length done)) (List.length todo)
      (fun c chans =>
         rbind (vec_at chans c) (fun out =>
         rbind (for_range 0 frames (fun i out => write_at out i double_zero) out)
               (fun out => write_at chans c out)))
      (done ++ todo)%list
    = Val (done ++ map (fun ch => repeat double_zero (List.length ch)) todo)%list.
Proof.
  induction 1 as [|ch todo Hch Htodo IH]; intros done;
    cbn [List.length for_range map].
  - reflexivity.
  - rewrite vec_at_middle. cbn [rbind].
    rewrite <- Hch.
    rewrite zero_channel. cbn [rbind].
    rewrite write_at_middle, (succ_length done (repeat double_zero (List.length ch))).
    replace (done ++ repeat double_zero (List.length ch) :: todo)%list
      with ((done ++ [repeat double_zero (List.length ch)]) ++ todo)%list
      by (now rewrite <- app_assoc).
    rewrite Hch. rewrite IH, <- app_assoc. rewrite <- Hch. reflexivity.
Qed.

Lemma fill_with_zero_silence output :
  well_formed output -> fill_with_zero output = Val (silence output).
Proof.
  intros Hwf. unfold fill_with_zero, channel_count. rewrite Nat2Z.id.
  assert (Hlen : Forall (fun ch => List.length ch = Z.to_nat (frame_count output))
                        (samples output)).
  { unfold well_formed in Hwf. eapply Forall_impl; [|exact Hwf].
    cbn. intros ch H. rewrite <- H. now rewrite Nat2Z.id. }
  pose proof (zero_channels _ (samples output) Hlen []) as E.
  cbn [List.length Z.of_nat app] in E. rewrite E. reflexivity.
Qed.

Lemma silence_all_zero output : all_zero (silence output).
Proof.
  unfold all_zero, silence. cbn [samples].
  apply Forall_map, Forall_forall. intros ch _.
  apply Forall_forall. intros x Hx. now apply repeat_spec in Hx.
Qed.

Section Callback.

Context {R : RateBuffer}.
Implicit Types o : nn_msg_tilde R.

(** C10: on a bundle whose channels hold [frame_count] samples each, the
    audio callback zero-fills the output and leaves the whole object, hence
    the model and the record of its invocations, untouched when no model is
    loaded or the object is disabled; when the model is loaded, the object
    enabled and the frame count above the buffer size, it prints one line,
    clears the enable flag, zero-fills the output and leaves the backend
    untouched; and every later callback on a disabled object zero-fills its
    output again and changes nothing. *)
Theorem audio_callback_zero_fills o input output :
  well_formed output ->
  all_zero (silence output)
  /\ (Backend.is_loaded (m_model o) = false \/ enable o = false ->
      audio_callback input output o = (Val (silence output), o))
  /\ (Backend.is_loaded (m_model o) = true -> enable o = true ->
      m_buffer_size o < frame_count output ->
      let line := "vector size (" ++ to_string (frame_count output) ++ ") "
                  ++ "larger than buffer size (" ++ to_string (m_buffer_size o)
                  ++ "). " ++ "disabling model." in
        audio_callback input output o
        = (Val (silence output), set_enable false (print_cerr line o))
        /\ enable (snd (audio_callback input output o)) = false
        /\ m_model (snd (audio_callback input output o)) = m_model o
        /\ Backend.calls (m_model (snd (audio_callback input output o)))
           = Backend.calls (m_model o))
  /\ (forall blocks,
        Forall (fun io => well_formed (snd io)) blocks ->
        enable o = false ->
        audio_callbacks blocks o
        = (map (fun io => Val (silence (snd io))) blocks, o)).
Proof.
  intros Hwf. split; [apply silence_all_zero|].
  assert (Hoff : forall input output,
             well_formed output ->
             Backend.is_loaded (m_model o) = false \/ enable o = false ->
             audio_callback input output o = (Val (silence output), o)).
  { clear. intros input output Hwf Hcase. unfold audio_callback.
    assert (negb (Backend.is_loaded (m_model o)) || negb (enable o) = true) as ->.
    { destruct Hcase as [-> | ->]; [reflexivity | apply orb_true_r]. }
    now rewrite fill_with_zero_silence. }
  split; [apply Hoff, Hwf|]. split.
  - intros Hl He Hlt line.
    assert (E : audio_callback input output o
                = (Val (silence output), set_enable false (print_cerr line o))).
    { unfold audio_callback. rewrite Hl, He. cbn [negb orb].
      destruct (Z.ltb_spec (m_buffer_size o) (frame_count output)); [|lia].
      rewrite fill_with_zero_silence by exact Hwf. reflexivity. }
    rewrite E. repeat split.
  - intros blocks Hall He.
    induction Hall as [|[i out] blocks Hout Hrest IH]; [reflexivity|].
    cbn [audio_callbacks map snd].
    rewrite (Hoff i out Hout (or_intror He)), IH. reflexivity.
Qed.

End Callback.

Lemma audio_callback_zero_fills_witness :
  let o := Examples.object_loaded 1 in
  let output := Examples.stereo_block in
  well_formed output
  /\ Backend.is_loaded (m_model o) = true /\ enable o = true
  /\ m_buffer_size o < frame_count output
  /\ fst (audio_callback output output o)
     = Val (mkBundle [[double_zero; double_zero]; [double_zero; double_zero]] 2)
  /\ enable (snd (audio_callback output output o)) = false.
Proof.
  intros o output.
  assert (Hwf : well_formed output) by (repeat constructor).
  assert (Hlt : m_buffer_size o < frame_count output) by (cbn; lia).
  split; [exact Hwf|]. split; [reflexivity|]. split; [reflexivity|].
  split; [exact Hlt|].
  destruct (proj1 (proj2 (proj2 (audio_callback_zero_fills o output output Hwf)))
                  eq_refl eq_refl Hlt) as (E & He & _).
  split; [rewrite E; reflexivity | exact He].
Defined.

(** With a buffer that is large enough the same object runs the model and
    hands its output to the host. *)
Example audio_callback_runs_model :
  fst (audio_callback Examples.stereo_block Examples.stereo_block
                      (Examples.object_loaded 4))
  = Val (mkBundle [[S754_finite false 3 (-1); S754_finite true 1 0];
                   [S754_zero false; S754_zero false]] 2)
  /\ List.length (Backend.calls
                    (m_model (snd (audio_callback Examples.stereo_block
                                                  Examples.stereo_block
                                                  (Examples.object_loaded 4)))))
     = 1%nat.
Proof. vm_compute. split; reflexivity. Qed.

End CallbackFacts.

(** ** Mutual exclusion of [perform] and [reload] *)

Module ThreadFacts.
Import Cxx Torch Backend BackendSpec Threads.


Lemma whole_after_call m sl name f args mx fl cat sp :
  methods sl = methods m -> state_of m (attributes sl) ->
  lookup name (methods sl) = Some f ->
  whole m (mkShared mx (with_attributes (fst (f (attributes sl) args)) sl)
                    fl cat sp).
Proof.
  intros Hm Hs Hf. split; cbn; [exact Hm|].
  eapply state_call; [exact Hs | rewrite <- Hm; exact Hf].
Qed.






Lemma reaches_front guarded new method inputs path c0 c1 c :
  step guarded new method inputs path c0 c1 ->
  reaches guarded new method inputs path c1 c ->
  reaches guarded new method inputs path c0 c.
Proof.
  intros Hstep. induction 1 as [|c c' _ IH Hs].
  - eapply reaches_step; [apply reaches_start | exact Hstep].
  - eapply reaches_step; eassumption.
Qed.

(** The methods of [two_methods] leave its attribute slots as they are. *)
Lemma state_of_two_methods st :
  state_of Examples.two_methods st -> st = attributes Examples.two_methods.
Proof.
  induction 1 as [|st name f args _ IH Hf]; [reflexivity|].
  unfold Examples.two_methods in Hf. cbn [methods lookup] in Hf.
  destruct (String.eqb "A" name); [injection Hf as <-; exact IH|].
  destruct (String.eqb "B" name); [injection Hf as <-; exact IH|].
  discriminate Hf.
Qed.

(** Without the mutex the claim fails: the invocation can read the code of
    the old module, and, the copy having run in between, the attributes of
    the new one, which is neither module in full. *)
Lemma without_mutex_perform_sees_a_mix :
  let old := Examples.two_methods in
  let new := Examples.zero_ratio in
  exists c,
    reaches false new "A" [] "model.ts" (initial old 1 ["A"; "B"] "model.ts") c
    /\ seen_methods (perf c) = Some (methods old)
    /\ seen_attributes (perf c) = Some (attributes new)
    /\ ~ saw (perf c) old /\ ~ saw (perf c) new.
Proof.
  intros old new. eexists. split; [|split; [|split; [|split]]].
  - unfold initial.
    eapply reaches_front;
      [apply step_perform, perform_catalog_found; reflexivity|].
    eapply reaches_front;
      [apply step_perform, perform_params_lock; discriminate|].
    eapply reaches_front;
      [apply step_perform, perform_params_read; reflexivity|].
    eapply reaches_front;
      [apply step_perform, perform_params_found; reflexivity|].
    eapply reaches_front;
      [apply step_perform, perform_loaded; discriminate|].
    eapply reaches_front; [apply step_perform, perform_lock; discriminate|].
    eapply reaches_front;
      [apply step_perform, perform_get_method; reflexivity|].
    eapply reaches_front; [apply step_load, load_construct|].
    eapply reaches_front; [apply step_load, load_lock; discriminate|].
    eapply reaches_front; [apply step_load, load_copy_methods|].
    eapply reaches_front; [apply step_load, load_copy_attributes|].
    eapply reaches_front; [apply step_perform, perform_call|].
    apply reaches_start.
  - reflexivity.
  - reflexivity.
  - intros (_ & st & Hst & Hof). cbn in Hst. injection Hst as <-.
    apply state_of_two_methods in Hof. discriminate Hof.
  - intros (Hms & _). cbn in Hms. injection Hms as Hms. discriminate Hms.
Qed.



End ThreadFacts.

(** ** More on the backend *)

Module BackendMoreFacts.
Import Cxx Float32 Torch Backend BackendSpec BackendMore.
Import FrameFacts DiscoverySteps LoadFacts RatioFacts PerformFacts DiscoveryFacts AttributeFacts.

(** *** Discovery of methods *)

Lemma push_names_stops pre v rest :
  (forall s, v <> IVString s) ->
  forall acc,
    push_names (map IVString pre ++ v :: rest) acc = ((acc ++ pre)%list, false).
Proof.
  intros Hv. induction pre as [|n pre IH]; intros acc; cbn.
  - rewrite app_nil_r. destruct v; try reflexivity. now elim (Hv s).
  - rewrite IH, <- app_assoc. reflexivity.
Qed.

(** X1: on a backend that has loaded a model, [get_available_methods]
    always returns a list of names, and changes neither the loaded flag,
    the Method Catalog nor the path.  It asks the model's [get_methods]: a
    list of strings is returned as it is; when the method is missing, when
    the call raises or when it returns no list, the result is the methods
    that have a [<name>_params] attribute, in declaration order; and when
    the list holds something that is not a string, the names before it are
    kept and the scan is appended to them, so that a name can come twice.
    ([m_loaded] is 1 exactly once [load] has put a module in [m_model].) *)
Theorem get_available_methods_introspect_or_scan b :
  m_loaded b <> 0 ->
  (exists names, fst (get_available_methods b) = Val names)
  /\ m_loaded (snd (get_available_methods b)) = m_loaded b
  /\ m_available_methods (snd (get_available_methods b))
     = m_available_methods b
  /\ m_path (snd (get_available_methods b)) = m_path b
  /\ (forall names b',
        introspection "get_methods" b (map IVString names) b' ->
        get_available_methods b = (Val names, b'))
  /\ (lookup "get_methods" (methods (m_model b)) = None ->
      get_available_methods b
      = (Val (filter (has_schema (m_model b)) (map fst (methods (m_model b)))),
         b))
  /\ (forall e b',
        bind (call_method "get_methods" []) (fun v => lift (toList v)) b
        = (Exc e, b') ->
        get_available_methods b
        = (Val (filter (has_schema (m_model b')) (map fst (methods (m_model b')))),
           b'))
  /\ (forall pre v rest b',
        (forall s, v <> IVString s) ->
        introspection "get_methods" b (map IVString pre ++ v :: rest) b' ->
        get_available_methods b
        = (Val (pre ++ filter (has_schema (m_model b'))
                              (map fst (methods (m_model b'))))%list,
           b')).
Proof.
  intros _.
  pose proof (keeps_introspect_or_scan
                "get_methods" (fun m => map fst (methods m)) b) as Hk.
  fold get_available_methods in Hk. unfold catalog in Hk.
  injection Hk as Hl Ha Hp.
  split; [|split; [exact Hl|split; [exact Ha|split; [exact Hp|]]]].
  { destruct (introspect_or_scan_returns
                "get_methods" (fun m => map fst (methods m)) b)
      as (names & b' & E).
    exists names. unfold get_available_methods. now rewrite E. }
  unfold get_available_methods, introspect_or_scan, introspection.
  split; [|split; [|split]].
  - intros names b' H. rewrite H, push_names_strings. reflexivity.
  - intros Hno. unfold bind.
    destruct (call_method_missing "get_methods" [] b Hno) as (what & ->).
    rewrite scan_with_params_filter. reflexivity.
  - intros e b' H. rewrite H, scan_with_params_filter. reflexivity.
  - intros pre v rest b' Hv H.
    rewrite H, (push_names_stops pre v rest Hv), scan_with_params_filter.
    reflexivity.
Qed.

Lemma get_available_methods_introspect_or_scan_witness :
  let b := Examples.loaded Examples.mixed_listing in
  m_loaded b <> 0
  /\ (forall s, IVInt 3 <> IVString s)
  /\ introspection "get_methods" b (map IVString ["forward"] ++ IVInt 3 :: [])
                   (snd (get_available_methods b))
  /\ fst (get_available_methods b) = Val ["forward"; "forward"].
Proof.
  intros b.
  assert (Hb : m_loaded b <> 0) by discriminate.
  assert (Hv : forall s, IVInt 3 <> IVString s) by discriminate.
  assert (H : introspection "get_methods" b
                (map IVString ["forward"] ++ IVInt 3 :: [])
                (snd (get_available_methods b))) by reflexivity.
  split; [exact Hb|]. split; [exact Hv|]. split; [exact H|].
  rewrite (proj2 (proj2 (proj2 (proj2 (proj2 (proj2 (proj2
             (get_available_methods_introspect_or_scan b Hb)))))))
                 ["forward"] (IVInt 3) [] _ Hv H).
  reflexivity.
Defined.

(** *** [get_attribute] *)

Lemma getter_found name b f :
  lookup ("get_" ++ name) (methods (m_model b)) = Some f ->
  try_catch_all
    (bind (get_method ("get_" ++ name)) (fun _ => ret tt))
    (throw (thrown_string ("getter for attribute " ++ name
                             ++ " not found in model"))) b
  = (Val tt, b).
Proof.
  intros H. unfold try_catch_all, bind, get_method. now rewrite H.
Qed.

Lemma after_call_methods name inputs f b :
  methods (m_model (after_call name inputs f b)) = methods (m_model b).
Proof. reflexivity. Qed.

Lemma after_call_calls name inputs f b :
  calls (after_call name inputs f b) = (calls b ++ [(name, inputs)])%list.
Proof. reflexivity. Qed.

(** The getter is called and its value read as a list. *)
Lemma call_as_list g f b :
  lookup g (methods (m_model b)) = Some f ->
  bind (call_method g []) (fun v => lift (toList v)) b
  = (match answer f b with
     | Returns (IVList l) => Val l
     | Returns _ => bad_cast
     | Raises what => Exc (std_exception what)
     end, after_call g [] f b).
Proof.
  intros H. unfold bind. rewrite (call_method_found _ _ _ _ H).
  unfold answer. destruct (snd _) as [v|what]; cbn [outcome_of]; [|reflexivity].
  destruct v; reflexivity.
Qed.

Lemma call_as_tuple g f b :
  lookup g (methods (m_model b)) = Some f ->
  bind (call_method g []) (fun v => lift (toTuple v)) b
  = (match answer f b with
     | Returns (IVTuple l) => Val l
     | Returns _ => bad_cast
     | Raises what => Exc (std_exception what)
     end, after_call g [] f b).
Proof.
  intros H. unfold bind. rewrite (call_method_found _ _ _ _ H).
  unfold answer. destruct (snd _) as [v|what]; cbn [outcome_of]; [|reflexivity].
  destruct v; reflexivity.
Qed.

Lemma call_as_single g f b :
  lookup g (methods (m_model b)) = Some f ->
  bind (call_method g []) (fun v => ret [v]) b
  = (single (answer f b), after_call g [] f b).
Proof.
  intros H. unfold bind. rewrite (call_method_found _ _ _ _ H).
  unfold answer, single. destruct (snd _) as [v|what]; reflexivity.
Qed.

Lemma get_attribute_found name b f :
  lookup ("get_" ++ name) (methods (m_model b)) = Some f ->
  let g := "get_" ++ name in
  let b1 := after_call g [] f b in
  let b2 := after_call g [] f b1 in
  let b3 := after_call g [] f b2 in
  get_attribute name b
  = match answer f b with
    | Returns (IVList l) => (Val l, b1)
    | _ => match answer f b1 with
           | Returns (IVTuple l) => (Val l, b2)
           | _ => (single (answer f b2), b3)
           end
    end.
Proof.
  intros Hf g b1 b2 b3.
  assert (Hf1 : lookup g (methods (m_model b1)) = Some f) by exact Hf.
  assert (Hf2 : lookup g (methods (m_model b2)) = Some f) by exact Hf.
  unfold get_attribute. fold g.
  rewrite (bind_val _ _ _ _ _ (getter_found name b f Hf)).
  unfold try_catch_all.
  rewrite (call_as_list g f b Hf). fold b1.
  destruct (answer f b) as [v|what]; [destruct v|]; cbn [bad_cast];
    try reflexivity;
    rewrite (call_as_tuple g f b1 Hf1); fold b2;
    (destruct (answer f b1) as [v1|what1]; [destruct v1|]); cbn [bad_cast];
    try reflexivity;
    rewrite (call_as_single g f b2 Hf2); reflexivity.
Qed.

(** X2: [get_attribute] fails with its own message, without calling the
    model, when [get_<name>] does not exist.  Otherwise it calls the getter
    once if the value is a list, a second time if the first value was no
    list and reads the second as a tuple, and a third time if that was no
    tuple, returning the third value alone or raising the error of the
    third call: a getter that returns a scalar runs three times. *)
Theorem get_attribute_calls_getter_up_to_three_times name b :
  let g := "get_" ++ name in
  (lookup g (methods (m_model b)) = None ->
   get_attribute name b
   = (Exc (thrown_string ("getter for attribute " ++ name
                            ++ " not found in model")), b))
  /\ (forall f,
        lookup g (methods (m_model b)) = Some f ->
        let b1 := after_call g [] f b in
        let b2 := after_call g [] f b1 in
        let b3 := after_call g [] f b2 in
        (forall l, answer f b = Returns (IVList l) ->
                   get_attribute name b = (Val l, b1)
                   /\ calls b1 = (calls b ++ [(g, [])])%list)
        /\ ((forall l, answer f b <> Returns (IVList l)) ->
            forall l, answer f b1 = Returns (IVTuple l) ->
                      get_attribute name b = (Val l, b2)
                      /\ calls b2 = (calls b ++ [(g, []); (g, [])])%list)
        /\ ((forall l, answer f b <> Returns (IVList l)) ->
            (forall l, answer f b1 <> Returns (IVTuple l)) ->
            get_attribute name b = (single (answer f b2), b3)
            /\ calls b3 = (calls b ++ [(g, []); (g, []); (g, [])])%list)).
Proof.
  intros g. split.
  - intros H. unfold get_attribute. apply bind_exc.
    unfold try_catch_all, bind, get_method. fold g. now rewrite H.
  - intros f Hf b1 b2 b3.
    pose proof (get_attribute_found name b f Hf) as E. cbv zeta in E.
    fold g in E. fold b1 in E. fold b2 in E. fold b3 in E.
    split; [|split].
    + intros l Hl. rewrite E, Hl. split; reflexivity.
    + intros Hnl l Hl. rewrite E, Hl. split.
      * destruct (answer f b) as [v|what]; [destruct v|]; try reflexivity.
        exfalso; eapply Hnl; reflexivity.
      * unfold b2, b1. rewrite !after_call_calls, <- app_assoc. reflexivity.
    + intros Hnl Hnt. rewrite E. split.
      * destruct (answer f b) as [v|what]; [destruct v|];
          try (exfalso; eapply Hnl; reflexivity);
          (destruct (answer f b1) as [v1|what1]; [destruct v1|]);
          try reflexivity; exfalso; eapply Hnt; reflexivity.
      * unfold b3, b2, b1. rewrite !after_call_calls, <- !app_assoc.
        reflexivity.
Qed.

Lemma get_attribute_calls_getter_up_to_three_times_witness :
  let b := Examples.loaded Examples.gain_model in
  let f := fun st (_ : list IValue) =>
             (st, match lookup "gain" st with
                  | Some v => Returns v
                  | None => Raises "no attribute gain"
                  end) in
  lookup "get_gain" (methods (m_model b)) = Some f
  /\ (forall l, answer f b <> Returns (IVList l))
  /\ List.length (calls (snd (get_attribute "gain" b)))
     = (List.length (calls b) + 2)%nat.
Proof.
  intros b f.
  assert (Hf : lookup "get_gain" (methods (m_model b)) = Some f) by reflexivity.
  assert (Hnl : forall l, answer f b <> Returns (IVList l)) by discriminate.
  split; [exact Hf|]. split; [exact Hnl|].
  destruct (proj1 (proj2 (proj2 (get_attribute_calls_getter_up_to_three_times
                                   "gain" b) f Hf))
                  Hnl _ eq_refl) as [E Hc].
  rewrite E. cbn [snd].
  etransitivity; [exact (f_equal (@List.length _) Hc)|].
  rewrite length_app. reflexivity.
Defined.

(** *** [get_method_params] *)

Lemma tensor_int_at_beyond tags i :
  (List.length tags <= i)%nat ->
  exists e, tensor_int_at (schema tags) (Z.of_nat i) = Exc e.
Proof.
  intros H. unfold tensor_int_at, schema, tensor_select. cbn [sizes_of].
  destruct (Z.leb_spec (Z.of_nat (List.length tags)) (Z.of_nat i)); [|lia].
  rewrite orb_true_r. eexists. reflexivity.
Qed.

Lemma skipn_nth {A} (l : list A) :
  forall i x, nth_error l i = Some x -> skipn i l = x :: skipn (S i) l.
Proof.
  induction l as [|y l IH]; intros [|i] x H; cbn in *; try discriminate.
  - now inversion H.
  - now apply IH.
Qed.

Lemma push_params_schema tags :
  forall n i acc,
    push_params (schema tags) (Z.of_nat i) n acc
    = (acc ++ take_while in_intb (firstn n (skipn i tags)))%list.
Proof.
  induction n as [|n IH]; intros i acc; cbn [push_params].
  - cbn. now rewrite app_nil_r.
  - destruct (nth_error tags i) as [t|] eqn:E.
    + rewrite (tensor_int_at_schema tags i t E), (skipn_nth tags i t E).
      cbn [firstn take_while].
      destruct (in_intb t); [|now rewrite app_nil_r].
      replace (Z.of_nat i + 1) with (Z.of_nat (S i)) by lia.
      rewrite IH, <- app_assoc. reflexivity.
    + apply nth_error_None in E.
      destruct (tensor_int_at_beyond tags i E) as (e & ->).
      rewrite skipn_all2 by exact E.
      cbn. now rewrite app_nil_r.
Qed.

Lemma push_params_length p :
  forall n i acc,
    (List.length (push_params p i n acc) <= List.length acc + n)%nat.
Proof.
  induction n as [|n IH]; intros i acc; cbn [push_params]; [lia|].
  destruct (tensor_int_at p i); try lia.
  specialize (IH (i + 1) (acc ++ [a])%list). rewrite length_app in IH.
  cbn in IH. lia.
Qed.

Lemma in_catalog method b :
  existsb (String.eqb method) (m_available_methods b) = true
  <-> In method (m_available_methods b).
Proof.
  rewrite existsb_exists. split.
  - intros (x & Hx & E). apply String.eqb_eq in E. now subst.
  - intros H. exists method. split; [exact H | apply String.eqb_refl].
Qed.

Lemma params_length_at_most_four b method :
  (List.length (params_of b method) <= 4)%nat.
Proof.
  unfold params_of, get_method_params.
  destruct (existsb _ _); [|cbn; lia].
  destruct (rbind _ _) as [p| |]; cbn [fst]; try (cbn; lia).
  apply (push_params_length p 4 0 []).
Qed.

(** X3: [get_method_params] never raises and leaves the backend as it is.
    It resolves nothing for a method that is not in the Method Catalog,
    whatever the model declares, and nothing when the [<name>_params]
    attribute is missing or is no tensor.  On a one-dimensional integer
    table it returns the first four entries, stopping before the first
    entry that is missing or does not fit in an [int]; it never returns
    more than four values. *)
Theorem get_method_params_resolves method b :
  get_method_params method b = (Val (params_of b method), b)
  /\ (List.length (params_of b method) <= 4)%nat
  /\ (~ In method (m_available_methods b) -> params_of b method = [])
  /\ (In method (m_available_methods b) ->
      (forall t, schema_of b method <> Val t) -> params_of b method = [])
  /\ (forall tags,
        In method (m_available_methods b) ->
        schema_of b method = Val (schema tags) ->
        params_of b method = take_while in_intb (firstn 4 tags)).
Proof.
  split; [apply get_method_params_pure|].
  split; [apply params_length_at_most_four|].
  unfold params_of, get_method_params, schema_of.
  split; [|split].
  - intros Hni.
    destruct (existsb _ _) eqn:E; [|reflexivity].
    apply in_catalog in E. contradiction.
  - intros Hin Hno. apply in_catalog in Hin. rewrite Hin.
    destruct (rbind _ _) as [p| |]; [now elim (Hno p) | reflexivity..].
  - intros tags Hin Hs. apply in_catalog in Hin. rewrite Hin, Hs. cbn [fst].
    exact (push_params_schema tags 4 0 []).
Qed.

Lemma get_method_params_resolves_witness :
  let b := Examples.loaded Examples.two_methods in
  In "A" (m_available_methods b)
  /\ schema_of b "A" = Val (schema [1; 4; 1; 2])
  /\ params_of b "A" = [1; 4; 1; 2]
  /\ ~ In "A_params" (m_available_methods b)
  /\ params_of b "A_params" = [].
Proof.
  intros b.
  assert (Hin : In "A" (m_available_methods b)) by (left; reflexivity).
  assert (Hs : schema_of b "A" = Val (schema [1; 4; 1; 2])) by reflexivity.
  assert (Hni : ~ In "A_params" (m_available_methods b)).
  { intros [H|[H|[]]]; discriminate H. }
  split; [exact Hin|]. split; [exact Hs|]. split; [|split; [exact Hni|]].
  - rewrite (proj2 (proj2 (proj2 (proj2 (get_method_params_resolves "A" b))))
                   _ Hin Hs).
    reflexivity.
  - exact (proj1 (proj2 (proj2 (get_method_params_resolves "A_params" b))) Hni).
Defined.

(** *** Tables that stop short *)

Lemma perform_partial in_msg out_msg method b :
  partial_table b method ->
  fst (perform in_msg method (b, out_msg)) = UB.
Proof.
  unfold partial_table. intros H.
  unfold perform, bind at 1. unfold on_backend. cbn [fst snd].
  rewrite get_method_params_pure.
  destruct (params_of b method) as [|p0 [|p1 [|p2 [|p3 rest]]]];
    cbn [List.length] in H; try lia; reflexivity.
Qed.

Lemma higher_ratio_loop_partial b ms :
  Exists (partial_table b) ms ->
  forall acc, fst (higher_ratio_loop ms acc b) = UB.
Proof.
  unfold partial_table.
  induction ms as [|m ms IH]; intros Hex acc; [inversion Hex|].
  cbn [higher_ratio_loop]. unfold bind at 1. rewrite get_method_params_pure.
  pose proof (params_length_at_most_four b m) as H4.
  destruct (params_of b m) as [|p0 [|p1 [|p2 [|p3 [|p4 rest]]]]] eqn:Ep;
    cbn [List.length] in H4; try lia; try reflexivity.
  - cbn [List.length Nat.eqb]. apply IH.
    inversion Hex as [? ? Hm|]; subst; [|assumption].
    rewrite Ep in Hm. cbn in Hm. lia.
  - cbn [List.length Nat.eqb]. unfold bind, lift.
    change (vec_at [p0; p1; p2; p3] 1) with (Val p1).
    change (vec_at [p0; p1; p2; p3] 3) with (Val p3).
    cbv beta iota. apply IH.
    inversion Hex as [? ? Hm|]; subst; [|assumption].
    rewrite Ep in Hm. cbn in Hm. lia.
Qed.

(** X4: a parameter table that resolves to one, two or three entries makes
    [perform] on that method read [params[3]] out of range, and, when the
    method is in the Method Catalog, makes [get_higher_ratio] do so as
    well: both have undefined behaviour. *)
Theorem short_table_reads_out_of_range b :
  (forall in_msg out_msg method,
      partial_table b method ->
      fst (perform in_msg method (b, out_msg)) = UB)
  /\ (Exists (partial_table b) (m_available_methods b) ->
      fst (get_higher_ratio b) = UB).
Proof.
  split.
  - intros. now apply perform_partial.
  - intros H. unfold get_higher_ratio, bind, gets.
    now apply higher_ratio_loop_partial.
Qed.

Lemma short_table_reads_out_of_range_witness :
  let b := Examples.loaded Examples.short_table in
  partial_table b "forward"
  /\ Exists (partial_table b) (m_available_methods b)
  /\ fst (perform [S754_zero false] "forward" (b, [])) = UB
  /\ fst (get_higher_ratio b) = UB.
Proof.
  intros b.
  assert (Hp : partial_table b "forward").
  { unfold partial_table.
    change (List.length (params_of b "forward")) with 2%nat. lia. }
  assert (Hex : Exists (partial_table b) (m_available_methods b))
    by (left; exact Hp).
  split; [exact Hp|]. split; [exact Hex|]. split.
  - exact (proj1 (short_table_reads_out_of_range b) _ _ _ Hp).
  - exact (proj2 (short_table_reads_out_of_range b) Hex).
Defined.

(** *** [perform], when the model answers *)

Lemma invoke_found in_msg method b f :
  lookup method (methods (m_model b)) = Some f ->
  invoke in_msg method b
  = (rbind (outcome_of (snd (f (attributes (m_model b)) (inputs_of in_msg))))
           toTensor,
     after_call method (inputs_of in_msg) f b).
Proof.
  intros H. unfold invoke, bind, lift.
  fold (inputs_of in_msg). rewrite (call_method_found _ _ _ _ H).
  destruct (outcome_of _); reflexivity.
Qed.

Lemma resize_length v n : List.length (resize v n) = n.
Proof.
  unfold resize. rewrite length_app, length_firstn, repeat_length. lia.
Qed.

Lemma memcpy_all dst src :
  List.length dst = List.length src -> memcpy dst src (List.length dst) = src.
Proof.
  intros H. unfold memcpy.
  rewrite H, firstn_all, <- H, skipn_all. apply app_nil_r.
Qed.

(** The steps of [perform] up to the invocation, when the four parameters
    resolve and a model is loaded. *)
Lemma perform_invokes in_msg out_msg method b f :
  List.length (params_of b method) = 4%nat ->
  m_loaded b <> 0 ->
  lookup method (methods (m_model b)) = Some f ->
  forall t,
    rbind (outcome_of (snd (f (attributes (m_model b)) (inputs_of in_msg))))
          toTensor = Val t ->
    let b' := after_call method (inputs_of in_msg) f b in
    let out := if (List.length out_msg =? flat_size t)%nat then out_msg
               else resize out_msg (flat_size t) in
    perform in_msg method (b, out_msg)
    = match data_ptr_float t with
      | Val out_ptr => (Val tt, (b', memcpy out out_ptr (List.length out)))
      | Exc e => (Exc e, (b', out))
      | UB => (UB, (b', out))
      end.
Proof.
  intros Hlen H0 Hf t Ht b' out.
  unfold perform, bind at 1. unfold on_backend at 1. cbn [fst snd].
  rewrite get_method_params_pure.
  destruct (params_of b method) as [|p0 [|p1 [|p2 [|p3 [|]]]]];
    try discriminate Hlen.
  cbn [List.length Nat.eqb]. unfold bind at 1 2 3 4 5. unfold lift at 1 2 3 4.
  unfold gets.
  change (vec_at [p0; p1; p2; p3] 0) with (Val p0).
  change (vec_at [p0; p1; p2; p3] 1) with (Val p1).
  change (vec_at [p0; p1; p2; p3] 2) with (Val p2).
  change (vec_at [p0; p1; p2; p3] 3) with (Val p3).
  cbv beta iota. cbn [fst].
  destruct (Z.eqb_spec (m_loaded b) 0) as [E|_]; [contradiction|].
  unfold bind at 1. unfold try_catch_std, bind at 1. unfold on_backend.
  cbn [fst snd]. rewrite (invoke_found in_msg method b f Hf), Ht.
  unfold ret, bind, modify, lift. cbn [fst snd].
  fold b'. subst out.
  destruct (List.length out_msg =? flat_size t)%nat; cbn [fst snd];
    destruct (data_ptr_float t); reflexivity.
Qed.

(** X5: when the four parameters resolve, a model is loaded and the method
    returns a tensor of floats, [perform] calls the method once, on the
    tensor of sizes [1, in_msg.size(), 1] built from [in_msg], and leaves
    in [out_msg] exactly the elements of the returned tensor, whatever
    [out_msg] held and however long it was. *)
Theorem perform_copies_model_output in_msg out_msg method b f sizes data :
  List.length (params_of b method) = 4%nat ->
  m_loaded b <> 0 ->
  lookup method (methods (m_model b)) = Some f ->
  snd (f (attributes (m_model b)) (inputs_of in_msg))
  = Returns (IVTensor (FloatTensor sizes data)) ->
  perform in_msg method (b, out_msg)
  = (Val tt, (after_call method (inputs_of in_msg) f b, data))
  /\ calls (after_call method (inputs_of in_msg) f b)
     = (calls b ++ [(method, inputs_of in_msg)])%list.
Proof.
  intros Hlen H0 Hf Hr. split; [|reflexivity].
  rewrite (perform_invokes in_msg out_msg method b f Hlen H0 Hf
                           (FloatTensor sizes data))
    by (rewrite Hr; reflexivity).
  cbn [data_ptr_float flat_size]. do 2 f_equal.
  destruct (Nat.eqb_spec (List.length out_msg) (List.length data)) as [E|E].
  - apply memcpy_all, E.
  - apply memcpy_all, resize_length.
Qed.

Lemma perform_copies_model_output_witness :
  let b := Examples.loaded Examples.two_samples in
  let f := fun st (_ : list IValue) =>
             (st, Returns (IVTensor (FloatTensor [1%nat; 2%nat; 1%nat]
                                     [S754_finite false 3 (-1);
                                      S754_finite true 1 0]))) in
  List.length (params_of b "forward") = 4%nat
  /\ m_loaded b <> 0
  /\ lookup "forward" (methods (m_model b)) = Some f
  /\ snd (snd (perform [S754_zero false] "forward" (b, [])))
     = [S754_finite false 3 (-1); S754_finite true 1 0].
Proof.
  intros b f.
  assert (Hlen : List.length (params_of b "forward") = 4%nat) by reflexivity.
  assert (H0 : m_loaded b <> 0) by discriminate.
  assert (Hf : lookup "forward" (methods (m_model b)) = Some f) by reflexivity.
  split; [exact Hlen|]. split; [exact H0|]. split; [exact Hf|].
  rewrite (proj1 (perform_copies_model_output [S754_zero false] [] "forward"
                    b f _ _ Hlen H0 Hf eq_refl)).
  reflexivity.
Defined.

(** X6: when the method returns a tensor of integers, [perform] raises,
    and it has by then resized [out_msg] to the number of elements of that
    tensor (cut, or filled with zeros) without copying anything into it;
    the call of the model has taken place. *)
Theorem perform_raises_on_integer_tensor in_msg out_msg method b f sizes data :
  List.length (params_of b method) = 4%nat ->
  m_loaded b <> 0 ->
  lookup method (methods (m_model b)) = Some f ->
  snd (f (attributes (m_model b)) (inputs_of in_msg))
  = Returns (IVTensor (LongTensor sizes data)) ->
  exists out,
    perform in_msg method (b, out_msg)
    = (Exc (std_exception "expected scalar type Float but found Long"),
       (after_call method (inputs_of in_msg) f b, out))
    /\ List.length out = List.length data
    /\ out = (firstn (List.length data) out_msg
                ++ repeat float_zero (List.length data - List.length out_msg))%list.
Proof.
  intros Hlen H0 Hf Hr.
  rewrite (perform_invokes in_msg out_msg method b f Hlen H0 Hf
                           (LongTensor sizes data))
    by (rewrite Hr; reflexivity).
  cbn [data_ptr_float flat_size]. eexists. split; [reflexivity|].
  destruct (Nat.eqb_spec (List.length out_msg) (List.length data)) as [E|E].
  - split; [exact E|].
    rewrite <- E, firstn_all, Nat.sub_diag. cbn. now rewrite app_nil_r.
  - split; [apply resize_length | reflexivity].
Qed.

Lemma perform_raises_on_integer_tensor_witness :
  let b := Examples.loaded Examples.integer_output in
  let f := fun st (_ : list IValue) =>
             (st, Returns (IVTensor (LongTensor [3%nat] [1; 2; 3]))) in
  List.length (params_of b "forward") = 4%nat
  /\ m_loaded b <> 0
  /\ lookup "forward" (methods (m_model b)) = Some f
  /\ is_exc (fst (perform [S754_zero false] "forward"
                          (b, [S754_finite false 1 0])))
  /\ snd (snd (perform [S754_zero false] "forward"
                       (b, [S754_finite false 1 0])))
     = [S754_finite false 1 0; S754_zero false; S754_zero false].
Proof.
  intros b f.
  assert (Hlen : List.length (params_of b "forward") = 4%nat) by reflexivity.
  assert (H0 : m_loaded b <> 0) by discriminate.
  assert (Hf : lookup "forward" (methods (m_model b)) = Some f) by reflexivity.
  split; [exact Hlen|]. split; [exact H0|]. split; [exact Hf|].
  destruct (perform_raises_on_integer_tensor
              [S754_zero false] [S754_finite false 1 0] "forward" b f _ _
              Hlen H0 Hf eq_refl) as (out & E & _ & Hout).
  match type of E with
  | ?l = _ =>
      change (is_exc (fst l)
              /\ snd (snd l) = [S754_finite false 1 0; S754_zero false;
                                S754_zero false])
  end.
  rewrite E. split; [exact I|]. cbn [snd]. rewrite Hout. reflexivity.
Defined.

(** *** What the member functions leave untouched *)

Section Frame.

Context {X : Type} (proj : Backend_MSG -> X).

(** [proj] does not look at the attribute slots nor at the record of calls. *)
Hypothesis proj_call :
  forall b st name inputs,
    proj (log_call name inputs
            (Backend.set_model (with_attributes st (m_model b)) b))
    = proj b.

Lemma frame_get_method name : keeps proj (get_method name).
Proof.
  intros b. unfold get_method. destruct (lookup _ _); reflexivity.
Qed.

Lemma frame_call_method name inputs : keeps proj (call_method name inputs).
Proof.
  unfold call_method. apply keeps_bind; [apply frame_get_method|].
  intros f b. destruct (f _ _) as [st [v|what]]; apply proj_call.
Qed.

Lemma frame_introspect_or_scan introspect candidates :
  keeps proj (introspect_or_scan introspect candidates).
Proof.
  intros b. unfold introspect_or_scan.
  assert (H : keeps proj (bind (call_method introspect [])
                               (fun v => lift (toList v)))).
  { apply keeps_bind; [apply frame_call_method | intros; apply keeps_lift]. }
  specialize (H b).
  destruct (bind _ _ b) as [[l|e|] b']; cbn [snd] in *; try assumption.
  destruct (push_names l []) as [names []]; assumption.
Qed.

Lemma frame_get_setter_params name : keeps proj (get_setter_params name).
Proof.
  intros b. rewrite get_setter_params_spec. reflexivity.
Qed.

Ltac frame_step :=
  first [ apply frame_get_method | apply frame_call_method
        | apply frame_get_setter_params | keeps_step ].

Lemma frame_get_attribute name : keeps proj (get_attribute name).
Proof. unfold get_attribute. repeat frame_step. Qed.

Lemma frame_get_attribute_as_string name :
  keeps proj (get_attribute_as_string name).
Proof.
  unfold get_attribute_as_string.
  repeat first [ apply frame_get_attribute | frame_step ].
Qed.

Lemma frame_set_attribute P name args : keeps proj (set_attribute P name args).
Proof. unfold set_attribute. repeat frame_step. Qed.

Lemma frame_get_method_params method : keeps proj (get_method_params method).
Proof. intros b. rewrite get_method_params_pure. reflexivity. Qed.

Lemma frame_higher_ratio_loop ms :
  forall acc, keeps proj (higher_ratio_loop ms acc).
Proof.
  induction ms as [|m ms IH]; intros acc; cbn [higher_ratio_loop].
  - apply keeps_ret.
  - apply keeps_bind; [apply frame_get_method_params|]. intros params.
    destruct (_ =? _)%nat; [apply IH|].
    repeat first [ apply IH | keeps_step ].
Qed.

Lemma frame_perform in_msg method :
  keeps (fun s => proj (fst s)) (perform in_msg method).
Proof.
  unfold perform.
  apply keeps_bind.
  { intros s. unfold on_backend. rewrite get_method_params_pure. reflexivity. }
  intros params. destruct (_ =? _)%nat; [apply keeps_ret|].
  do 4 (apply keeps_bind; [apply keeps_lift | intros ?]).
  apply keeps_bind; [apply keeps_gets | intros loaded].
  destruct (loaded =? 0); [apply keeps_ret|].
  apply keeps_bind.
  - apply keeps_try_catch_std; [|apply keeps_ret].
    apply keeps_bind; [|intros t; apply keeps_ret].
    intros s. unfold on_backend.
    assert (H : keeps proj (invoke in_msg method)).
    { unfold invoke. apply keeps_bind; [apply frame_call_method|].
      intros v. apply keeps_lift. }
    specialize (H (fst s)). destruct (invoke in_msg method (fst s)). exact H.
  - intros [tensor_out|]; [|apply keeps_ret].
    apply keeps_bind; [|intros ?].
    + apply keeps_modify. intros s. destruct (_ =? _)%nat; reflexivity.
    + apply keeps_bind; [apply keeps_lift | intros ?].
      apply keeps_modify. reflexivity.
Qed.

Lemma frame_run h op b :
  reconfigures op = false -> proj (snd (run h op b)) = proj b.
Proof.
  intros Hop. destruct op; try discriminate Hop; cbn [run];
    rewrite ?void_snd.
  - pose proof (frame_perform in_msg method (b, out_msg)) as H.
    destruct (perform in_msg method (b, out_msg)) as [r s]. exact H.
  - reflexivity.
  - unfold has_settable_attribute.
    apply keeps_bind; [apply frame_introspect_or_scan | intros; apply keeps_ret].
  - apply frame_introspect_or_scan.
  - reflexivity.
  - apply frame_introspect_or_scan.
  - apply frame_get_attribute.
  - apply frame_get_attribute_as_string.
  - apply frame_set_attribute.
  - apply frame_get_method_params.
  - unfold get_higher_ratio.
    apply keeps_bind; [apply keeps_gets | intros; apply frame_higher_ratio_loop].
Qed.

End Frame.

Lemma only_configuration_kept h op b :
  reconfigures op = false ->
  configuration (snd (run h op b)) = configuration b.
Proof.
  apply (frame_run configuration). reflexivity.
Qed.

(** X7: apart from [load], [reload] and [use_gpu], no member function
    changes the loaded flag, the device, the Method Catalog, the path, nor
    the code, the mode and the device of the module: such a call can only
    change the attribute slots of the module, through the script methods it
    runs, and the record of the calls. *)
Theorem only_load_and_use_gpu_reconfigure h op b :
  reconfigures op = false ->
  configuration (snd (run h op b)) = configuration b.
Proof.
  apply (frame_run configuration). reflexivity.
Qed.

Lemma only_load_and_use_gpu_reconfigure_witness :
  let b := Examples.loaded Examples.gain_model in
  let op := SetAttribute SpecParsing.parsers "gain" ["true"; "3"; "1.5"; "hello"] in
  reconfigures op = false
  /\ configuration (snd (run (Examples.host_with "model.ts" Examples.gain_model)
                            op b)) = configuration b
  /\ attributes (m_model (snd (run (Examples.host_with "model.ts"
                                                      Examples.gain_model) op b)))
     <> attributes (m_model b).
Proof.
  intros b op.
  assert (H : reconfigures op = false) by reflexivity.
  split; [exact H|]. split.
  - exact (only_load_and_use_gpu_reconfigure _ op b H).
  - discriminate.
Defined.

(** *** Invariants *)

Lemma sound_configuration b b' :
  configuration b' = configuration b -> sound b -> sound b'.
Proof.
  unfold configuration, sound. intros H. inversion H as [[E1 E2 E3 E4 E5 E6 E7 E8]].
  rewrite E1, E3, E4, E5, E6, E7. exact (fun x => x).
Qed.

Lemma load_installs h path b fresh :
  constructed h path (m_device b) = Val fresh ->
  fst (load h path b) = Val 0
  /\ m_loaded (snd (load h path b)) = 1
  /\ m_path (snd (load h path b)) = path
  /\ m_device (snd (load h path b)) = m_device b
  /\ m_use_gpu (snd (load h path b)) = m_use_gpu b
  /\ methods (m_model (snd (load h path b))) = methods fresh
  /\ training (m_model (snd (load h path b))) = training fresh
  /\ device (m_model (snd (load h path b))) = device fresh.
Proof.
  intros E. destruct (load_success h path b fresh E) as (names & b1 & Eg & ->).
  destruct (discovery_keeps_module _ _ _ _ _ Eg)
    as (Hl & Hd & _ & Hm & Ht & Hdev & _).
  cbn [fst snd set_path set_available_methods m_model m_loaded m_path
       m_device m_use_gpu].
  repeat split; try assumption.
  unfold get_available_methods in Eg.
  pose proof (frame_introspect_or_scan m_use_gpu ltac:(reflexivity)
                "get_methods" (fun m => map fst (methods m))
                (set_loaded 1 (set_model fresh b))) as Hk.
  rewrite Eg in Hk. exact Hk.
Qed.

Lemma constructed_eval h path d fresh :
  constructed h path d = Val fresh -> training fresh = false /\ device fresh = d.
Proof.
  intros H.
  destruct (constructed_cases h path d) as [(model & _ & Hc)|(w & Hc)];
    rewrite Hc in H; [|discriminate H].
  injection H as <-. split; reflexivity.
Qed.

Lemma sound_load h path b : sound b -> sound (snd (load h path b)).
Proof.
  intros Hs.
  destruct (constructed_cases h path (m_device b))
    as [(model & _ & Hc)|(what & Hc)].
  - destruct (load_installs h path b _ Hc)
      as (_ & Hl & _ & _ & Hg & _ & Ht & _).
    destruct Hs as (_ & Hgpu & _).
    unfold sound. rewrite Hl, Hg, Ht.
    repeat split; auto; intros; discriminate.
  - rewrite (load_failure h path b what Hc). exact Hs.
Qed.

(** What [use_gpu] leaves: the device is assigned and the line printed
    before the module is moved. *)
Lemma use_gpu_runs h value b :
  let d := select_device h value in
  let printed := if value
                 then print_std_cout ("sending model to " ++ device_name d) b
                 else b in
  use_gpu h value b
  = if m_loaded b =? 0
    then (Exc (std_exception "the module holds no object"),
          set_device d printed)
    else match to_device h d (m_model b) with
         | Val m => (Val tt, set_model m (set_device d printed))
         | Exc e => (Exc e, set_device d printed)
         | UB => (UB, set_device d printed)
         end.
Proof.
  intros d printed. unfold use_gpu, bind, modify, gets, lift, ret.
  fold d. subst printed. destruct value; cbn [m_loaded m_model set_device
                                              print_std_cout];
    destruct (m_loaded b =? 0); try reflexivity;
    destruct (to_device h d (m_model b)); reflexivity.
Qed.

Lemma sound_use_gpu h value b : sound b -> sound (snd (use_gpu h value b)).
Proof.
  intros (Hl & Hg & Ht & H0). rewrite use_gpu_runs.
  unfold to_device.
  destruct (m_loaded b =? 0); [|destruct (can_move h _ _)];
    destruct value; unfold sound; cbn; tauto.
Qed.

(** X8: at every moment of the life of a backend, from its construction
    on and whatever is called on it, also after calls that raised, the
    loaded flag is 0 or 1, [m_use_gpu] is still [false] (nothing ever
    writes it), a loaded module is in evaluation mode, and as long as
    nothing is loaded the module has no method, the Method Catalog is empty
    and so is the path. *)
Theorem backend_invariants b : reachable b -> sound b.
Proof.
  induction 1 as [|b h op Hb IH Hdef].
  - unfold sound. cbn. repeat split; auto; discriminate.
  - destruct (reconfigures op) eqn:Hop.
    + destruct op; try discriminate Hop; cbn [run]; rewrite ?void_snd.
      * apply sound_load, IH.
      * rewrite reload_is_load. apply sound_load, IH.
      * apply sound_use_gpu, IH.
    + eapply sound_configuration; [|exact IH].
      apply only_configuration_kept. exact Hop.
Qed.

Lemma backend_invariants_witness :
  let h := Examples.host_with "model.ts" Examples.gain_model in
  let b := snd (run h (UseGpu true) (Examples.loaded Examples.gain_model)) in
  reachable b /\ sound b /\ m_loaded b = 1.
Proof.
  intros h b.
  assert (Hr : reachable b).
  { apply reachable_run; [|discriminate].
    change (Examples.loaded Examples.gain_model)
      with (snd (run h (Load "model.ts") new_backend)).
    apply reachable_run; [apply reachable_new | discriminate]. }
  split; [exact Hr|]. split; [exact (backend_invariants b Hr) | reflexivity].
Defined.

(** X9: once a model is loaded the backend stays loaded, whatever is
    called on it afterwards: a failed [load] or [reload] keeps the previous
    model, and nothing resets the flag. *)
Theorem loaded_is_forever h op b :
  m_loaded b = 1 -> m_loaded (snd (run h op b)) = 1.
Proof.
  intros Hl. destruct (reconfigures op) eqn:Hop.
  - destruct op; try discriminate Hop; cbn [run]; rewrite ?void_snd.
    + destruct (load_loaded_or_same h path b) as [Hk | H]; [|exact H].
      apply catalog_eq in Hk. destruct Hk as [-> _]. exact Hl.
    + rewrite reload_is_load.
      destruct (load_loaded_or_same h (m_path b) b) as [Hk | H]; [|exact H].
      apply catalog_eq in Hk. destruct Hk as [-> _]. exact Hl.
    + pose proof (keeps_use_gpu h value b) as Hk.
      apply catalog_eq in Hk. destruct Hk as [-> _]. exact Hl.
  - pose proof (only_configuration_kept h op b Hop) as H.
    unfold configuration in H. inversion H as [[E1 E2 E3 E4 E5 E6 E7 E8]].
    rewrite E1. exact Hl.
Qed.

Lemma loaded_is_forever_witness :
  let h := Examples.host_with "model.ts" Examples.gain_model in
  let b := Examples.loaded Examples.gain_model in
  m_loaded b = 1
  /\ fst (load h "missing.ts" b) = Val 1
  /\ m_loaded (snd (run h (Load "missing.ts") b)) = 1.
Proof.
  intros h b.
  assert (H : m_loaded b = 1) by reflexivity.
  split; [exact H|]. split; [reflexivity|].
  exact (loaded_is_forever h (Load "missing.ts") b H).
Defined.

(** X10: [use_gpu(true)] selects CUDA when the host has it, otherwise MPS
    when the host has it, otherwise the CPU, and prints
    [sending model to <device>] on the standard output; [use_gpu(false)]
    selects the CPU and prints nothing.  The device is assigned to
    [m_device] before the module is moved, outside any [try]: when a model
    is loaded and the machine takes the module on the device, the module
    is moved and the call returns; on a backend that has loaded nothing,
    or when the move raises, the exception leaves [use_gpu] with
    [m_device] already changed and the module where it was.  In every case
    nothing else of the backend changes ([m_use_gpu] included), and a
    model loaded afterwards is placed on the selected device. *)
Theorem use_gpu_selects_device h value b :
  let b' := snd (use_gpu h value b) in
  let d := select_device h value in
  let line := "sending model to " ++ device_name d in
  (d = CUDA <-> value = true /\ hasCUDA h = true)
  /\ (d = MPS <-> value = true /\ hasCUDA h = false /\ hasMPS h = true)
  /\ m_device b' = d
  /\ std_cout b' = (std_cout b ++ if value then [line] else [])%list
  /\ std_cerr b' = std_cerr b
  /\ m_use_gpu b' = m_use_gpu b
  /\ catalog b' = catalog b
  /\ calls b' = calls b
  /\ (m_loaded b <> 0 -> can_move h (m_model b) d = true ->
      fst (use_gpu h value b) = Val tt
      /\ m_model b' = module_to d (m_model b))
  /\ (m_loaded b = 0 \/ can_move h (m_model b) d = false ->
      is_exc (fst (use_gpu h value b)) /\ m_model b' = m_model b)
  /\ forall h' path fresh,
       constructed h' path d = Val fresh ->
       m_device (snd (load h' path b')) = d
       /\ device (m_model (snd (load h' path b'))) = d.
Proof.
  intros b' d line. subst line.
  assert (Hd : m_device b' = d).
  { subst b'. rewrite use_gpu_runs. fold d. unfold to_device.
    destruct (m_loaded b =? 0); [|destruct (can_move h _ _)];
      destruct value; reflexivity. }
  split.
  { subst d. unfold select_device.
    destruct value, (hasCUDA h), (hasMPS h); split;
      try discriminate; try tauto; intros (? & ?); discriminate. }
  split.
  { subst d. unfold select_device.
    destruct value, (hasCUDA h), (hasMPS h); split;
      try discriminate; try tauto; intros (? & ? & ?); discriminate. }
  split; [exact Hd|].
  assert (Hrest : forall P : Backend_MSG -> Prop,
             (forall printed m,
                 (printed = (if value
                             then print_std_cout
                                    ("sending model to " ++ device_name d) b
                             else b)) ->
                 P (set_device d printed)
                 /\ P (set_model m (set_device d printed))) ->
             P b').
  { intros P HP. subst b'. rewrite use_gpu_runs. fold d. unfold to_device.
    destruct (m_loaded b =? 0); [|destruct (can_move h _ _)]; cbn [snd];
      eapply HP; reflexivity. }
  split.
  { apply Hrest. intros printed m ->. destruct value; cbn;
      rewrite ?app_nil_r; split; reflexivity. }
  split; [apply Hrest; intros printed m ->; destruct value; split; reflexivity|].
  split; [apply Hrest; intros printed m ->; destruct value; split; reflexivity|].
  split; [apply Hrest; intros printed m ->; destruct value; split; reflexivity|].
  split; [apply Hrest; intros printed m ->; destruct value; split; reflexivity|].
  split.
  { intros Hl Hm. subst b'. rewrite use_gpu_runs. fold d. unfold to_device.
    destruct (Z.eqb_spec (m_loaded b) 0); [contradiction|].
    rewrite Hm. destruct value; split; reflexivity. }
  split.
  { intros Hcase. subst b'. rewrite use_gpu_runs. fold d. unfold to_device.
    destruct (Z.eqb_spec (m_loaded b) 0) as [E|E].
    - destruct value; split; (exact I || reflexivity).
    - destruct Hcase as [H0 | Hm]; [contradiction|]. rewrite Hm.
      destruct value; split; (exact I || reflexivity). }
  intros h' path fresh Hc. rewrite <- Hd in Hc.
  destruct (load_installs h' path b' fresh Hc)
    as (_ & _ & _ & Hdev & _ & _ & _ & Hdf).
  destruct (constructed_eval _ _ _ _ Hc) as (_ & Hfd).
  rewrite Hdev, Hdf, Hfd. split; exact Hd || reflexivity.
Qed.

Lemma use_gpu_selects_device_witness :
  let h := {| jit_load := jit_load (Examples.host_with "model.ts"
                                                        Examples.gain_model);
              hasCUDA := false; hasMPS := true;
              can_move := fun _ d => match d with CUDA => false | _ => true end |} in
  let b := Examples.loaded Examples.gain_model in
  let b' := snd (use_gpu h true b) in
  m_loaded b <> 0
  /\ can_move h (m_model b) (select_device h true) = true
  /\ select_device h true = MPS
  /\ fst (use_gpu h true b) = Val tt
  /\ device (m_model b') = MPS
  /\ std_cout b' = ["sending model to mps"]
  /\ (m_loaded new_backend = 0
      /\ is_exc (fst (use_gpu h true new_backend))
      /\ m_device (snd (use_gpu h true new_backend)) = MPS)
  /\ constructed h "model.ts" MPS
     = Val (module_to MPS (module_eval Examples.gain_model))
  /\ device (m_model (snd (load h "model.ts"
                                (snd (use_gpu h true new_backend))))) = MPS.
Proof.
  intros h b b'.
  assert (H1 : m_loaded b <> 0) by discriminate.
  assert (H2 : can_move h (m_model b) (select_device h true) = true)
    by reflexivity.
  assert (H3 : m_loaded new_backend = 0) by reflexivity.
  assert (H4 : constructed h "model.ts" MPS
               = Val (module_to MPS (module_eval Examples.gain_model)))
    by reflexivity.
  split; [exact H1|]. split; [exact H2|]. split; [reflexivity|].
  destruct (use_gpu_selects_device h true b)
    as (_ & _ & _ & Hout & _ & _ & _ & _ & Hok & _).
  destruct (Hok H1 H2) as (Hr & Hm).
  split; [exact Hr|]. split; [subst b'; rewrite Hm; reflexivity|].
  split; [subst b'; rewrite Hout; reflexivity|].
  destruct (use_gpu_selects_device h true new_backend)
    as (_ & _ & Hd & _ & _ & _ & _ & _ & _ & Hfail & Hload).
  split.
  { split; [exact H3|]. split; [exact (proj1 (Hfail (or_introl H3)))|].
    exact Hd. }
  split; [exact H4|].
  exact (proj2 (Hload h "model.ts" _ H4)).
Defined.




End BackendMoreFacts.

(** ** More on the signal object *)

Module FrontendMoreFacts.
Import Cxx Sizing Float32 Torch Frontend Max SizingFacts.

Lemma least_power_below_double x r :
  1 <= x -> least_power_of_two_geq x r -> r < 2 * x.
Proof.
  intros Hx ((k & Hk & ->) & Hge & Hmin).
  destruct (Z.eq_dec k 0) as [-> | Hne]; [change (2 ^ 0) with 1; lia|].
  destruct (Z.le_gt_cases x (2 ^ (k - 1))) as [Hle | Hgt].
  - specialize (Hmin (k - 1) ltac:(lia) Hle).
    assert (2 ^ (k - 1) < 2 ^ k) by (apply Z.pow_lt_mono_r; lia). lia.
  - replace k with (k - 1 + 1) by lia.
    rewrite Z.pow_add_r by lia. lia.
Qed.

Section Sizes.

Context {R : RateBuffer}.
Implicit Types o : Frontend.nn_msg_tilde R.

(** X11: for a higher ratio of at least 1 and a requested size held in an
    [int], the resolution of the buffer size returns and changes no other
    member than the size and the error console.  For a request of at most
    [2^30] the size it settles on is at least the higher ratio, at least
    the request, and less than twice the larger of the two.  For a request
    above [2^30] that is at least the higher ratio, the size it settles on
    is negative. *)
Theorem resolve_buffer_size_bounds o :
  1 <= m_higher_ratio o ->
  in_int (m_buffer_size o) ->
  let o' := snd (resolve_buffer_size o) in
  fst (resolve_buffer_size o) = Val tt
  /\ (exists lines,
        o' = mkObject R (m_model o) (m_method o) (settable_attributes o)
                      (m_in_dim o) (m_in_ratio o) (m_out_dim o)
                      (m_out_ratio o) (m_higher_ratio o) (input_msg o)
                      (output_msg o) (m_buffer_size o') (m_out_buffer o)
                      (enable o) (gpu o) (cerr o ++ lines)%list)
  /\ (m_buffer_size o <= 2 ^ 30 ->
      m_higher_ratio o <= m_buffer_size o'
      /\ m_buffer_size o <= m_buffer_size o'
      /\ m_buffer_size o'
         < 2 * Z.max (m_higher_ratio o) (m_buffer_size o))
  /\ (2 ^ 30 < m_buffer_size o -> m_higher_ratio o <= m_buffer_size o ->
      m_buffer_size o' < 0).
Proof.
  intros Hhr Hint o'.
  assert (Hin : in_unsigned (m_buffer_size o) \/ m_buffer_size o < 0).
  { unfold in_int, INT_MIN, INT_MAX, in_unsigned, UINT_MAX in *. lia. }
  destruct (Z.eq_dec (m_buffer_size o) 0) as [E0 | N0].
  { subst o'. unfold resolve_buffer_size. rewrite E0.
    cbn -[Z.mul Z.max Z.pow].
    split; [reflexivity|]. split.
    - exists []. rewrite app_nil_r. reflexivity.
    - split; [lia | intros; lia]. }
  destruct (Z.lt_ge_cases (m_buffer_size o) (m_higher_ratio o)) as [Hlt | Hge].
  { subst o'. unfold resolve_buffer_size.
    destruct (Z.eqb_spec (m_buffer_size o) 0); [contradiction|].
    destruct (Z.ltb_spec (m_buffer_size o) (m_higher_ratio o)); [|lia].
    cbn -[Z.mul Z.max Z.pow].
    split; [reflexivity|]. split; [eexists; reflexivity|].
    split; [lia | intros; lia]. }
  pose proof (resolve_buffer_size_range o (conj Hhr Hge) Hint) as [Hlow Hhigh].
  assert (Hres : exists p, resolve_buffer_size o
                           = (Val tt, set_buffer_size (wrap_int p) o)).
  { unfold resolve_buffer_size.
    destruct (Z.eqb_spec (m_buffer_size o) 0); [contradiction|].
    destruct (Z.ltb_spec (m_buffer_size o) (m_higher_ratio o)); [lia|].
    rewrite power_ceil_in_int by (assumption || lia).
    destruct (power_ceil_returns (m_buffer_size o)) as (p & ->).
    { destruct Hin; [assumption | lia]. }
    eexists; reflexivity. }
  destruct Hres as (p & Hres).
  split; [now rewrite Hres|]. split.
  { exists []. subst o'. rewrite Hres, app_nil_r. reflexivity. }
  split.
  - intros Hle. specialize (Hlow Hle). fold o' in Hlow.
    assert (H1 : 1 <= m_buffer_size o) by lia.
    pose proof (least_power_below_double _ _ H1 Hlow) as Hd.
    destruct Hlow as (_ & Hx & _). lia.
  - intros Hgt _. specialize (Hhigh Hgt). fold o' in Hhigh.
    rewrite Hhigh. unfold INT_MIN. lia.
Qed.

End Sizes.

Lemma resolve_buffer_size_bounds_witness :
  let o := Examples.object_with 10 4 in
  1 <= m_higher_ratio o /\ in_int (m_buffer_size o)
  /\ m_buffer_size o <= 2 ^ 30
  /\ m_buffer_size (snd (resolve_buffer_size o)) = 16
  /\ m_buffer_size (snd (resolve_buffer_size o))
     < 2 * Z.max (m_higher_ratio o) (m_buffer_size o).
Proof.
  intros o.
  assert (H1 : 1 <= m_higher_ratio o) by (simpl; lia).
  assert (H2 : in_int (m_buffer_size o))
    by (unfold in_int, INT_MIN, INT_MAX; simpl; lia).
  assert (H3 : m_buffer_size o <= 2 ^ 30) by (simpl; lia).
  split; [exact H1|]. split; [exact H2|]. split; [exact H3|].
  split; [reflexivity|].
  exact (proj2 (proj2 (proj1 (proj2 (proj2
           (resolve_buffer_size_bounds o H1 H2))) H3))).
Defined.

(** *** The message [nn_msg_in] *)

Lemma push_values_numbers args :
  forall acc values,
    map number_of args = map Some values ->
    push_values args acc = ((acc ++ values)%list, None).
Proof.
  induction args as [|a args IH]; intros acc values H.
  - destruct values; [|discriminate H]. cbn. now rewrite app_nil_r.
  - destruct values as [|v values]; [discriminate H|].
    cbn [map] in H. injection H as Ha Hrest.
    cbn [push_values].
    destruct a; cbn in Ha; try discriminate Ha; injection Ha as <-;
      rewrite (IH _ values Hrest), <- app_assoc; reflexivity.
Qed.

Lemma push_values_stops pre a rest :
  forall acc kept,
    map number_of pre = map Some kept ->
    number_of a = None ->
    push_values (pre ++ a :: rest)%list acc = ((acc ++ kept)%list, Some a).
Proof.
  induction pre as [|p pre IH]; intros acc kept H Ha.
  - destruct kept; [|discriminate H]. cbn [app push_values].
    rewrite app_nil_r. destruct a; cbn in Ha; try discriminate Ha; reflexivity.
  - destruct kept as [|v kept]; [discriminate H|].
    cbn [map] in H. injection H as Hp Hrest.
    cbn [app push_values].
    destruct p; cbn in Hp; try discriminate Hp; injection Hp as <-;
      rewrite (IH _ kept Hrest Ha), <- app_assoc; reflexivity.
Qed.

Section Messages.

Context {R : RateBuffer}.
Implicit Types o : Frontend.nn_msg_tilde R.

(** X12: the handler of [nn_msg_in] of the signal object always returns;
    it changes nothing but [input_msg] and the error console, on which it
    prints at most one line, and so it never calls the model.  A message
    whose number of atoms is not [m_in_dim] leaves [input_msg] empty and
    prints one line.  A message of the right size in which an atom is
    neither a float nor an integer prints one line and leaves in
    [input_msg] the values of the atoms before it.  A message of the right
    size made of numbers only stores their values, converted to [float],
    in their order, and prints nothing. *)
Theorem nn_msg_in_stores_or_rejects (T : AtomText) (args : atoms) o :
  let o' := snd (Messages.nn_msg_in T args o) in
  fst (Messages.nn_msg_in T args o) = Val tt
  /\ (exists lines,
        (List.length lines <= 1)%nat
        /\ o' = mkObject R (m_model o) (m_method o) (settable_attributes o)
                         (m_in_dim o) (m_in_ratio o) (m_out_dim o)
                         (m_out_ratio o) (m_higher_ratio o) (input_msg o')
                         (output_msg o) (m_buffer_size o) (m_out_buffer o)
                         (enable o) (gpu o) (cerr o ++ lines)%list)
  /\ (size_differs args (m_in_dim o) = true ->
      input_msg o' = []
      /\ cerr o' = (cerr o ++ [dims_line args (m_in_dim o)])%list)
  /\ (size_differs args (m_in_dim o) = false ->
      (forall pre a rest kept,
          args = (pre ++ a :: rest)%list ->
          map number_of pre = map Some kept ->
          number_of a = None ->
          input_msg o' = kept
          /\ cerr o' = (cerr o ++ [values_line T a])%list)
      /\ (forall values,
             map number_of args = map Some values ->
             input_msg o' = values /\ cerr o' = cerr o
             /\ Z.of_nat (List.length values) = m_in_dim o mod 2 ^ 64)).
Proof.
  intros o'. subst o'. unfold Messages.nn_msg_in.
  change (m_in_dim (Messages.set_input_msg [] o)) with (m_in_dim o).
  change (input_msg (Messages.set_input_msg [] o)) with (@nil float).
  destruct (size_differs args (m_in_dim o)) eqn:Hsize.
  { split; [reflexivity|]. split.
    - eexists [_]. split; [cbn; lia | reflexivity].
    - split; [intros _; split; reflexivity | discriminate]. }
  destruct (push_values args []) as [values [a|]] eqn:Hpush.
  - split; [reflexivity|]. split.
    + eexists [_]. split; [cbn; lia | reflexivity].
    + split; [discriminate|]. intros _. split.
      * intros pre a' rest kept -> Hpre Ha.
        rewrite (push_values_stops pre a' rest [] kept Hpre Ha) in Hpush.
        injection Hpush as <- <-. split; reflexivity.
      * intros vs Hvs. rewrite (push_values_numbers args [] vs Hvs) in Hpush.
        discriminate Hpush.
  - split; [reflexivity|]. split.
    + exists []. split; [cbn; lia|]. cbn. rewrite app_nil_r. reflexivity.
    + split; [discriminate|]. intros _. split.
      * intros pre a' rest kept -> Hpre Ha.
        rewrite (push_values_stops pre a' rest [] kept Hpre Ha) in Hpush.
        discriminate Hpush.
      * intros vs Hvs. rewrite (push_values_numbers args [] vs Hvs) in Hpush.
        injection Hpush as <-. split; [reflexivity|]. split; [reflexivity|].
        unfold size_differs in Hsize. apply negb_false_iff in Hsize.
        apply Z.eqb_eq in Hsize. rewrite <- Hsize.
        rewrite <- (length_map number_of args), Hvs, length_map. reflexivity.
Qed.

(** X13: when the model is loaded, the object enabled and the frame count
    within the buffer size, the audio callback calls [perform] of the
    backend exactly once, on the values the last message has left in
    [input_msg]: the backend and [output_msg] it leaves are those of that
    call, whatever the rate buffers do.  The audio input takes no part in
    it, and the callback leaves the method name, the sizes, the enable
    flag and the error console as they were. *)
Theorem audio_callback_calls_backend_once o input output :
  Backend.is_loaded (m_model o) = true -> enable o = true ->
  frame_count output <= m_buffer_size o ->
  let once := Backend.perform (input_msg o) (m_method o)
                              (m_model o, output_msg o) in
  let o' := snd (audio_callback input output o) in
  m_model o' = fst (snd once)
  /\ output_msg o' = snd (snd once)
  /\ (forall e, fst once = Exc e -> fst (audio_callback input output o) = Exc e)
  /\ (forall other, audio_callback other output o
                    = audio_callback input output o)
  /\ m_method o' = m_method o
  /\ m_in_dim o' = m_in_dim o /\ m_out_dim o' = m_out_dim o
  /\ m_buffer_size o' = m_buffer_size o /\ enable o' = enable o
  /\ cerr o' = cerr o.
Proof.
  intros Hl He Hsz once o'.
  assert (Hin : forall other, audio_callback other output o
                              = audio_callback input output o).
  { intros other. unfold audio_callback.
    destruct (_ || _); [reflexivity|].
    destruct (_ <? _); reflexivity. }
  assert (E : audio_callback input output o = perform input output o).
  { unfold audio_callback. rewrite Hl, He. cbn [negb orb].
    destruct (Z.ltb_spec (m_buffer_size o) (frame_count output)); [lia|].
    reflexivity. }
  split; [|split; [|split; [|split; [exact Hin|]]]]; clear Hin;
    subst o'; rewrite E; clear E; unfold perform, bind; fold once;
    destruct once as [r [b out]]; cbn [fst snd].
  all: destruct r as [[]|e|]; cbn [fst snd];
    [|repeat split; cbn; intros; congruence
     |repeat split; cbn; intros; congruence].
  all: set (o1 := set_output_msg out (set_backend b o)).
  all: destruct (vec_at (m_out_buffer o1) 0) as [r0|e|];
    [|repeat split; cbn; intros; congruence
     |repeat split; cbn; intros; congruence].
  all: destruct (write_at (m_out_buffer o1) 0 _) as [rs|e|];
    [|repeat split; cbn; intros; congruence
     |repeat split; cbn; intros; congruence].
  all: cbn [fst snd].
  all: destruct (for_range _ _ _ _) as [[rs' chans]|e|];
    repeat split; cbn; intros; congruence.
Qed.

End Messages.

Lemma nn_msg_in_stores_or_rejects_witness :
  let o := Examples.object_loaded 4 in
  let T := MessageExamples.plain_text in
  size_differs [A_LONG 3] (m_in_dim o) = false
  /\ map number_of [A_LONG 3] = map Some [S754_finite false 12582912 (-22)]
  /\ input_msg (snd (Messages.nn_msg_in T [A_LONG 3] o))
     = [S754_finite false 12582912 (-22)]
  /\ size_differs [A_SYM "three"] (m_in_dim o) = false
  /\ number_of (A_SYM "three") = None
  /\ cerr (snd (Messages.nn_msg_in T [A_SYM "three"] o))
     = (cerr o ++ ["All values must be floats or ints (three)"])%list.
Proof.
  intros o T.
  assert (H1 : size_differs [A_LONG 3] (m_in_dim o) = false) by reflexivity.
  assert (H2 : map number_of [A_LONG 3] = map Some [S754_finite false 12582912 (-22)])
    by (vm_compute; reflexivity).
  assert (H3 : size_differs [A_SYM "three"] (m_in_dim o) = false)
    by reflexivity.
  assert (H4 : number_of (A_SYM "three") = None) by reflexivity.
  split; [exact H1|]. split; [exact H2|]. split.
  - exact (proj1 (proj2 (proj2 (proj2 (proj2
             (nn_msg_in_stores_or_rejects T [A_LONG 3] o))) H1) _ H2)).
  - split; [exact H3|]. split; [exact H4|].
    exact (proj2 (proj1 (proj2 (proj2 (proj2
             (nn_msg_in_stores_or_rejects T [A_SYM "three"] o))) H3)
             [] (A_SYM "three") [] [] eq_refl eq_refl H4)).
Defined.

Lemma audio_callback_calls_backend_once_witness :
  let o := Examples.object_loaded 4 in
  let output := Examples.stereo_block in
  Backend.is_loaded (m_model o) = true /\ enable o = true
  /\ frame_count output <= m_buffer_size o
  /\ output_msg (snd (audio_callback output output o))
     = snd (snd (Backend.perform (input_msg o) (m_method o)
                                 (m_model o, output_msg o))).
Proof.
  intros o output.
  assert (H1 : Backend.is_loaded (m_model o) = true) by reflexivity.
  assert (H2 : enable o = true) by reflexivity.
  assert (H3 : frame_count output <= m_buffer_size o) by (simpl; lia).
  split; [exact H1|]. split; [exact H2|]. split; [exact H3|].
  exact (proj1 (proj2 (audio_callback_calls_backend_once o output output
                         H1 H2 H3))).
Defined.

End FrontendMoreFacts.

(** ** The message object [nn_msg] *)

Module NnMsgFacts.
Import Cxx Float32 Torch Backend BackendSpec BackendMore Max NnMsg.

(** X14: a message [nn_msg_in] that the message object rejects, because
    its number of atoms is not [m_in_dim] or because, with the right
    number of atoms, one of them is neither a float nor an integer, never
    reaches the model and sends nothing: the handler returns, the backend,
    [output_msg], the outlets and the console [cout] are as before, and one
    line is printed on the error console.  [input_msg] is left empty in
    the first case, and holds the values before the offending atom in the
    second. *)
Theorem rejected_message_sends_nothing (T : AtomText) (args : atoms) o :
  let o' := snd (nn_msg_in T args o) in
  (size_differs args (m_in_dim o) = true ->
   nn_msg_in T args o
   = (Val tt,
      on_cerr (fun l => endl (put (dims_line args (m_in_dim o)) l))
              (set_input_msg [] o)))
  /\ (forall pre a rest kept,
         size_differs args (m_in_dim o) = false ->
         args = (pre ++ a :: rest)%list ->
         map number_of pre = map Some kept ->
         number_of a = None ->
         nn_msg_in T args o
         = (Val tt,
            on_cerr (fun l => endl (put (values_line T a) l))
                    (set_input_msg kept o)))
  /\ (size_differs args (m_in_dim o) = true
      \/ (exists a, In a args /\ number_of a = None) ->
      fst (nn_msg_in T args o) = Val tt
      /\ m_model o' = m_model o /\ output_msg o' = output_msg o
      /\ m_outlets o' = m_outlets o /\ cout o' = cout o
      /\ List.length (posted (cerr o'))
         = S (List.length (posted (cerr o)))).
Proof.
  intros o'.
  assert (H1 : size_differs args (m_in_dim o) = true ->
               nn_msg_in T args o
               = (Val tt,
                  on_cerr (fun l => endl (put (dims_line args (m_in_dim o)) l))
                          (set_input_msg [] o))).
  { intros H. unfold nn_msg_in.
    change (m_in_dim (set_input_msg [] o)) with (m_in_dim o).
    rewrite H. reflexivity. }
  assert (H2 : forall pre a rest kept,
             size_differs args (m_in_dim o) = false ->
             args = (pre ++ a :: rest)%list ->
             map number_of pre = map Some kept ->
             number_of a = None ->
             nn_msg_in T args o
             = (Val tt,
                on_cerr (fun l => endl (put (values_line T a) l))
                        (set_input_msg kept o))).
  { intros pre a rest kept H -> Hpre Ha. unfold nn_msg_in.
    change (m_in_dim (set_input_msg [] o)) with (m_in_dim o).
    change (input_msg (set_input_msg [] o)) with (@nil float).
    rewrite H.
    rewrite (FrontendMoreFacts.push_values_stops pre a rest [] kept Hpre Ha).
    reflexivity. }
  split; [exact H1|]. split; [exact H2|].
  intros Hcase.
  destruct (size_differs args (m_in_dim o)) eqn:Hsize.
  { subst o'. rewrite (H1 eq_refl). cbn.
    rewrite length_app. cbn. repeat split; lia. }
  destruct Hcase as [Hcase | (a & Hin & Ha)]; [discriminate Hcase|].
  assert (Hsplit : exists pre a' rest kept,
             args = (pre ++ a' :: rest)%list
             /\ map number_of pre = map Some kept /\ number_of a' = None).
  { clear - Hin Ha. induction args as [|x args IH]; [contradiction|].
    destruct (number_of x) as [v|] eqn:Hx.
    - destruct Hin as [-> | Hin]; [congruence|].
      destruct (IH Hin) as (pre & a' & rest & kept & -> & Hpre & Ha').
      exists (x :: pre), a', rest, (v :: kept).
      split; [reflexivity|]. split; [cbn; now rewrite Hx, Hpre | exact Ha'].
    - exists [], x, args, []. repeat split. exact Hx. }
  destruct Hsplit as (pre & a' & rest & kept & Hargs & Hpre & Ha').
  subst o'. rewrite (H2 pre a' rest kept eq_refl Hargs Hpre Ha'). cbn.
  rewrite length_app. cbn. repeat split; lia.
Qed.

Lemma rejected_message_sends_nothing_witness :
  let o := MessageExamples.message_object Examples.two_samples [] 2 in
  let args := [A_LONG 1; A_SYM "two"] in
  size_differs args (m_in_dim o) = false
  /\ number_of (A_SYM "two") = None
  /\ nn_msg_in MessageExamples.plain_text args o
     = (Val tt,
        on_cerr (fun l => endl (put "All values must be floats or ints (two)" l))
                (set_input_msg [S754_finite false 8388608 (-23)] o)).
Proof.
  intros o args.
  assert (H1 : size_differs args (m_in_dim o) = false) by reflexivity.
  assert (H2 : number_of (A_SYM "two") = None) by reflexivity.
  split; [exact H1|]. split; [exact H2|].
  exact (proj1 (proj2 (rejected_message_sends_nothing
                         MessageExamples.plain_text args o))
               [A_LONG 1] (A_SYM "two") [] [S754_finite false 8388608 (-23)]
               H1 eq_refl eq_refl H2).
Defined.



(** *** The console protocol *)

Lemma keeps_on_model {X A} (proj : nn_msg -> X) (m : M Backend_MSG A) :
  (forall b o, proj (set_model b o) = proj o) -> keeps proj (on_model m).
Proof.
  intros H o. unfold on_model. destruct (m (m_model o)) as [r b]. apply H.
Qed.

Lemma keeps_try_catch_string {S X A} (proj : S -> X) (body : M S A) handler :
  keeps proj body -> (forall msg, keeps proj (handler msg)) ->
  keeps proj (try_catch_string body handler).
Proof.
  intros Hb Hh s. unfold try_catch_string. specialize (Hb s).
  destruct (body s) as [[a|[what|msg|msg]|] s']; cbn [snd] in *; try exact Hb.
  rewrite Hh. exact Hb.
Qed.

Lemma keeps_cout_lines {X} (proj : nn_msg -> X) lines :
  (forall f o, proj (on_cout f o) = proj o) -> keeps proj (cout_lines lines).
Proof.
  intros H. induction lines as [|line lines IH]; cbn [cout_lines].
  - apply FrameFacts.keeps_ret.
  - apply FrameFacts.keeps_bind; [|intros _; exact IH].
    apply FrameFacts.keeps_modify. intros o. apply H.
Qed.

(** X16: whatever the selector and its arguments, the handler [anything]
    writes only the backend and the two consoles: the method name, the
    cached list of settable attributes, the dimensions, the stored input
    and output values and the outlets are as before.  So the console
    protocol never sends a message, and a [reload] does not refresh what
    the constructor has read from the previous model. *)
Theorem anything_keeps_wiring h P T args o :
  wiring (snd (anything h P T args o)) = wiring o.
Proof.
  assert (Hm : forall A (m : M Backend_MSG A), keeps wiring (on_model m)).
  { intros A m. apply keeps_on_model. reflexivity. }
  assert (He : forall line, keeps wiring (cerr_line line)).
  { intros line. apply FrameFacts.keeps_modify. reflexivity. }
  assert (Hc : forall f, keeps wiring (modify (on_cout f))).
  { intros f. apply FrameFacts.keeps_modify. reflexivity. }
  assert (Hl : forall lines, keeps wiring (cout_lines lines)).
  { intros lines. apply keeps_cout_lines. reflexivity. }
  revert o. change (keeps wiring (anything h P T args)).
  unfold anything.
  repeat first
    [ apply Hm | apply He | apply Hc | apply Hl
    | apply keeps_try_catch_string; [|intros ?]
    | apply FrameFacts.keeps_ret | apply FrameFacts.keeps_lift
    | apply FrameFacts.keeps_gets
    | apply FrameFacts.keeps_bind; [|intros ?]
    | match goal with
      | |- keeps _ (if ?c then _ else _) => destruct c
      end ].
Qed.

Lemma has_cached_attribute_in name o :
  NnMsg.has_settable_attribute name o = true <-> In name (settable_attributes o).
Proof.
  unfold NnMsg.has_settable_attribute. rewrite existsb_exists. split.
  - intros (x & Hin & Hx). apply String.eqb_eq in Hx. now subst.
  - intros Hin. exists name. split; [exact Hin | apply String.eqb_refl].
Qed.

Lemma anything_set h P T a0 a1 a2 more o :
  atom_symbol T a0 = "set" ->
  anything h P T (a0 :: a1 :: a2 :: more) o
  = if NnMsg.has_settable_attribute (atom_symbol T a1) o then
      try_catch_string
        (on_model (Backend.set_attribute P (atom_symbol T a1)
                                         (map (atom_string T) (a2 :: more))))
        (fun message => cerr_line message) o
    else
      cerr_line ("model does not have attribute " ++ atom_symbol T a1) o.
Proof.
  intros H. unfold anything. unfold bind at 1. unfold lift at 1.
  change (vec_at (a0 :: a1 :: a2 :: more) 0) with (@Val atom a0).
  cbv beta iota. rewrite H.
  change (String.eqb "set" "reload") with false.
  change (String.eqb "set" "get_attributes") with false.
  change (String.eqb "set" "get_methods") with false.
  change (String.eqb "set" "get") with false.
  change (String.eqb "set" "set") with true.
  cbv iota.
  change (List.length (a0 :: a1 :: a2 :: more) <? 3)%nat with false.
  cbv iota. unfold bind at 1. unfold lift at 1.
  change (vec_at (a0 :: a1 :: a2 :: more) 1) with (@Val atom a1).
  cbv beta iota. unfold bind at 1. unfold gets at 1. cbv beta iota.
  destruct (NnMsg.has_settable_attribute (atom_symbol T a1) o); reflexivity.
Qed.

(** X17: the selector [set], with a name and at least one argument, looks
    the name up in the list of settable attributes that the object has
    cached, not in the model.  A name that is not in the list leaves the
    backend untouched and prints one line.  For a name in the list the
    handler calls [set_attribute] of the backend once, on the texts of the
    arguments after the name; it prints nothing when the call returns,
    prints the message as one line and returns normally when the call
    throws a string, and lets any other exception through.  So no thrown
    string ever leaves the handler on this selector, and [cout] is never
    written. *)
Theorem anything_set_is_guarded h P T a0 a1 a2 more o :
  atom_symbol T a0 = "set" ->
  let args := a0 :: a1 :: a2 :: more in
  let name := atom_symbol T a1 in
  let attempt := Backend.set_attribute P name (map (atom_string T) (a2 :: more))
                                       (m_model o) in
  let o' := snd (anything h P T args o) in
  (~ In name (settable_attributes o) ->
   anything h P T args o
   = (Val tt,
      on_cerr (fun l => endl (put ("model does not have attribute " ++ name) l))
              o))
  /\ (In name (settable_attributes o) ->
      m_model o' = snd attempt
      /\ (fst attempt = Val tt ->
          fst (anything h P T args o) = Val tt /\ cerr o' = cerr o)
      /\ (forall message,
             fst attempt = Exc (thrown_string message) ->
             fst (anything h P T args o) = Val tt
             /\ cerr o' = endl (put message (cerr o)))
      /\ (forall e,
             fst attempt = Exc e -> (forall message, e <> thrown_string message) ->
             fst (anything h P T args o) = Exc e /\ cerr o' = cerr o))
  /\ (forall message, fst (anything h P T args o) <> Exc (thrown_string message))
  /\ cout o' = cout o.
Proof.
  intros H args name attempt o'. subst o' args.
  rewrite (anything_set h P T a0 a1 a2 more o H). fold name.
  pose proof (has_cached_attribute_in name o) as Hin.
  destruct (NnMsg.has_settable_attribute name o).
  - assert (Hyes : In name (settable_attributes o)) by now apply Hin.
    unfold try_catch_string, on_model. fold attempt.
    destruct attempt as [[[]|[what|msg|msg]|] b]; cbn;
      (split; [intros Hno; now elim Hno|]);
      (split; [intros _|split; [intros; discriminate | reflexivity]]);
      repeat split; intros;
      try discriminate; try congruence;
      try match goal with
          | Hne : forall message, thrown_string ?m <> thrown_string message |- _ =>
              now elim (Hne m)
          end.
  - assert (Hno : ~ In name (settable_attributes o)).
    { intros Hyes. apply Hin in Hyes. discriminate Hyes. }
    cbn. split; [reflexivity|]. split; [intros Hyes; now elim Hno|].
    split; [intros; discriminate | reflexivity].
Qed.

Lemma anything_set_is_guarded_witness :
  let h := Examples.host_with "model.ts" Examples.gain_model in
  let T := MessageExamples.plain_text in
  let o := MessageExamples.message_object Examples.gain_model ["volume"] 1 in
  atom_symbol T (A_SYM "set") = "set"
  /\ ~ In (atom_symbol T (A_SYM "gain")) (settable_attributes o)
  /\ posted (cerr (snd (anything h SpecParsing.parsers T
                                 [A_SYM "set"; A_SYM "gain"; A_SYM "true"] o)))
     = ["model does not have attribute gain"]
  /\ In (atom_symbol T (A_SYM "volume")) (settable_attributes o)
  /\ fst (anything h SpecParsing.parsers T
                   [A_SYM "set"; A_SYM "volume"; A_SYM "true"] o) = Val tt
  /\ posted (cerr (snd (anything h SpecParsing.parsers T
                                 [A_SYM "set"; A_SYM "volume"; A_SYM "true"] o)))
     = ["setter for attribute volume not found in model"].
Proof.
  intros h T o.
  assert (H0 : atom_symbol T (A_SYM "set") = "set") by reflexivity.
  assert (H1 : ~ In (atom_symbol T (A_SYM "gain")) (settable_attributes o)).
  { cbn. intros [H | []]. discriminate H. }
  assert (H2 : In (atom_symbol T (A_SYM "volume")) (settable_attributes o))
    by (left; reflexivity).
  split; [exact H0|]. split; [exact H1|]. split.
  { rewrite (proj1 (anything_set_is_guarded h SpecParsing.parsers T
                      (A_SYM "set") (A_SYM "gain") (A_SYM "true") [] o H0) H1).
    reflexivity. }
  split; [exact H2|].
  destruct (proj1 (proj2 (anything_set_is_guarded h SpecParsing.parsers T
                            (A_SYM "set") (A_SYM "volume") (A_SYM "true") [] o
                            H0)) H2) as (_ & _ & H & _).
  destruct (H "setter for attribute volume not found in model"
              ltac:(vm_compute; reflexivity)) as (Hr & Hc).
  split; [exact Hr|]. rewrite Hc. reflexivity.
Defined.

Lemma anything_get h P T a0 a1 more o :
  atom_symbol T a0 = "get" ->
  anything h P T (a0 :: a1 :: more) o
  = (found <- on_model (Backend.has_settable_attribute (atom_symbol T a1)) ;;
     if found then
       modify (on_cout (put (atom_symbol T a1))) ;;;
       modify (on_cout (put ": ")) ;;;
       text <- on_model (Backend.get_attribute_as_string (atom_symbol T a1)) ;;
       modify (on_cout (put text)) ;;;
       modify (on_cout endl)
     else
       cerr_line ("no attribute " ++ atom_symbol T a1 ++ " found in model"))%cxx
      o.
Proof.
  intros H. unfold anything. unfold bind at 1. unfold lift at 1.
  change (vec_at (a0 :: a1 :: more) 0) with (@Val atom a0).
  cbv beta iota. rewrite H.
  change (String.eqb "get" "reload") with false.
  change (String.eqb "get" "get_attributes") with false.
  change (String.eqb "get" "get_methods") with false.
  change (String.eqb "get" "get") with true.
  cbv iota.
  change (List.length (a0 :: a1 :: more) <? 2)%nat with false.
  cbv iota. unfold bind at 1. unfold lift at 1.
  change (vec_at (a0 :: a1 :: more) 1) with (@Val atom a1).
  cbv beta iota. reflexivity.
Qed.

(** X18: on an object whose backend has loaded a model, the selector
    [get], with a name, asks the model itself whether the attribute is
    settable, whatever the cached list says, and the question gets an
    answer.  When the answer is no, one line is printed on
    the error console and [cout] is left alone.  When it is yes, the
    handler reads the attribute as a string once, on the backend as the
    question left it: when the reading returns, one line made of the name,
    a colon and a space, and the text is printed on [cout]; when it raises,
    the exception leaves the handler and no line is printed. *)
Theorem anything_get_asks_the_model h P T a0 a1 more o :
  atom_symbol T a0 = "get" ->
  Backend.m_loaded (m_model o) <> 0 ->
  let args := a0 :: a1 :: more in
  let name := atom_symbol T a1 in
  let o' := snd (anything h P T args o) in
  exists found b1,
    Backend.has_settable_attribute name (m_model o) = (Val found, b1)
    /\ (found = false ->
        anything h P T args o
        = (Val tt,
           on_cerr (fun l => endl (put ("no attribute " ++ name
                                          ++ " found in model") l))
                   (set_model b1 o)))
    /\ (found = true ->
        let read := Backend.get_attribute_as_string name b1 in
        m_model o' = snd read /\ cerr o' = cerr o
        /\ (forall text,
               fst read = Val text ->
               fst (anything h P T args o) = Val tt
               /\ cout o' = endl (put text (put ": " (put name (cout o)))))
        /\ (forall e,
               fst read = Exc e ->
               fst (anything h P T args o) = Exc e
               /\ posted (cout o') = posted (cout o))).
Proof.
  intros H _ args name o'.
  destruct (LoadFacts.introspect_or_scan_returns
              "get_attributes" (fun m => map fst (attributes m)) (m_model o))
    as (names & b1 & Escan).
  set (found := existsb (fun a => String.eqb a name) names).
  assert (Hb : Backend.has_settable_attribute name (m_model o)
               = (Val found, b1)).
  { unfold Backend.has_settable_attribute, bind, get_settable_attributes.
    rewrite Escan. reflexivity. }
  assert (Hask : on_model (Backend.has_settable_attribute name) o
                 = (Val found, set_model b1 o)).
  { unfold on_model. rewrite Hb. reflexivity. }
  exists found, b1. split; [exact Hb|].
  assert (E : anything h P T (a0 :: a1 :: more) o
              = (if found then
                   modify (on_cout (put name)) ;;;
                   modify (on_cout (put ": ")) ;;;
                   text <- on_model (Backend.get_attribute_as_string name) ;;
                   modify (on_cout (put text)) ;;;
                   modify (on_cout endl)
                 else
                   cerr_line ("no attribute " ++ name ++ " found in model"))%cxx
                  (set_model b1 o)).
  { rewrite (anything_get h P T a0 a1 more o H). fold name.
    unfold bind at 1. rewrite Hask. reflexivity. }
  subst o' args. rewrite E. clear E Hask Hb Escan.
  destruct found.
  - split; [discriminate|]. intros _ read.
    unfold bind, modify, on_model. cbn [m_model on_cout set_model].
    fold read. destruct read as [[text|e|] b2]; cbn;
      repeat split; intros; try discriminate; congruence.
  - split; [reflexivity | discriminate].
Qed.

Lemma anything_get_asks_the_model_witness :
  let h := Examples.host_with "model.ts" Examples.gain_model in
  let T := MessageExamples.plain_text in
  let o := MessageExamples.message_object Examples.gain_model [] 1 in
  atom_symbol T (A_SYM "get") = "get"
  /\ Backend.m_loaded (m_model o) <> 0
  /\ settable_attributes o = []
  /\ exists found b1,
       Backend.has_settable_attribute "gain" (m_model o) = (Val found, b1)
       /\ found = true
       /\ posted (cout (snd (anything h SpecParsing.parsers T
                                      [A_SYM "get"; A_SYM "gain"] o)))
          = ["gain: false 0 0.000000 "].
Proof.
  intros h T o.
  assert (H0 : atom_symbol T (A_SYM "get") = "get") by reflexivity.
  assert (Hl : Backend.m_loaded (m_model o) <> 0) by discriminate.
  split; [exact H0|]. split; [exact Hl|]. split; [reflexivity|].
  destruct (anything_get_asks_the_model h SpecParsing.parsers T
              (A_SYM "get") (A_SYM "gain") [] o H0 Hl)
    as (found & b1 & Hask & _ & Hyes).
  exists found, b1. split; [exact Hask|].
  assert (Hf : found = true).
  { assert (E : fst (Backend.has_settable_attribute "gain" (m_model o))
                = Val true) by (vm_compute; reflexivity).
    change (atom_symbol T (A_SYM "gain")) with "gain" in Hask.
    rewrite Hask in E. now injection E. }
  split; [exact Hf|].
  destruct (Hyes Hf) as (_ & _ & Hval & _).
  assert (Eb : b1 = snd (Backend.has_settable_attribute "gain" (m_model o))).
  { change (atom_symbol T (A_SYM "gain")) with "gain" in Hask.
    now rewrite Hask. }
  destruct (Hval "false 0 0.000000 ") as (_ & Hc).
  { rewrite Eb. vm_compute. reflexivity. }
  rewrite Hc. reflexivity.
Defined.

Lemma anything_reload h P T a0 more o :
  atom_symbol T a0 = "reload" ->
  anything h P T (a0 :: more) o
  = (Val tt, set_model (snd (load h (m_path (m_model o)) (m_model o))) o).
Proof.
  intros H. unfold anything. unfold bind at 1. unfold lift at 1.
  change (vec_at (a0 :: more) 0) with (@Val atom a0).
  cbv beta iota. rewrite H.
  change (String.eqb "reload" "reload") with true. cbv iota.
  unfold bind, on_model. rewrite LoadFacts.reload_is_load.
  destruct (LoadFacts.constructed_cases h (m_path (m_model o))
                                        (m_device (m_model o)))
    as [(model & _ & Hc)|(what & Hc)].
  - destruct (LoadFacts.load_success h _ (m_model o) _ Hc)
      as (names & b1 & _ & ->). reflexivity.
  - rewrite (LoadFacts.load_failure h _ (m_model o) what Hc). reflexivity.
Qed.

(** X19: the selector [reload] loads again the file of the current path
    and drops the return code: the handler returns and writes nothing on
    the consoles of the object, whether the file could be loaded or not.
    When it could not, [load] has printed the message of the error on the
    standard error of the process and nothing else has changed; when it
    could, the methods of the backend are those of the file just read,
    while the method name, the dimensions and the cached list of settable
    attributes are still those that the constructor got from the previous
    model. *)
Theorem anything_reload_is_silent h P T a0 more o :
  atom_symbol T a0 = "reload" ->
  let args := a0 :: more in
  let path := m_path (m_model o) in
  let o' := snd (anything h P T args o) in
  fst (anything h P T args o) = Val tt
  /\ cout o' = cout o /\ cerr o' = cerr o
  /\ (forall what,
         constructed h path (m_device (m_model o)) = Exc (std_exception what) ->
         o' = set_model (print_std_cerr what (m_model o)) o)
  /\ (forall fresh,
         constructed h path (m_device (m_model o)) = Val fresh ->
         methods (Backend.m_model (m_model o')) = methods fresh
         /\ m_loaded (m_model o') = 1
         /\ m_path (m_model o') = path
         /\ std_cerr (m_model o') = std_cerr (m_model o)
         /\ settable_attributes o' = settable_attributes o
         /\ m_method o' = m_method o
         /\ m_in_dim o' = m_in_dim o /\ m_out_dim o' = m_out_dim o).
Proof.
  intros H args path o'. subst o' args.
  rewrite (anything_reload h P T a0 more o H). fold path. cbn [fst snd].
  split; [reflexivity|]. split; [reflexivity|]. split; [reflexivity|]. split.
  - intros what E. rewrite (LoadFacts.load_failure h path (m_model o) what E).
    reflexivity.
  - intros fresh E.
    destruct (BackendMoreFacts.load_installs h path (m_model o) fresh E)
      as (_ & Hl & Hp & _ & _ & Hm & _).
    destruct (LoadFacts.load_success h path (m_model o) fresh E)
      as (names & b1 & Eg & El).
    destruct (LoadFacts.discovery_keeps_module _ _ _ _ _ Eg)
      as (_ & _ & _ & _ & _ & _ & _ & Herr).
    cbn. repeat split; try assumption.
    rewrite El. exact Herr.
Qed.

Lemma anything_reload_is_silent_witness :
  let h := Examples.host_with "model.ts" Examples.gain_model in
  let T := MessageExamples.plain_text in
  let o := MessageExamples.message_object Examples.two_samples [] 1 in
  let o' := snd (anything h SpecParsing.parsers T [A_SYM "reload"] o) in
  let fresh := module_to CPU (module_eval Examples.gain_model) in
  atom_symbol T (A_SYM "reload") = "reload"
  /\ constructed h (m_path (m_model o)) (m_device (m_model o)) = Val fresh
  /\ methods (Backend.m_model (m_model o')) = methods fresh
  /\ m_in_dim o' = m_in_dim o.
Proof.
  intros h T o o' fresh.
  assert (H0 : atom_symbol T (A_SYM "reload") = "reload") by reflexivity.
  assert (H1 : constructed h (m_path (m_model o)) (m_device (m_model o))
               = Val fresh) by reflexivity.
  split; [exact H0|]. split; [exact H1|].
  destruct (anything_reload_is_silent h SpecParsing.parsers T (A_SYM "reload")
              [] o H0) as (_ & _ & _ & _ & H).
  destruct (H fresh H1) as (Hm & _ & _ & _ & _ & _ & Hd & _).
  split; [exact Hm | exact Hd].
Defined.

(** *** Listings and malformed requests *)

Lemma cout_lines_run lines :
  forall o, cout_lines lines o = (Val tt, on_cout (print_all lines) o).
Proof.
  induction lines as [|line lines IH]; intros o; cbn [cout_lines].
  - destruct o; reflexivity.
  - unfold bind, cout_line, modify. rewrite IH. reflexivity.
Qed.

Lemma print_all_posted lines :
  forall l, pending l = EmptyString ->
            print_all lines l = mkLogger (posted l ++ lines) EmptyString.
Proof.
  induction lines as [|line lines IH]; intros l Hl.
  - cbn. rewrite app_nil_r. destruct l; cbn in *; now subst.
  - cbn [print_all fold_left]. fold (print_all lines (endl (put line l))).
    rewrite IH by reflexivity. cbn. rewrite Hl, <- app_assoc. reflexivity.
Qed.

(** X20: the selector [get_attributes] prints the cached list of settable
    attributes, one name per line and in its order, without a call to the
    backend; on an object whose backend has loaded a model, the selector
    [get_methods] asks the backend for its available methods and prints
    them in the same way.  Both return and leave the error console
    alone. *)
Theorem anything_lists_names h P T a0 more o :
  let args := a0 :: more in
  let o' := snd (anything h P T args o) in
  (atom_symbol T a0 = "get_attributes" ->
   fst (anything h P T args o) = Val tt
   /\ m_model o' = m_model o /\ cerr o' = cerr o
   /\ (pending (cout o) = EmptyString ->
       cout o' = mkLogger (posted (cout o) ++ settable_attributes o)
                          EmptyString))
  /\ (atom_symbol T a0 = "get_methods" ->
      Backend.m_loaded (m_model o) <> 0 ->
      exists names b1,
        Backend.get_available_methods (m_model o) = (Val names, b1)
        /\ fst (anything h P T args o) = Val tt
        /\ m_model o' = b1 /\ cerr o' = cerr o
        /\ (pending (cout o) = EmptyString ->
            cout o' = mkLogger (posted (cout o) ++ names) EmptyString)).
Proof.
  intros args o'. subst args o'. split; [intros H | intros H _].
  - assert (E : anything h P T (a0 :: more) o
                = cout_lines (settable_attributes o) o).
    { unfold anything. unfold bind at 1. unfold lift at 1.
      change (vec_at (a0 :: more) 0) with (@Val atom a0).
      cbv beta iota. rewrite H. reflexivity. }
    rewrite E, cout_lines_run. cbn.
    repeat split. intros Hp. now apply print_all_posted.
  - destruct (LoadFacts.introspect_or_scan_returns
                "get_methods" (fun m => map fst (methods m)) (m_model o))
      as (names & b1 & Escan).
    exists names, b1. split; [exact Escan|].
    assert (E : anything h P T (a0 :: more) o
                = cout_lines names (set_model b1 o)).
    { unfold anything. unfold bind at 1. unfold lift at 1.
      change (vec_at (a0 :: more) 0) with (@Val atom a0).
      cbv beta iota. rewrite H.
      change (String.eqb "get_methods" "reload") with false.
      change (String.eqb "get_methods" "get_attributes") with false.
      change (String.eqb "get_methods" "get_methods") with true.
      cbv iota. unfold bind, on_model. unfold get_available_methods.
      rewrite Escan. reflexivity. }
    rewrite E, cout_lines_run. cbn.
    repeat split. intros Hp. now apply print_all_posted.
Qed.

Lemma anything_lists_names_witness :
  let h := Examples.host_with "model.ts" Examples.gain_model in
  let T := MessageExamples.plain_text in
  let o := MessageExamples.message_object Examples.gain_model
                                          ["volume"; "gain"] 1 in
  atom_symbol T (A_SYM "get_attributes") = "get_attributes"
  /\ atom_symbol T (A_SYM "get_methods") = "get_methods"
  /\ Backend.m_loaded (m_model o) <> 0
  /\ pending (cout o) = EmptyString
  /\ cout (snd (anything h SpecParsing.parsers T [A_SYM "get_attributes"] o))
     = mkLogger ["volume"; "gain"] EmptyString
  /\ fst (anything h SpecParsing.parsers T [A_SYM "get_methods"] o) = Val tt.
Proof.
  intros h T o.
  assert (H0 : atom_symbol T (A_SYM "get_attributes") = "get_attributes")
    by reflexivity.
  assert (H1 : pending (cout o) = EmptyString) by reflexivity.
  assert (H2 : atom_symbol T (A_SYM "get_methods") = "get_methods")
    by reflexivity.
  assert (H3 : Backend.m_loaded (m_model o) <> 0) by discriminate.
  split; [exact H0|]. split; [exact H2|]. split; [exact H3|].
  split; [exact H1|]. split.
  - destruct (proj1 (anything_lists_names h SpecParsing.parsers T
                       (A_SYM "get_attributes") [] o) H0) as (_ & _ & _ & H).
    exact (H H1).
  - destruct (proj2 (anything_lists_names h SpecParsing.parsers T
                       (A_SYM "get_methods") [] o) H2 H3)
      as (names & b1 & _ & H & _).
    exact H.
Defined.

(** X21: a request that the console protocol cannot serve only prints one
    line on the error console: the handler returns and the backend, [cout]
    and the rest of the object are as before.  This is so for a selector
    that is none of [reload], [get_attributes], [get_methods], [get] and
    [set], for [get] without a name, and for [set] with fewer than two
    atoms after the selector. *)
Theorem anything_rejects_with_one_line h P T a0 more o :
  let selector := atom_symbol T a0 in
  let says line := (Val tt, on_cerr (fun l => endl (put line l)) o) in
  (~ In selector ["reload"; "get_attributes"; "get_methods"; "get"; "set"] ->
   anything h P T (a0 :: more) o
   = says ("no corresponding method for " ++ selector))
  /\ (selector = "get" ->
      anything h P T [a0] o = says "get must be given an attribute name")
  /\ (selector = "set" -> (List.length more < 2)%nat ->
      anything h P T (a0 :: more) o
      = says ("set must be given an attribute name and corresponding "
                ++ "arguments")).
Proof.
  intros selector says. subst says. split; [|split].
  - intros Hno.
    assert (Hne : forall s, In s ["reload"; "get_attributes"; "get_methods";
                                  "get"; "set"] ->
                            String.eqb selector s = false).
    { intros s Hs. apply String.eqb_neq. intros ->. exact (Hno Hs). }
    unfold anything. unfold bind at 1. unfold lift at 1.
    change (vec_at (a0 :: more) 0) with (@Val atom a0).
    cbv beta iota. fold selector.
    rewrite !Hne by (cbn; tauto). reflexivity.
  - intros H. unfold anything. unfold bind at 1. unfold lift at 1.
    change (vec_at [a0] 0) with (@Val atom a0).
    cbv beta iota. fold selector. rewrite H. reflexivity.
  - intros H Hlen. unfold anything. unfold bind at 1. unfold lift at 1.
    change (vec_at (a0 :: more) 0) with (@Val atom a0).
    cbv beta iota. fold selector. rewrite H.
    change (String.eqb "set" "reload") with false.
    change (String.eqb "set" "get_attributes") with false.
    change (String.eqb "set" "get_methods") with false.
    change (String.eqb "set" "get") with false.
    change (String.eqb "set" "set") with true.
    cbv iota.
    assert ((List.length (a0 :: more) <? 3)%nat = true) as ->.
    { apply Nat.ltb_lt. cbn. lia. }
    reflexivity.
Qed.

Lemma anything_rejects_with_one_line_witness :
  let h := Examples.host_with "model.ts" Examples.gain_model in
  let T := MessageExamples.plain_text in
  let o := MessageExamples.message_object Examples.gain_model ["gain"] 1 in
  ~ In (atom_symbol T (A_SYM "bang"))
       ["reload"; "get_attributes"; "get_methods"; "get"; "set"]
  /\ anything h SpecParsing.parsers T [A_SYM "bang"; A_LONG 1] o
     = (Val tt,
        on_cerr (fun l => endl (put "no corresponding method for bang" l)) o)
  /\ atom_symbol T (A_SYM "set") = "set"
  /\ (List.length [A_SYM "gain"] < 2)%nat
  /\ posted (cerr (snd (anything h SpecParsing.parsers T
                                 [A_SYM "set"; A_SYM "gain"] o)))
     = ["set must be given an attribute name and corresponding arguments"].
Proof.
  intros h T o.
  assert (H0 : ~ In (atom_symbol T (A_SYM "bang"))
                    ["reload"; "get_attributes"; "get_methods"; "get"; "set"]).
  { cbn. intros [H|[H|[H|[H|[H|[]]]]]]; discriminate H. }
  assert (H1 : atom_symbol T (A_SYM "set") = "set") by reflexivity.
  assert (H2 : (List.length [A_SYM "gain"] < 2)%nat) by (simpl; lia).
  split; [exact H0|]. split.
  - exact (proj1 (anything_rejects_with_one_line h SpecParsing.parsers T
                    (A_SYM "bang") [A_LONG 1] o) H0).
  - split; [exact H1|]. split; [exact H2|].
    rewrite (proj2 (proj2 (anything_rejects_with_one_line
                             h SpecParsing.parsers T (A_SYM "set")
                             [A_SYM "gain"] o)) H1 H2).
    reflexivity.
Defined.

End NnMsgFacts.

(** ** Progress of the two threads *)

Module ThreadMoreFacts.
Import Cxx Torch Threads ThreadFacts.



End ThreadMoreFacts.
